(** * The uncord gateway client ([src/lib/gateway/gateway-client.ts])

    A shallow embedding of the [GatewayClient] class together with the
    subscription helper [useGatewayEvent] of
    [src/lib/gateway/gateway-context.tsx], and the properties of the
    gateway protocol client established on it.

    The class is callback driven: every method body and every transport or
    timer callback runs to completion on a single thread.  Each of them is
    embedded as a computation in a small state/exception/trace monad over a
    [World] that holds the fields of the instance and the part of the
    JavaScript runtime it talks to (sockets, timers, pending token
    fetches).  What the client does to the outside (opening, writing to and
    closing sockets, starting and clearing timers, calling subscribers) is
    recorded as a trace of [Effect]s.

    Conventions of the model:
    - values that come off the wire are [json] values and keep their
      run-time shape: the [sessionId] and [seq] fields hold whatever value
      the frame carried, and [null] is [JNull]; numbers are rationals;
    - [JSON.parse] is a parameter; a frame given to [ws.send] is recorded
      as the value that is serialised;
    - a subscriber callback returns or throws, and does not call back into
      the client while it runs;
    - [new WebSocket(url)] and [sock.close(code)] with the codes used here
      (1000, 4000) do not throw; timer ids are fresh and non-zero;
    - [Math.random()] is an input of the event that draws it; the
      reconnect delay is computed as JavaScript computes it, in binary64:
      the result of each [-], [*] and [+] is rounded to the nearest double
      ([to_double]). *)

From Stdlib Require Import ZArith QArith Qround Qpower String Ascii List Bool Lia Lqa.
From Stdlib Require Floats Uint63.
From stdpp Require Import base list.
Import ListNotations.

Local Open Scope string_scope.
Local Open Scope list_scope.

#[local] Set Warnings "-register-all".

(** ** JavaScript values that cross the wire *)

(** The result of [JSON.parse].  [undefined] is not a JSON value: a value
    that may be [undefined] (a missing property) is an [option json]. *)
Inductive json : Type :=
| JNull
| JBool (b : bool)
| JNum (q : Q)
| JStr (s : string)
| JArr (items : list json)
| JObj (fields : list (string * json)).

Fixpoint assoc {A : Type} (k : string) (l : list (string * A)) : option A :=
  match l with
  | [] => None
  | (k', v) :: l' => if String.eqb k k' then Some v else assoc k l'
  end.

(** Property read [v.k] on a parsed value; [None] is [undefined].  The keys
    read by the client ([op], [d], [s], [t], [heartbeat_interval],
    [session_id]) are own properties of objects only. *)
Definition field (k : string) (v : json) : option json :=
  match v with
  | JObj fs => assoc k fs
  | _ => None
  end.

Definition field_of (k : string) (v : option json) : option json :=
  match v with
  | Some o => field k o
  | None => None
  end.

(** JavaScript truthiness, as tested by [if (x)] and [!x]. *)
Definition truthy (v : json) : bool :=
  match v with
  | JNull => false
  | JBool b => b
  | JNum q => negb (Qeq_bool q 0)
  | JStr s => negb (String.eqb s "")
  | JArr _ => true
  | JObj _ => true
  end.

Definition truthy_opt (v : option json) : bool :=
  match v with
  | Some x => truthy x
  | None => false
  end.

(** [typeof d === "object" && d !== null] *)
Definition is_object (v : option json) : bool :=
  match v with
  | Some (JObj _) | Some (JArr _) => true
  | _ => false
  end.

(** [typeof x === "number"] *)
Definition is_number (v : option json) : bool :=
  match v with
  | Some (JNum _) => true
  | _ => false
  end.

(** [k in d], for an object that came out of [JSON.parse]. *)
Definition has_key (k : string) (v : option json) : bool :=
  match field_of k v with
  | Some _ => true
  | None => false
  end.

(** ** Type guards for gateway payloads *)

Definition isHelloData (d : option json) : bool :=
  is_object d && has_key "heartbeat_interval" d
  && is_number (field_of "heartbeat_interval" d).

Definition isReadyData (d : option json) : bool := is_object d.

Definition isFrame (d : option json) : bool :=
  is_object d && has_key "op" d && is_number (field_of "op" d).

(** A value that passed [isFrame], read through the [Frame] interface. *)
Record Frame : Type := mkFrame {
  op : Q;
  d : option json;
  s : option json;
  t : option json
}.

Definition number_of (v : option json) : Q :=
  match v with
  | Some (JNum q) => q
  | _ => 0%Q
  end.

Definition as_frame (v : json) : Frame :=
  {| op := number_of (field "op" v);
     d := field "d" v;
     s := field "s" v;
     t := field "t" v |}.

(** [HelloData], after [isHelloData]. *)
Record HelloData : Type := mkHello { heartbeat_interval : Q }.

Definition as_hello (v : option json) : HelloData :=
  {| heartbeat_interval := number_of (field_of "heartbeat_interval" v) |}.

(** ** Constants *)

Definition OP_DISPATCH : Q := 0.
Definition OP_HEARTBEAT : Q := 1.
Definition OP_IDENTIFY : Q := 2.
Definition OP_PRESENCE_UPDATE : Q := 3.
Definition OP_RESUME : Q := 6.
Definition OP_RECONNECT : Q := 7.
Definition OP_INVALID_SESSION : Q := 9.
Definition OP_HELLO : Q := 10.
Definition OP_HEARTBEAT_ACK : Q := 11.

Definition CLOSE_INVALID_TOKEN : Z := 4004.
Definition CLOSE_RATE_LIMITED : Z := 4008.

Definition MAX_BACKOFF_MS : Z := 30000.
Definition RATE_LIMIT_WAIT_MS : Z := 60000.

(** ** Numbers

    A JavaScript number is an IEEE 754 binary64 value.  The finite ones
    are rationals; an arithmetic operation returns the double nearest to
    the exact result, ties going to the even significand.  [to_double] is
    that rounding, for results below the overflow threshold (the values
    computed here stay below [2^17]): 53 significant bits, and nothing
    finer than [2^-1074]. *)

(** [2^e] for any integer [e]. *)
Definition pow2 (e : Z) : Q := Qpower 2 e.

(** Round to the nearest integer, ties to the even one. *)
Definition round_half_even (x : Q) : Z :=
  let f := Qfloor x in
  match Qcompare (x - inject_Z f) (1 # 2) with
  | Lt => f
  | Gt => (f + 1)%Z
  | Eq => if Z.even f then f else (f + 1)%Z
  end.

(** The [e] with [2^e <= x < 2^(e+1)], for [x > 0]. *)
Definition ilog2 (x : Q) : Z :=
  let e := (Z.log2 (Qnum x) - Z.log2 (Zpos (Qden x)))%Z in
  if Qle_bool (pow2 e) x then e else (e - 1)%Z.

(** The exponent of the last place of the doubles next to [x]. *)
Definition ulp_exponent (x : Q) : Z := Z.max (ilog2 x - 52) (-1074).

(** The multiple of [2^p] nearest to [x]. *)
Definition round_at (p : Z) (x : Q) : Q :=
  (inject_Z (round_half_even (x / pow2 p)) * pow2 p)%Q.

Definition round_pos (x : Q) : Q := round_at (ulp_exponent x) x.

(** The double nearest to [x]. *)
Definition to_double (x : Q) : Q :=
  match Qcompare x 0 with
  | Eq => 0%Q
  | Gt => round_pos x
  | Lt => (- round_pos (- x))%Q
  end.

(** ** Transport address *)

Fixpoint string_rev (x : string) : string :=
  match x with
  | EmptyString => EmptyString
  | String c x' => string_rev x' ++ String c EmptyString
  end.

Fixpoint drop_slashes (x : string) : string :=
  match x with
  | String "/" x' => drop_slashes x'
  | _ => x
  end.

(** [x.replace(/\/+$/, "")] *)
Definition strip_trailing_slashes (x : string) : string :=
  string_rev (drop_slashes (string_rev x)).

(** [x.replace(/^http/, "ws")] *)
Definition http_to_ws (x : string) : string :=
  if String.prefix "http" x
  then "ws" ++ String.substring 4 (String.length x - 4) x
  else x.

Definition deriveWsUrl (baseUrl : string) : string :=
  http_to_ws (strip_trailing_slashes baseUrl) ++ "/api/v1/gateway".


(** ** The runtime the client lives in *)

Inductive ReadyState : Type := CONNECTING | OPEN | CLOSING | CLOSED.

(** A [WebSocket] object.  [wired] tells whether the four callbacks
    ([onopen], [onmessage], [onclose], [onerror]) installed by [connect] are
    still in place: [cleanup] sets all four to [null] at once. *)
Record Socket : Type := mkSocket {
  sock_url : string;
  readyState : ReadyState;
  wired : bool
}.

(** A callback held by the listener registry: either a function given to
    [on] as it is, or the [stableHandler] that [useGatewayEvent] builds
    around the consumer's callback.  The number names the consumer's
    callback. *)
Inductive EventHandler : Type :=
| RawHandler (h : nat)
| StableHandler (h : nat).

Definition handler_eqb (a b : EventHandler) : bool :=
  match a, b with
  | RawHandler x, RawHandler y => Nat.eqb x y
  | StableHandler x, StableHandler y => Nat.eqb x y
  | _, _ => false
  end.

(** The closure returned by [on(event, handler)]: it captures the event
    key, the [Set] object found or created by that call, and the handler. *)
Record Unsubscribe : Type := mkUnsub {
  u_event : string;
  u_set : nat;
  u_handler : EventHandler
}.

(** What the client does to its environment.  [EInvoke] records a call of
    a subscriber together with the value the [seq] field has while the
    subscriber runs. *)
Inductive Effect : Type :=
| ENewSocket (id : nat) (url : string)
| ESockSend (id : nat) (frame : json)
| ESockClose (id : nat) (code : Z)
| ESetInterval (tid : nat) (ms : Q)
| EClearInterval (tid : nat)
| ESetTimeout (tid : nat) (ms : Z)
| EClearTimeout (tid : nat)
| EGetToken (k : nat)
| EInvoke (h : EventHandler) (data : option json) (seq_seen : json)
| EConsoleWarn
| EConsoleError.

Record World : Type := mkWorld {
  (* fields of the [GatewayClient] instance *)
  baseUrl : string;
  ws : option nat;
  heartbeatTimer : option nat;
  heartbeatAckReceived : bool;
  reconnectTimer : option nat;
  reconnectAttempts : nat;
  sessionId : json;
  seq : json;
  intentionalClose : bool;
  disposed : bool;
  listeners : list (string * nat);
  (* the [Set] objects of the listener registry, by reference *)
  sets : list (list EventHandler);
  (* the unsubscribe closures handed out by [on] *)
  unsubscribers : list Unsubscribe;
  (* the [WebSocket] objects created so far, by identity *)
  sockets : list Socket;
  (* live [setInterval] and [setTimeout] timers, and the next timer id *)
  intervals : list nat;
  timeouts : list nat;
  next_timer : nat;
  (* [handleHello] calls suspended at [await this.getToken()] *)
  fetches : list (option HelloData)
}.

(** Field updates: [set_f v w] is [w] with [v] in field [f]. *)
Definition set_ws (v : option nat) (w : World) : World :=
  mkWorld (baseUrl w) v (heartbeatTimer w) (heartbeatAckReceived w)
    (reconnectTimer w) (reconnectAttempts w) (sessionId w) (seq w)
    (intentionalClose w) (disposed w) (listeners w) (sets w)
    (unsubscribers w) (sockets w) (intervals w) (timeouts w) (next_timer w)
    (fetches w).

Definition set_heartbeatTimer (v : option nat) (w : World) : World :=
  mkWorld (baseUrl w) (ws w) v (heartbeatAckReceived w) (reconnectTimer w)
    (reconnectAttempts w) (sessionId w) (seq w) (intentionalClose w)
    (disposed w) (listeners w) (sets w) (unsubscribers w) (sockets w)
    (intervals w) (timeouts w) (next_timer w) (fetches w).

Definition set_heartbeatAckReceived (v : bool) (w : World) : World :=
  mkWorld (baseUrl w) (ws w) (heartbeatTimer w) v (reconnectTimer w)
    (reconnectAttempts w) (sessionId w) (seq w) (intentionalClose w)
    (disposed w) (listeners w) (sets w) (unsubscribers w) (sockets w)
    (intervals w) (timeouts w) (next_timer w) (fetches w).

Definition set_reconnectTimer (v : option nat) (w : World) : World :=
  mkWorld (baseUrl w) (ws w) (heartbeatTimer w) (heartbeatAckReceived w) v
    (reconnectAttempts w) (sessionId w) (seq w) (intentionalClose w)
    (disposed w) (listeners w) (sets w) (unsubscribers w) (sockets w)
    (intervals w) (timeouts w) (next_timer w) (fetches w).

Definition set_reconnectAttempts (v : nat) (w : World) : World :=
  mkWorld (baseUrl w) (ws w) (heartbeatTimer w) (heartbeatAckReceived w)
    (reconnectTimer w) v (sessionId w) (seq w) (intentionalClose w)
    (disposed w) (listeners w) (sets w) (unsubscribers w) (sockets w)
    (intervals w) (timeouts w) (next_timer w) (fetches w).

Definition set_sessionId (v : json) (w : World) : World :=
  mkWorld (baseUrl w) (ws w) (heartbeatTimer w) (heartbeatAckReceived w)
    (reconnectTimer w) (reconnectAttempts w) v (seq w) (intentionalClose w)
    (disposed w) (listeners w) (sets w) (unsubscribers w) (sockets w)
    (intervals w) (timeouts w) (next_timer w) (fetches w).

Definition set_seq (v : json) (w : World) : World :=
  mkWorld (baseUrl w) (ws w) (heartbeatTimer w) (heartbeatAckReceived w)
    (reconnectTimer w) (reconnectAttempts w) (sessionId w) v
    (intentionalClose w) (disposed w) (listeners w) (sets w)
    (unsubscribers w) (sockets w) (intervals w) (timeouts w) (next_timer w)
    (fetches w).

Definition set_intentionalClose (v : bool) (w : World) : World :=
  mkWorld (baseUrl w) (ws w) (heartbeatTimer w) (heartbeatAckReceived w)
    (reconnectTimer w) (reconnectAttempts w) (sessionId w) (seq w) v
    (disposed w) (listeners w) (sets w) (unsubscribers w) (sockets w)
    (intervals w) (timeouts w) (next_timer w) (fetches w).

Definition set_disposed (v : bool) (w : World) : World :=
  mkWorld (baseUrl w) (ws w) (heartbeatTimer w) (heartbeatAckReceived w)
    (reconnectTimer w) (reconnectAttempts w) (sessionId w) (seq w)
    (intentionalClose w) v (listeners w) (sets w) (unsubscribers w)
    (sockets w) (intervals w) (timeouts w) (next_timer w) (fetches w).

Definition set_listeners (v : list (string * nat)) (w : World) : World :=
  mkWorld (baseUrl w) (ws w) (heartbeatTimer w) (heartbeatAckReceived w)
    (reconnectTimer w) (reconnectAttempts w) (sessionId w) (seq w)
    (intentionalClose w) (disposed w) v (sets w) (unsubscribers w)
    (sockets w) (intervals w) (timeouts w) (next_timer w) (fetches w).

Definition set_sets (v : list (list EventHandler)) (w : World) : World :=
  mkWorld (baseUrl w) (ws w) (heartbeatTimer w) (heartbeatAckReceived w)
    (reconnectTimer w) (reconnectAttempts w) (sessionId w) (seq w)
    (intentionalClose w) (disposed w) (listeners w) v (unsubscribers w)
    (sockets w) (intervals w) (timeouts w) (next_timer w) (fetches w).

Definition set_unsubscribers (v : list Unsubscribe) (w : World) : World :=
  mkWorld (baseUrl w) (ws w) (heartbeatTimer w) (heartbeatAckReceived w)
    (reconnectTimer w) (reconnectAttempts w) (sessionId w) (seq w)
    (intentionalClose w) (disposed w) (listeners w) (sets w) v (sockets w)
    (intervals w) (timeouts w) (next_timer w) (fetches w).

Definition set_sockets (v : list Socket) (w : World) : World :=
  mkWorld (baseUrl w) (ws w) (heartbeatTimer w) (heartbeatAckReceived w)
    (reconnectTimer w) (reconnectAttempts w) (sessionId w) (seq w)
    (intentionalClose w) (disposed w) (listeners w) (sets w)
    (unsubscribers w) v (intervals w) (timeouts w) (next_timer w)
    (fetches w).

Definition set_intervals (v : list nat) (w : World) : World :=
  mkWorld (baseUrl w) (ws w) (heartbeatTimer w) (heartbeatAckReceived w)
    (reconnectTimer w) (reconnectAttempts w) (sessionId w) (seq w)
    (intentionalClose w) (disposed w) (listeners w) (sets w)
    (unsubscribers w) (sockets w) v (timeouts w) (next_timer w) (fetches w).

Definition set_timeouts (v : list nat) (w : World) : World :=
  mkWorld (baseUrl w) (ws w) (heartbeatTimer w) (heartbeatAckReceived w)
    (reconnectTimer w) (reconnectAttempts w) (sessionId w) (seq w)
    (intentionalClose w) (disposed w) (listeners w) (sets w)
    (unsubscribers w) (sockets w) (intervals w) v (next_timer w) (fetches w).

Definition set_next_timer (v : nat) (w : World) : World :=
  mkWorld (baseUrl w) (ws w) (heartbeatTimer w) (heartbeatAckReceived w)
    (reconnectTimer w) (reconnectAttempts w) (sessionId w) (seq w)
    (intentionalClose w) (disposed w) (listeners w) (sets w)
    (unsubscribers w) (sockets w) (intervals w) (timeouts w) v (fetches w).

Definition set_fetches (v : list (option HelloData)) (w : World) : World :=
  mkWorld (baseUrl w) (ws w) (heartbeatTimer w) (heartbeatAckReceived w)
    (reconnectTimer w) (reconnectAttempts w) (sessionId w) (seq w)
    (intentionalClose w) (disposed w) (listeners w) (sets w)
    (unsubscribers w) (sockets w) (intervals w) (timeouts w) (next_timer w)
    v.

(** ** Computations: state, exceptions and a trace of effects *)

Inductive Completion (A : Type) : Type :=
| Normal (a : A)
| Throw.
Arguments Normal {A} a.
Arguments Throw {A}.

Record Out (A : Type) : Type := mkOut {
  completion : Completion A;
  world : World;
  trace : list Effect
}.
Arguments mkOut {A} _ _ _.
Arguments completion {A} _.
Arguments world {A} _.
Arguments trace {A} _.

Definition M (A : Type) : Type := World -> Out A.

Definition ret {A : Type} (a : A) : M A :=
  fun w => mkOut (Normal a) w [].

Definition bind {A B : Type} (m : M A) (f : A -> M B) : M B :=
  fun w =>
    match m w with
    | mkOut (Normal a) w1 tr1 =>
        match f a w1 with
        | mkOut c w2 tr2 => mkOut c w2 (tr1 ++ tr2)
        end
    | mkOut Throw w1 tr1 => mkOut Throw w1 tr1
    end.

Definition throw {A : Type} : M A :=
  fun w => mkOut Throw w [].

(** [try { m } catch { h }] *)
Definition try_catch (m : M unit) (h : M unit) : M unit :=
  fun w =>
    match m w with
    | mkOut (Normal a) w1 tr1 => mkOut (Normal a) w1 tr1
    | mkOut Throw w1 tr1 =>
        match h w1 with
        | mkOut c w2 tr2 => mkOut c w2 (tr1 ++ tr2)
        end
    end.

Definition read {A : Type} (f : World -> A) : M A :=
  fun w => mkOut (Normal (f w)) w [].

Definition modify (f : World -> World) : M unit :=
  fun w => mkOut (Normal tt) (f w) [].

Definition effect (e : Effect) : M unit :=
  fun w => mkOut (Normal tt) w [e].

Declare Scope gw_scope.
Delimit Scope gw_scope with gw.
Notation "x <- m ;; k" := (bind m (fun x => k))
  (at level 100, m at level 90, k at level 200, right associativity) : gw_scope.
Notation "m ;; k" := (bind m (fun _ => k))
  (at level 100, k at level 200, right associativity) : gw_scope.
Local Open Scope gw_scope.

Definition when (b : bool) (m : M unit) : M unit :=
  if b then m else ret tt.

Fixpoint for_each {A : Type} (f : A -> M unit) (l : list A) : M unit :=
  match l with
  | [] => ret tt
  | x :: l' => f x ;; for_each f l'
  end.

(** ** Runtime primitives *)

Definition remove_nat (n : nat) (l : list nat) : list nat :=
  List.filter (fun m => negb (Nat.eqb n m)) l.

Definition mem_nat (n : nat) (l : list nat) : bool :=
  existsb (Nat.eqb n) l.

(** [clearInterval(tid)] and [clearTimeout(tid)] *)
Definition clearInterval (tid : nat) : M unit :=
  effect (EClearInterval tid) ;;
  modify (fun w => set_intervals (remove_nat tid (intervals w)) w).

Definition clearTimeout (tid : nat) : M unit :=
  effect (EClearTimeout tid) ;;
  modify (fun w => set_timeouts (remove_nat tid (timeouts w)) w).

(** [setInterval(fn, ms)] and [setTimeout(fn, ms)]: a fresh, non-zero timer
    id.  Which function runs is fixed by the one place that starts each
    kind of timer: an interval runs the heartbeat tick, a timeout runs
    [connect]. *)
Definition setInterval (ms : Q) : M nat :=
  tid <- read next_timer ;;
  modify (fun w => set_next_timer (S tid) (set_intervals (intervals w ++ [tid]) w)) ;;
  effect (ESetInterval tid ms) ;;
  ret tid.

Definition setTimeout (ms : Z) : M nat :=
  tid <- read next_timer ;;
  modify (fun w => set_next_timer (S tid) (set_timeouts (timeouts w ++ [tid]) w)) ;;
  effect (ESetTimeout tid ms) ;;
  ret tid.

Definition ready_of (id : nat) (w : World) : option ReadyState :=
  match sockets w !! id with
  | Some sk => Some (readyState sk)
  | None => None
  end.

Definition set_ready (r : ReadyState) (sk : Socket) : Socket :=
  mkSocket (sock_url sk) r (wired sk).

Definition set_wired (b : bool) (sk : Socket) : Socket :=
  mkSocket (sock_url sk) (readyState sk) b.

Definition update_socket (id : nat) (f : Socket -> Socket) (w : World) : World :=
  set_sockets (alter f id (sockets w)) w.

(** [new WebSocket(url)] *)
Definition newWebSocket (url : string) : M nat :=
  id <- read (fun w => length (sockets w)) ;;
  modify (fun w => set_sockets (sockets w ++ [mkSocket url CONNECTING false]) w) ;;
  effect (ENewSocket id url) ;;
  ret id.

(** [sock.close(code)] with a valid code: starts the closing handshake of
    a socket that is connecting or open, and does nothing to one that is
    closing or closed. *)
Definition closing (sk : Socket) : Socket :=
  match readyState sk with
  | CONNECTING | OPEN => set_ready CLOSING sk
  | _ => sk
  end.

Definition sock_close (id : nat) (code : Z) : M unit :=
  effect (ESockClose id code) ;;
  modify (update_socket id closing).

(** [sock.send(JSON.stringify(frame))]; the trace keeps the frame. *)
Definition sock_send (id : nat) (frame : json) : M unit :=
  effect (ESockSend id frame).

(** ** The listener registry *)

Definition set_add (h : EventHandler) (l : list EventHandler) : list EventHandler :=
  if existsb (handler_eqb h) l then l else l ++ [h].

Definition set_delete (h : EventHandler) (l : list EventHandler) : list EventHandler :=
  List.filter (fun h' => negb (handler_eqb h h')) l.

Definition map_delete (k : string) (m : list (string * nat)) : list (string * nat) :=
  List.filter (fun e => negb (String.eqb k (fst e))) m.

Definition members (r : nat) (w : World) : list EventHandler :=
  match sets w !! r with
  | Some l => l
  | None => []
  end.

(** ** The class [GatewayClient] *)

Section Client.

(** [JSON.parse]: [None] when it throws a [SyntaxError]. *)
Variable JSON_parse : string -> option json.

(** Whether the consumer's callback [h] throws when it is called with
    [data].  Callbacks do not call back into the client. *)
Variable callback_throws : nat -> option json -> bool.

(** [new GatewayClient(baseUrl, getToken)] *)
Definition construct (url : string) : World :=
  {| baseUrl := url;
     ws := None;
     heartbeatTimer := None;
     heartbeatAckReceived := true;
     reconnectTimer := None;
     reconnectAttempts := 0;
     sessionId := JNull;
     seq := JNull;
     intentionalClose := false;
     disposed := false;
     listeners := [];
     sets := [];
     unsubscribers := [];
     sockets := [];
     intervals := [];
     timeouts := [];
     next_timer := 1;
     fetches := [] |}.

(** [handler(data)] for a handler taken from the registry.  The
    [stableHandler] of [useGatewayEvent] runs the consumer's callback inside
    [try]/[catch] and logs with [console.error]. *)
Definition call_callback (h : EventHandler) (n : nat) (data : option json) : M unit :=
  seen <- read seq ;;
  effect (EInvoke h data seen) ;;
  if callback_throws n data then throw else ret tt.

Definition invoke (data : option json) (h : EventHandler) : M unit :=
  match h with
  | RawHandler n => call_callback h n data
  | StableHandler n =>
      try_catch (call_callback h n data) (effect EConsoleError)
  end.

Definition emit (event : string) (data : option json) : M unit :=
  set <- read (fun w => assoc event (listeners w)) ;;
  match set with
  | Some r =>
      hs <- read (members r) ;;
      for_each (invoke data) hs
  | None => ret tt
  end.

Definition stopHeartbeat : M unit :=
  timer <- read heartbeatTimer ;;
  match timer with
  | Some tid =>
      clearInterval tid ;;
      modify (set_heartbeatTimer None)
  | None => ret tt
  end.

Definition clearReconnectTimer : M unit :=
  timer <- read reconnectTimer ;;
  match timer with
  | Some tid =>
      clearTimeout tid ;;
      modify (set_reconnectTimer None)
  | None => ret tt
  end.

Definition cleanup : M unit :=
  stopHeartbeat ;;
  sock <- read ws ;;
  match sock with
  | Some id => modify (update_socket id (set_wired false))
  | None => ret tt
  end.

Definition send (frame : json) : M unit :=
  sock <- read ws ;;
  match sock with
  | Some id =>
      st <- read (ready_of id) ;;
      match st with
      | Some OPEN => sock_send id frame
      | _ => ret tt
      end
  | None => ret tt
  end.

(** [this.ws?.close(code)] *)
Definition close_current (code : Z) : M unit :=
  sock <- read ws ;;
  match sock with
  | Some id => sock_close id code
  | None => ret tt
  end.

(** [Math.round(x)]: the integer nearest to the double [x], the upper one
    at a tie. *)
Definition Math_round (x : Q) : Z := Qfloor (x + (1 # 2)).

(** The delay computed by [scheduleReconnect(delayMs)] when [Math.random()]
    returns [random].  The base is an integer that a double holds exactly
    ([2 ** attempts] is a power of two, or [Infinity], which [Math.min]
    replaces by the cap); the jitter and the sum are computed in
    doubles. *)
Definition backoff_base (delayMs : option Z) (attempts : nat) : Z :=
  match delayMs with
  | Some ms => ms
  | None => Z.min (1000 * 2 ^ Z.of_nat attempts) MAX_BACKOFF_MS
  end.

Definition backoff_delay (delayMs : option Z) (attempts : nat) (random : Q) : Z :=
  let base := inject_Z (backoff_base delayMs attempts) in
  let jitter := to_double (to_double (random - (1 # 2)) * base) in
  Math_round (to_double (base + jitter)).

Definition scheduleReconnect (delayMs : option Z) (random : Q) : M unit :=
  gone <- read disposed ;;
  if gone then ret tt else
  clearReconnectTimer ;;
  attempts <- read reconnectAttempts ;;
  let backoff := backoff_delay delayMs attempts random in
  modify (set_reconnectAttempts (S attempts)) ;;
  tid <- setTimeout backoff ;;
  modify (set_reconnectTimer (Some tid)).

Definition heartbeat_frame : json := JObj [("op", JNum OP_HEARTBEAT)].

Definition identify_frame (token : string) : json :=
  JObj [("op", JNum OP_IDENTIFY); ("d", JObj [("token", JStr token)])].

Definition resume_frame (token : string) (sid sq : json) : json :=
  JObj [("op", JNum OP_RESUME);
        ("d", JObj [("token", JStr token); ("session_id", sid); ("seq", sq)])].

Definition presence_frame (status : string) : json :=
  JObj [("op", JNum OP_PRESENCE_UPDATE); ("d", JObj [("status", JStr status)])].

(** The function given to [setInterval] by [startHeartbeat]. *)
Definition heartbeat_tick : M unit :=
  ack <- read heartbeatAckReceived ;;
  if negb ack then close_current 4000 else
  modify (set_heartbeatAckReceived false) ;;
  send heartbeat_frame.

Definition startHeartbeat (intervalMs : Q) : M unit :=
  stopHeartbeat ;;
  modify (set_heartbeatAckReceived true) ;;
  tid <- setInterval intervalMs ;;
  modify (set_heartbeatTimer (Some tid)).

(** [handleHello] is [async]: it runs up to [await this.getToken()], which
    calls the accessor and suspends ([handleHello_begin]); the rest runs
    when the promise is fulfilled with [token] ([handleHello_resume]). *)
Definition handleHello_begin (data : HelloData) : M unit :=
  k <- read (fun w => length (fetches w)) ;;
  modify (fun w => set_fetches (fetches w ++ [Some data]) w) ;;
  effect (EGetToken k).

(** [!token] for a [string | null] *)
Definition no_token (token : option string) : bool :=
  match token with
  | Some tok => String.eqb tok ""
  | None => true
  end.

Definition token_string (token : option string) : string :=
  match token with
  | Some tok => tok
  | None => ""
  end.

Definition is_null (v : json) : bool :=
  match v with
  | JNull => true
  | _ => false
  end.

Definition handleHello_resume (data : HelloData) (token : option string) : M unit :=
  gone <- read disposed ;;
  if gone then ret tt else
  startHeartbeat (heartbeat_interval data) ;;
  if no_token token then
    modify (set_intentionalClose true) ;;
    close_current 4000
  else
    sid <- read sessionId ;;
    sq <- read seq ;;
    if truthy sid && negb (is_null sq)
    then send (resume_frame (token_string token) sid sq)
    else send (identify_frame (token_string token)).

(** [frame.s != null] *)
Definition not_nullish (v : option json) : bool :=
  match v with
  | Some JNull | None => false
  | Some _ => true
  end.

Definition value_of (v : option json) : json :=
  match v with
  | Some x => x
  | None => JNull
  end.

(** [frame.t === "READY"] *)
Definition is_READY (v : option json) : bool :=
  match v with
  | Some (JStr k) => String.eqb k "READY"
  | _ => false
  end.

(** [this.emit(frame.t, frame.d)] for a truthy [frame.t].  The keys of the
    registry are the strings given to [on], so a [frame.t] that is not a
    string finds no set. *)
Definition emit_t (key : option json) (data : option json) : M unit :=
  match key with
  | Some (JStr k) => emit k data
  | _ => ret tt
  end.

Definition handleDispatch (frame : Frame) : M unit :=
  when (not_nullish (s frame)) (modify (set_seq (value_of (s frame)))) ;;
  when (is_READY (t frame) && isReadyData (d frame))
    (when (truthy_opt (field_of "session_id" (d frame)))
       (modify (set_sessionId (value_of (field_of "session_id" (d frame))))) ;;
     emit "open" (d frame)) ;;
  when (truthy_opt (t frame)) (emit_t (t frame) (d frame)).

Definition clear_session : M unit :=
  modify (set_sessionId JNull) ;;
  modify (set_seq JNull).

Definition handleMessage (raw : string) : M unit :=
  gone <- read disposed ;;
  if gone then ret tt else
  match JSON_parse raw with
  | None => effect EConsoleWarn
  | Some parsed =>
      if negb (isFrame (Some parsed)) then ret tt else
      let frame := as_frame parsed in
      if Qeq_bool (op frame) OP_HELLO then
        when (isHelloData (d frame)) (handleHello_begin (as_hello (d frame)))
      else if Qeq_bool (op frame) OP_DISPATCH then
        handleDispatch frame
      else if Qeq_bool (op frame) OP_HEARTBEAT_ACK then
        modify (set_heartbeatAckReceived true)
      else if Qeq_bool (op frame) OP_RECONNECT then
        close_current 4000
      else if Qeq_bool (op frame) OP_INVALID_SESSION then
        when (negb (truthy_opt (d frame))) clear_session ;;
        close_current 4000
      else ret tt
  end.

(** [ws.onopen] *)
Definition on_open : M unit :=
  modify (set_reconnectAttempts 0).

Definition same_socket (id : nat) (cur : option nat) : bool :=
  match cur with
  | Some id' => Nat.eqb id id'
  | None => false
  end.

Definition close_event (code : Z) (reason : string) : json :=
  JObj [("code", JNum (inject_Z code)); ("reason", JStr reason)].

(** [ws.onclose], for the socket [id] captured by the closure; [random] is
    what [Math.random()] returns if [scheduleReconnect] gets to call it. *)
Definition on_close (id : nat) (code : Z) (reason : string) (random : Q) : M unit :=
  cleanup ;;
  gone <- read disposed ;;
  cur <- read ws ;;
  if gone || negb (same_socket id cur) then ret tt else
  emit "close" (Some (close_event code reason)) ;;
  intentional <- read intentionalClose ;;
  if intentional then ret tt else
  if Z.eqb code CLOSE_INVALID_TOKEN then
    clear_session ;;
    scheduleReconnect None random
  else if Z.eqb code CLOSE_RATE_LIMITED then
    scheduleReconnect (Some RATE_LIMIT_WAIT_MS) random
  else
    scheduleReconnect None random.

Definition connect : M unit :=
  gone <- read disposed ;;
  if gone then ret tt else
  modify (set_intentionalClose false) ;;
  clearReconnectTimer ;;
  old <- read ws ;;
  match old with
  | Some id =>
      cleanup ;;
      try_catch (sock_close id 1000) (ret tt) ;;
      modify (set_ws None)
  | None => ret tt
  end ;;
  url <- read (fun w => deriveWsUrl (baseUrl w)) ;;
  id <- newWebSocket url ;;
  modify (set_ws (Some id)) ;;
  modify (update_socket id (set_wired true)).

Definition sendPresenceUpdate (status : string) : M unit :=
  send (presence_frame status).

Definition disconnect : M unit :=
  modify (set_disposed true) ;;
  modify (set_intentionalClose true) ;;
  clearReconnectTimer ;;
  cleanup ;;
  sock <- read ws ;;
  match sock with
  | Some id =>
      sock_close id 1000 ;;
      modify (set_ws None)
  | None => ret tt
  end.

Definition update_set (r : nat) (f : list EventHandler -> list EventHandler)
    (w : World) : World :=
  set_sets (<[r := f (members r w)]> (sets w)) w.

Definition on (event : string) (handler : EventHandler) : M Unsubscribe :=
  found <- read (fun w => assoc event (listeners w)) ;;
  r <- match found with
       | Some r => ret r
       | None =>
           r <- read (fun w => length (sets w)) ;;
           modify (fun w => set_sets (sets w ++ [[]]) w) ;;
           modify (fun w => set_listeners (listeners w ++ [(event, r)]) w) ;;
           ret r
       end ;;
  modify (update_set r (set_add handler)) ;;
  let u := mkUnsub event r handler in
  modify (fun w => set_unsubscribers (unsubscribers w ++ [u]) w) ;;
  ret u.

(** The closure returned by [on], when called. *)
Definition unsubscribe (u : Unsubscribe) : M unit :=
  modify (update_set (u_set u) (set_delete (u_handler u))) ;;
  left <- read (members (u_set u)) ;;
  match left with
  | [] => modify (fun w => set_listeners (map_delete (u_event u) (listeners w)) w)
  | _ => ret tt
  end.

(** ** The event loop *)

(** What can happen to one client: calls of its public methods, and the
    runtime running a callback the client installed.  The runtime runs a
    socket callback only while the callbacks of that socket are in place, a
    timer callback only while the timer is live, and the rest of
    [handleHello] only for a fetch that is still pending. *)
Inductive Event : Type :=
| Connect
| Disconnect
| SendPresenceUpdate (status : string)
| On (event : string) (handler : EventHandler)
| CallUnsubscribe (n : nat)
| SockOpen (id : nat)
| SockMessage (id : nat) (raw : string)
| SockError (id : nat)
| SockClose (id : nat) (code : Z) (reason : string) (random : Q)
| HeartbeatTick (tid : nat)
| ReconnectFire (tid : nat)
| TokenResolved (k : nat) (token : option string)
| TokenRejected (k : nat).

Definition is_wired (id : nat) (w : World) : bool :=
  match sockets w !! id with
  | Some sk => wired sk
  | None => false
  end.

Definition opened (sk : Socket) : Socket :=
  match readyState sk with
  | CONNECTING => set_ready OPEN sk
  | _ => sk
  end.

Definition pending (k : nat) (w : World) : option HelloData :=
  match fetches w !! k with
  | Some p => p
  | None => None
  end.

Definition settle (k : nat) (w : World) : World :=
  set_fetches (<[k := None]> (fetches w)) w.

Definition step (ev : Event) : M unit :=
  match ev with
  | Connect => connect
  | Disconnect => disconnect
  | SendPresenceUpdate status => sendPresenceUpdate status
  | On event handler => on event handler ;; ret tt
  | CallUnsubscribe n =>
      u <- read (fun w => unsubscribers w !! n) ;;
      match u with
      | Some u => unsubscribe u
      | None => ret tt
      end
  | SockOpen id =>
      modify (update_socket id opened) ;;
      live <- read (is_wired id) ;;
      when live on_open
  | SockMessage id raw =>
      live <- read (is_wired id) ;;
      when live (handleMessage raw)
  | SockError id => ret tt
  | SockClose id code reason random =>
      modify (update_socket id (set_ready CLOSED)) ;;
      live <- read (is_wired id) ;;
      when live (on_close id code reason random)
  | HeartbeatTick tid =>
      live <- read (fun w => mem_nat tid (intervals w)) ;;
      when live heartbeat_tick
  | ReconnectFire tid =>
      live <- read (fun w => mem_nat tid (timeouts w)) ;;
      when live
        (modify (fun w => set_timeouts (remove_nat tid (timeouts w)) w) ;;
         connect)
  | TokenResolved k token =>
      p <- read (pending k) ;;
      match p with
      | Some data =>
          modify (settle k) ;;
          handleHello_resume data token
      | None => ret tt
      end
  | TokenRejected k => modify (settle k)
  end.

(** An exception that escapes a callback ends that callback only: the
    event loop goes on with the world as the callback left it. *)
Fixpoint run (evs : list Event) (w : World) : World * list Effect :=
  match evs with
  | [] => (w, [])
  | ev :: evs' =>
      let o := step ev w in
      let '(w', tr) := run evs' (world o) in
      (w', trace o ++ tr)
  end.

End Client.

(** ** Reading traces *)

(** The current socket exists and its [readyState] is [OPEN]. *)
Definition current_open (w : World) : bool :=
  match ws w with
  | Some id =>
      match ready_of id w with
      | Some OPEN => true
      | _ => false
      end
  | None => false
  end.

(** The frames written to sockets, in order. *)
Fixpoint sent_frames (tr : list Effect) : list json :=
  match tr with
  | [] => []
  | ESockSend _ frame :: tr' => frame :: sent_frames tr'
  | _ :: tr' => sent_frames tr'
  end.

(** The subscribers called, in order. *)
Fixpoint invoked (tr : list Effect) : list EventHandler :=
  match tr with
  | [] => []
  | EInvoke h _ _ :: tr' => h :: invoked tr'
  | _ :: tr' => invoked tr'
  end.

(** A socket is created or a timer is started. *)
Definition starts_resource (e : Effect) : bool :=
  match e with
  | ENewSocket _ _ | ESetInterval _ _ | ESetTimeout _ _ => true
  | _ => false
  end.

Definition is_close (e : Effect) : bool :=
  match e with
  | ESockClose _ _ => true
  | _ => false
  end.

(** Effects of calling subscribers. *)
Definition is_invoke (e : Effect) : Prop :=
  match e with
  | EInvoke _ _ _ | EConsoleError => True
  | _ => False
  end.

(** A subscriber, if this is a call of one, ran with [seq] equal to [v]. *)
Definition seen_is (v : json) (e : Effect) : Prop :=
  match e with
  | EInvoke _ _ seen => seen = v
  | _ => True
  end.

Definition listener_trace (v : json) (tr : list Effect) : Prop :=
  Forall is_invoke tr /\ Forall (seen_is v) tr.

(** The four frames the client ever builds. *)
Definition outbound_frame (f : json) : Prop :=
  f = heartbeat_frame \/
  (exists status, f = presence_frame status) \/
  (exists token, f = identify_frame token) \/
  (exists token sid sq, f = resume_frame token sid sq).

Definition heartbeat_list (w : World) : list nat :=
  match heartbeatTimer w with
  | Some tid => [tid]
  | None => []
  end.

(** What holds of every world the client can be in: a stored session id
    is truthy; the only live interval is the heartbeat timer; and the [ws]
    field is [null] only before the first [connect] or after [disconnect],
    when no heartbeat runs. *)
Record Inv (w : World) : Prop := mkInv {
  inv_session : sessionId w = JNull \/ truthy (sessionId w) = true;
  inv_intervals : intervals w = heartbeat_list w;
  inv_socket :
    ws w = None ->
    heartbeatTimer w = None /\
    (disposed w = true \/ (sockets w = [] /\ fetches w = []))
}.

(** The state [disconnect] leaves behind. *)
Record Dead (w : World) : Prop := mkDead {
  dead_disposed : disposed w = true;
  dead_ws : ws w = None;
  dead_heartbeat : heartbeatTimer w = None;
  dead_reconnect : reconnectTimer w = None
}.

(** What a write to a socket must satisfy in a step that starts in [w]. *)
Definition send_ok (w : World) (e : Effect) : Prop :=
  match e with
  | ESockSend id f =>
      ws w = Some id /\ ready_of id w = Some OPEN /\ outbound_frame f
  | _ => True
  end.

(** The frame chosen at Hello time. *)
Definition hello_frame (tok : string) (w : World) : json :=
  if truthy (sessionId w) && negb (is_null (seq w))
  then resume_frame tok (sessionId w) (seq w)
  else identify_frame tok.

(** The sockets created and timers started in a trace. *)
Definition started (tr : list Effect) : list Effect :=
  List.filter starts_resource tr.

(** Every handler in the registry that was given to [on] as it is never
    throws: a handler that can throw is a [stableHandler] of
    [useGatewayEvent]. *)
Definition guarded (throws : nat -> option json -> bool) (w : World) : Prop :=
  forall r n data, In (RawHandler n) (members r w) -> throws n data = false.

(** ** The machine's doubles

    The kernel's primitive floating-point numbers are binary64 values
    with the operations of the processor.  They serve here to compare
    [to_double] with the machine on sample inputs, and nowhere else. *)

(** The value of a finite double. *)
Definition double_value (f : PrimFloat.float) : option Q :=
  match FloatOps.Prim2SF f with
  | SpecFloat.S754_zero _ => Some 0%Q
  | SpecFloat.S754_finite sg m e =>
      Some ((if sg then -1 else 1) * inject_Z (Zpos m) * pow2 e)%Q
  | _ => None
  end.

(** The double [m * 2^e], for [0 <= m < 2^53]. *)
Definition machine_double (m e : Z) : PrimFloat.float :=
  FloatOps.Z.ldexp (PrimFloat.of_uint63 (Uint63.of_Z m)) e.

(** [base + (random - 0.5) * base] on the machine. *)
Definition machine_jittered (base : Z) (random : PrimFloat.float) : PrimFloat.float :=
  let b := machine_double base 0 in
  PrimFloat.add b (PrimFloat.mul (PrimFloat.sub random (machine_double 1 (-1))) b).

(** Bases and values of [Math.random()], the latter as [m * 2^e]: the
    doubles nearest to 0.7775 and 0.026875, the ends of the range, the
    neighbours of 0.5, and others. *)
Definition machine_samples : list (Z * Z * Z) :=
  [(1000, 7003097420561121, (-53));
   (60000, 7746191359077253, (-58));
   (1000, 0, 0);
   (30000, 1, (-1));
   (60000, 9007199254740991, (-53));
   (16000, 9007199254740991, (-54));
   (2000, 4503599627370497, (-53));
   (4000, 1, (-60));
   (8000, 6004799503160661, (-54));
   (60000, 3602879701896397, (-55));
   (8000, 974739158312607, (-50));
   (60000, 260142152613821, (-48));
   (8000, 2034871870686149, (-52));
   (60000, 5290692192662957, (-53));
   (2000, 7240890297627079, (-53));
   (8000, 5673479168111007, (-53));
   (60000, 838451741077747, (-52));
   (8000, 1366397813299551, (-52));
   (1000, 1213029942248669, (-51));
   (30000, 5714642633155245, (-53));
   (16000, 8846811847830261, (-53));
   (8000, 5890010556704349, (-53));
   (16000, 5855318791767585, (-53));
   (16000, 135114626673047, (-53));
   (16000, 568939020876535, (-53));
   (1000, 856621861459543, (-52));
   (2000, 675109945989567, (-50));
   (60000, 522343766672379, (-50));
   (8000, 5322889458787639, (-53));
   (2000, 4675854339621069, (-53));
   (30000, 331185225988241, (-50));
   (1000, 5966814929946443, (-53))]%Z.

(** ** Example inputs *)

Definition hello_json : json :=
  JObj [("op", JNum 10); ("d", JObj [("heartbeat_interval", JNum 1000)])].

Definition ready_json : json :=
  JObj [("op", JNum 0); ("t", JStr "READY"); ("s", JNum 1);
        ("d", JObj [("session_id", JStr "sess-1")])].

Definition message_json : json :=
  JObj [("op", JNum 0); ("t", JStr "MESSAGE_CREATE"); ("s", JNum 2);
        ("d", JObj [("content", JStr "hi")])].

Definition example_parse (raw : string) : option json :=
  if String.eqb raw "hello" then Some hello_json
  else if String.eqb raw "ready" then Some ready_json
  else if String.eqb raw "message" then Some message_json
  else if String.eqb raw "[1]" then Some (JArr [JNum 1])
  else None.

Definition never_throws (n : nat) (data : option json) : bool := false.

Definition first_throws (n : nat) (data : option json) : bool := Nat.eqb n 0.

Definition example_url : string := "https://example.com/".

(** A client that has connected and whose socket is open. *)
Definition connected_world : World :=
  fst (run example_parse never_throws [Connect; SockOpen 0] (construct example_url)).

(** The same, with two handlers given to [on] directly for one event. *)
Definition subscribed_world : World :=
  fst (run example_parse first_throws
         [On "MESSAGE_CREATE" (RawHandler 0); On "MESSAGE_CREATE" (RawHandler 1);
          Connect; SockOpen 0]
         (construct example_url)).

(** A client that has a session: Hello, Identify, READY. *)
Definition session_events : list Event :=
  [Connect; SockOpen 0; SockMessage 0 "hello"; TokenResolved 0 (Some "tok");
   SockMessage 0 "ready"; SockMessage 0 "hello"].

(** A client whose heartbeat runs: Hello, then the token. *)
Definition heartbeat_events : list Event :=
  [Connect; SockOpen 0; SockMessage 0 "hello"; TokenResolved 0 (Some "tok")].

(** A client whose socket closes while the token of a Hello is being
    fetched. *)
Definition closed_during_fetch_events : list Event :=
  [Connect; SockOpen 0; SockMessage 0 "hello"; SockClose 0 1006 "" (1 # 2)].

(** A connected client with a subscriber of [open] and one of [READY]. *)
Definition ready_listeners_world : World :=
  fst (run example_parse never_throws
         [On "open" (StableHandler 0); On "READY" (RawHandler 1);
          Connect; SockOpen 0]
         (construct example_url)).


(** ** Well-formed worlds *)

(** The handlers an emission of [event] would call. *)
Definition handlers_of (event : string) (w : World) : list EventHandler :=
  match assoc event (listeners w) with
  | Some r => members r w
  | None => []
  end.

(** The listener registry as [on] and its closures keep it: keys are
    distinct and map to distinct [Set] objects, a key is present only with
    a non-empty set, a set holds a handler once, and a closure refers to
    the set that was registered under its own key. *)
Record Registry (w : World) : Prop := mkRegistry {
  reg_keys : List.NoDup (map fst (listeners w));
  reg_refs : List.NoDup (map snd (listeners w));
  reg_sets :
    forall k r, In (k, r) (listeners w) ->
                r < length (sets w) /\ members r w <> [];
  reg_nodup : forall r, List.NoDup (members r w);
  reg_unsub :
    forall u, In u (unsubscribers w) ->
              u_set u < length (sets w) /\
              forall k, In (k, u_set u) (listeners w) -> k = u_event u
}.

(** Every socket whose callbacks are in place is the current one. *)
Definition only_current_wired (cur : option nat) (l : list Socket) : Prop :=
  forall id sk, l !! id = Some sk -> wired sk = true -> cur = Some id.

(** At most one timeout is pending, the one in [reconnectTimer]. *)
Definition one_timeout (reconnect : option nat) (l : list nat) : Prop :=
  l = [] \/ exists t, l = [t] /\ reconnect = Some t.

(** At most one socket is wired, the current one, and at most one
    reconnect timeout is pending. *)
Record Live (w : World) : Prop := mkLive {
  live_wired : only_current_wired (ws w) (sockets w);
  live_ws : forall id, ws w = Some id -> id < length (sockets w);
  live_timeouts : one_timeout (reconnectTimer w) (timeouts w)
}.

(** The events that are callbacks of the socket [id]. *)
Definition socket_event (id : nat) (ev : Event) : bool :=
  match ev with
  | SockOpen id' | SockMessage id' _ | SockError id'
  | SockClose id' _ _ _ => Nat.eqb id id'
  | _ => false
  end.

(** The events that are calls of [on] or of a closure it returned. *)
Definition is_subscription (ev : Event) : bool :=
  match ev with
  | On _ _ | CallUnsubscribe _ => true
  | _ => false
  end.


(** ** More example inputs *)

Definition ack_json : json := JObj [("op", JNum 11)].

Definition invalid_session_json : json :=
  JObj [("op", JNum 9); ("d", JBool false)].

Definition unknown_json : json := JObj [("op", JNum 5)].

(** [example_parse] with three control frames more. *)
Definition control_parse (raw : string) : option json :=
  if String.eqb raw "ack" then Some ack_json
  else if String.eqb raw "invalid-session" then Some invalid_session_json
  else if String.eqb raw "unknown" then Some unknown_json
  else example_parse raw.

(** A client whose heartbeat runs. *)
Definition heartbeat_world : World :=
  fst (run example_parse never_throws heartbeat_events (construct example_url)).

(** A client that has a session and awaits nothing. *)
Definition session_world : World :=
  fst (run example_parse never_throws
         (heartbeat_events ++ [SockMessage 0 "ready"]) (construct example_url)).

(** A client that awaits the token of a Hello. *)
Definition fetching_world : World :=
  fst (run example_parse never_throws
         [Connect; SockOpen 0; SockMessage 0 "hello"] (construct example_url)).

(** Two handlers given to [on] for one event. *)
Definition two_handlers : list Event :=
  [On "MESSAGE_CREATE" (RawHandler 0); On "MESSAGE_CREATE" (RawHandler 1)].

(** ** Messages of a channel ([src/lib/gateway/use-gateway-messages.ts])

    [useGatewayMessages] subscribes three handlers through
    [useGatewayEvent].  Each of them checks the payload, compares its
    channel with the channel on display, and updates the list of messages
    with [setMessages]; below, a handler is the function from the list
    before to the list after. *)

(** [a === b] for two values that are not one and the same object:
    numbers, strings, booleans, [null] and [undefined] are compared by
    value, and an object or an array is equal to nothing but itself.  The
    payload of an event is parsed afresh, so none of its objects is in the
    list already. *)
Definition strict_eq (a b : option json) : bool :=
  match a, b with
  | None, None => true
  | Some JNull, Some JNull => true
  | Some (JBool x), Some (JBool y) => Bool.eqb x y
  | Some (JNum x), Some (JNum y) => Qeq_bool x y
  | Some (JStr x), Some (JStr y) => String.eqb x y
  | _, _ => false
  end.

Definition isMessage (d : option json) : bool :=
  is_object d && has_key "id" d && has_key "channel_id" d && has_key "content" d.

Definition isMessageDeleteData (d : option json) : bool :=
  is_object d && has_key "id" d && has_key "channel_id" d.

(** [channelIdRef.current], a [string | null] *)
Definition channel_ref (channelId : option string) : option json :=
  match channelId with
  | Some c => Some (JStr c)
  | None => Some JNull
  end.

(** [m.id === data.id] *)
Definition same_id (data : option json) (m : json) : bool :=
  strict_eq (field "id" m) (field_of "id" data).

(** The handler of [MESSAGE_CREATE] *)
Definition on_message_create (channelId : option string) (data : option json)
    (prev : list json) : list json :=
  if negb (isMessage data) then prev else
  if negb (strict_eq (field_of "channel_id" data) (channel_ref channelId)) then prev else
  if existsb (same_id data) prev then prev else
  match data with
  | Some d => d :: prev
  | None => prev
  end.

(** The handler of [MESSAGE_UPDATE] *)
Definition on_message_update (channelId : option string) (data : option json)
    (prev : list json) : list json :=
  if negb (isMessage data) then prev else
  if negb (strict_eq (field_of "channel_id" data) (channel_ref channelId)) then prev else
  match data with
  | Some d => map (fun m => if same_id data m then d else m) prev
  | None => prev
  end.

(** The handler of [MESSAGE_DELETE] *)
Definition on_message_delete (channelId : option string) (data : option json)
    (prev : list json) : list json :=
  if negb (isMessageDeleteData data) then prev else
  if negb (strict_eq (field_of "channel_id" data) (channel_ref channelId)) then prev else
  List.filter (fun m => negb (same_id data m)) prev.

(** No two messages of the list, which are distinct objects, have the
    same id. *)
Fixpoint distinct_ids (l : list json) : Prop :=
  match l with
  | [] => True
  | m :: l' =>
      Forall (fun m' => strict_eq (field "id" m') (field "id" m) = false) l' /\
      distinct_ids l'
  end.

(** A value that [===] compares by value. *)
Definition is_primitive (v : option json) : bool :=
  match v with
  | Some (JArr _) | Some (JObj _) => false
  | _ => true
  end.

Definition example_message (id channel content : string) : json :=
  JObj [("id", JStr id); ("channel_id", JStr channel); ("content", JStr content)].

Definition example_messages : list json :=
  [example_message "2" "c" "second"; example_message "1" "c" "first"].

(** ** Who is typing ([src/lib/typing/use-typing-users.ts])

    [useTypingUsers] keeps a [Map] from user id to the time at which the
    typing indicator of that user expires, in a ref, and the list of its
    keys in the React state it returns.  Its handlers read the channel and
    the current user from refs that the body of the hook assigns on every
    render.  [Date.now()] is an input of the event that reads it. *)

(** [typeof x === "string"] *)
Definition is_string (v : option json) : bool :=
  match v with
  | Some (JStr _) => true
  | _ => false
  end.

(** The string that a value known to be one is. *)
Definition string_of (v : option json) : string :=
  match v with
  | Some (JStr s) => s
  | _ => ""
  end.

Definition isTypingStartData (d : option json) : bool :=
  is_object d && has_key "channel_id" d && has_key "user_id" d &&
  has_key "timestamp" d &&
  is_string (field_of "channel_id" d) && is_string (field_of "user_id" d).

Definition isTypingStopData (d : option json) : bool :=
  is_object d && has_key "channel_id" d && has_key "user_id" d &&
  is_string (field_of "channel_id" d) && is_string (field_of "user_id" d).

Definition isMessageCreateData (d : option json) : bool :=
  is_object d && has_key "channel_id" d && has_key "author" d &&
  is_object (field_of "author" d) && has_key "id" (field_of "author" d) &&
  is_string (field_of "id" (field_of "author" d)).

Definition TYPING_EXPIRY_MS : Z := 12000.
Definition CLEANUP_INTERVAL_MS : Z := 1000.

(** A [Map<string, number>]: its entries in the order of insertion.
    [set] on a key of the map keeps the place of the entry. *)
Definition TypingMap : Type := list (string * Z).

Fixpoint Map_set (k : string) (v : Z) (m : TypingMap) : TypingMap :=
  match m with
  | [] => [(k, v)]
  | (k', v') :: m' =>
      if String.eqb k k' then (k, v) :: m' else (k', v') :: Map_set k v m'
  end.

Definition Map_has (k : string) (m : TypingMap) : bool :=
  existsb (fun e => String.eqb k (fst e)) m.

Definition Map_delete (k : string) (m : TypingMap) : TypingMap :=
  List.filter (fun e => negb (String.eqb k (fst e))) m.

(** [Array.from(m.keys())] *)
Definition Map_keys (m : TypingMap) : list string := map fst m.

Record Typing : Type := mkTyping {
  typingUsers : list string;          (* the state, which the hook returns *)
  typingMap : TypingMap;              (* [typingMapRef.current] *)
  channelIdRef : option string;       (* a [string | null] *)
  currentUserIdRef : option string    (* [currentUser?.id]; [None] is [undefined] *)
}.

(** The hook at its first render. *)
Definition typing_mount (channelId currentUserId : option string) : Typing :=
  mkTyping [] [] channelId currentUserId.

(** [typingMapRef.current := m; setTypingUsers(Array.from(m.keys()))] *)
Definition sync_typing (m : TypingMap) (s : Typing) : Typing :=
  mkTyping (Map_keys m) m (channelIdRef s) (currentUserIdRef s).

Definition removeUser (userId : string) (s : Typing) : Typing :=
  if Map_has userId (typingMap s)
  then sync_typing (Map_delete userId (typingMap s)) s
  else s.

(** [data.user_id === currentUserIdRef.current], for a string [user_id] *)
Definition is_current_user (userId : string) (s : Typing) : bool :=
  match currentUserIdRef s with
  | Some c => String.eqb userId c
  | None => false
  end.

Definition on_typing_start (data : option json) (now : Z) (s : Typing) : Typing :=
  if negb (isTypingStartData data) then s else
  if negb (strict_eq (field_of "channel_id" data) (channel_ref (channelIdRef s)))
  then s else
  let userId := string_of (field_of "user_id" data) in
  if is_current_user userId s then s else
  sync_typing (Map_set userId (now + TYPING_EXPIRY_MS) (typingMap s)) s.

Definition on_typing_stop (data : option json) (s : Typing) : Typing :=
  if negb (isTypingStopData data) then s else
  if negb (strict_eq (field_of "channel_id" data) (channel_ref (channelIdRef s)))
  then s else
  removeUser (string_of (field_of "user_id" data)) s.

Definition on_typing_message (data : option json) (s : Typing) : Typing :=
  if negb (isMessageCreateData data) then s else
  if negb (strict_eq (field_of "channel_id" data) (channel_ref (channelIdRef s)))
  then s else
  removeUser (string_of (field_of "id" (field_of "author" data))) s.

(** The callback of the cleanup interval. *)
Definition on_cleanup (now : Z) (s : Typing) : Typing :=
  let changed := existsb (fun e => (snd e <=? now)%Z) (typingMap s) in
  let m := List.filter (fun e => negb (snd e <=? now)%Z) (typingMap s) in
  mkTyping (if changed then Map_keys m else typingUsers s) m
    (channelIdRef s) (currentUserIdRef s).

Inductive TypingEvent : Type :=
| Render (channelId currentUserId : option string)
    (* the body of the hook runs: the refs are assigned *)
| ChannelEffect
    (* the effect on [channelId] runs *)
| TypingStart (data : option json) (now : Z)
| TypingStop (data : option json)
| MessageCreate (data : option json)
| CleanupTick (now : Z).

Definition typing_step (ev : TypingEvent) (s : Typing) : Typing :=
  match ev with
  | Render c u => mkTyping (typingUsers s) (typingMap s) c u
  | ChannelEffect => mkTyping [] [] (channelIdRef s) (currentUserIdRef s)
  | TypingStart data now => on_typing_start data now s
  | TypingStop data => on_typing_stop data s
  | MessageCreate data => on_typing_message data s
  | CleanupTick now => on_cleanup now s
  end.

Definition typing_run (evs : list TypingEvent) (s : Typing) : Typing :=
  fold_left (fun s ev => typing_step ev s) evs s.

(** The state mirrors the map, and no user is in it twice. *)
Definition typing_ok (s : Typing) : Prop :=
  typingUsers s = Map_keys (typingMap s) /\ List.NoDup (Map_keys (typingMap s)).

(** A [TYPING_START] with the user id [u]. *)
Definition starts_typing (u : string) (ev : TypingEvent) : bool :=
  match ev with
  | TypingStart data _ => String.eqb (string_of (field_of "user_id" data)) u
  | _ => false
  end.

Definition typing_start_json (channel user : string) : option json :=
  Some (JObj [("channel_id", JStr channel); ("user_id", JStr user);
              ("timestamp", JStr "2026-01-01T00:00:00Z")]).

Definition typing_stop_json (channel user : string) : option json :=
  Some (JObj [("channel_id", JStr channel); ("user_id", JStr user)]).

Definition message_by (channel user : string) : option json :=
  Some (JObj [("id", JStr "9"); ("channel_id", JStr channel);
              ("content", JStr "hello");
              ("author", JObj [("id", JStr user)])]).

(** Two users type in channel [c]; the current user is [me]. *)
Definition two_typing : Typing :=
  typing_run [TypingStart (typing_start_json "c" "ann") 1000;
              TypingStart (typing_start_json "c" "bob") 5000]
    (typing_mount (Some "c") (Some "me")).
(** * Properties *)

(** ** Rounding to the nearest double

    [to_double] is monotone, and leaves every integer and every half of an
    integer up to [2^53] as it is. *)

Lemma pow2_pos (e : Z) : (0 < pow2 e)%Q.
Proof. unfold pow2. apply Qpower_0_lt. reflexivity. Qed.

Lemma pow2_add (a b : Z) : (pow2 (a + b) == pow2 a * pow2 b)%Q.
Proof. unfold pow2. apply Qpower_plus. discriminate. Qed.

Lemma pow2_nonneg (e : Z) : (0 <= e)%Z -> (pow2 e == inject_Z (2 ^ e))%Q.
Proof.
  intros H. unfold pow2. rewrite Zpower_Qpower by exact H. reflexivity.
Qed.

Lemma pow2_ge_1 (e : Z) : (0 <= e)%Z -> (1 <= pow2 e)%Q.
Proof.
  intros H. rewrite (pow2_nonneg e H).
  change 1%Q with (inject_Z 1). rewrite <- Zle_Qle.
  assert (0 < 2 ^ e)%Z by (apply Z.pow_pos_nonneg; lia). lia.
Qed.

Lemma pow2_le (a b : Z) : (a <= b)%Z -> (pow2 a <= pow2 b)%Q.
Proof.
  intros H. replace b with (a + (b - a))%Z by lia. rewrite pow2_add.
  pose proof (pow2_pos a). pose proof (pow2_ge_1 (b - a) ltac:(lia)).
  rewrite <- (Qmult_1_r (pow2 a)) at 1.
  apply Qmult_le_l; assumption.
Qed.

Lemma rhe_cases (x : Q) :
  let f := Qfloor x in
  (inject_Z f <= x)%Q /\ (x < inject_Z f + 1)%Q /\
  ((x - inject_Z f < 1 # 2)%Q /\ round_half_even x = f \/
   (x - inject_Z f == 1 # 2)%Q /\ (round_half_even x = f \/ round_half_even x = (f + 1)%Z) \/
   ((1 # 2) < x - inject_Z f)%Q /\ round_half_even x = (f + 1)%Z).
Proof.
  intros f. split; [apply Qfloor_le|]. split.
  { pose proof (Qlt_floor x) as H. rewrite inject_Z_plus in H. exact H. }
  unfold round_half_even. fold f.
  destruct (Qcompare (x - inject_Z f) (1 # 2)) eqn:E.
  - right. left. split; [apply Qeq_alt; exact E|].
    destruct (Z.even f); auto.
  - left. split; [apply Qlt_alt; exact E|reflexivity].
  - right. right. split; [apply Qgt_alt in E; exact E|reflexivity].
Qed.

Lemma rhe_mono (x y : Q) : (x <= y)%Q -> (round_half_even x <= round_half_even y)%Z.
Proof.
  intros H.
  pose proof (Qfloor_resp_le x y H) as Hf.
  destruct (rhe_cases x) as (Hx1 & Hx2 & Hx).
  destruct (rhe_cases y) as (Hy1 & Hy2 & Hy).
  destruct (Z.eq_dec (Qfloor x) (Qfloor y)) as [E|Hne].
  - destruct Hx as [[Hx Rx]|[[Hx Rx]|[Hx Rx]]];
    destruct Hy as [[Hy Ry]|[[Hy Ry]|[Hy Ry]]];
    rewrite <- E in Hy, Ry; try lra.
    all: try (rewrite Rx, Ry; lia).
    all: try (rewrite Rx; destruct Ry as [-> | ->]; lia).
    all: try (rewrite Ry; destruct Rx as [-> | ->]; lia).
    unfold round_half_even.
    assert (Ex : Qcompare (x - inject_Z (Qfloor x)) (1 # 2) = Eq)
      by (apply Qeq_alt; exact Hx).
    assert (Ey : Qcompare (y - inject_Z (Qfloor y)) (1 # 2) = Eq).
    { apply Qeq_alt. rewrite <- E. exact Hy. }
    rewrite Ex, Ey, <- E. lia.
  - assert (Qfloor x + 1 <= Qfloor y)%Z by lia.
    assert (round_half_even x <= Qfloor x + 1)%Z.
    { destruct Hx as [[_ ->]|[[_ [-> | ->]]|[_ ->]]]; lia. }
    assert (Qfloor y <= round_half_even y)%Z.
    { destruct Hy as [[_ ->]|[[_ [-> | ->]]|[_ ->]]]; lia. }
    lia.
Qed.

Lemma rhe_comp (x y : Q) : (x == y)%Q -> round_half_even x = round_half_even y.
Proof.
  intros H. apply Z.le_antisymm; apply rhe_mono; rewrite H; apply Qle_refl.
Qed.

Lemma rhe_Z (z : Z) : round_half_even (inject_Z z) = z.
Proof.
  unfold round_half_even. rewrite Qfloor_Z.
  destruct (Qcompare (inject_Z z - inject_Z z) (1 # 2)) eqn:E.
  - apply Qeq_alt in E. lra.
  - reflexivity.
  - apply Qgt_alt in E. lra.
Qed.

Lemma round_at_mono (p : Z) (x y : Q) :
  (x <= y)%Q -> (round_at p x <= round_at p y)%Q.
Proof.
  intros H. unfold round_at. pose proof (pow2_pos p) as Hp.
  apply Qmult_le_compat_r; [|apply Qlt_le_weak; exact Hp].
  rewrite <- Zle_Qle. apply rhe_mono.
  apply Qmult_le_compat_r; [exact H|].
  apply Qlt_le_weak, Qinv_lt_0_compat. exact Hp.
Qed.

(** A multiple of [2^q] is left alone by rounding to multiples of [2^p]
    when [p <= q]. *)
Lemma round_at_grid (p q n : Z) (x : Q) :
  (p <= q)%Z -> (x == inject_Z n * pow2 q)%Q -> (round_at p x == x)%Q.
Proof.
  intros Hpq Hx. unfold round_at. pose proof (pow2_pos p) as Hp.
  assert (E : (x / pow2 p == inject_Z (n * 2 ^ (q - p)))%Q).
  { rewrite Hx. replace q with (p + (q - p))%Z at 1 by lia.
    rewrite pow2_add, (pow2_nonneg (q - p)) by lia.
    rewrite inject_Z_mult. field. lra. }
  rewrite (rhe_comp _ _ E), rhe_Z, inject_Z_mult.
  rewrite <- (pow2_nonneg (q - p)) by lia.
  rewrite Hx. replace q with (p + (q - p))%Z at 2 by lia.
  rewrite pow2_add. ring.
Qed.

Lemma ilog2_spec (x : Q) :
  (0 < x)%Q -> (pow2 (ilog2 x) <= x)%Q /\ (x < pow2 (ilog2 x + 1))%Q.
Proof.
  intros Hx. destruct x as [n d]. unfold ilog2. cbn [Qnum Qden].
  assert (Hn : (0 < n)%Z).
  { unfold Qlt in Hx. cbn in Hx. lia. }
  destruct (Z.log2_spec n Hn) as [Ha1 Ha2].
  destruct (Z.log2_spec (Zpos d) (Pos2Z.is_pos d)) as [Hb1 Hb2].
  pose proof (Z.log2_nonneg n) as Ha0.
  pose proof (Z.log2_nonneg (Zpos d)) as Hb0.
  set (a := Z.log2 n) in *. set (b := Z.log2 (Zpos d)) in *.
  set (x := n # d) in *.
  assert (Exd : (x * inject_Z (Zpos d) == inject_Z n)%Q).
  { unfold x, Qeq. cbn. lia. }
  assert (Hd : (0 < inject_Z (Zpos d))%Q).
  { change 0%Q with (inject_Z 0). rewrite <- Zlt_Qlt. lia. }
  assert (Hd1 : (pow2 b <= inject_Z (Zpos d))%Q).
  { rewrite (pow2_nonneg b Hb0), <- Zle_Qle. exact Hb1. }
  assert (Hd2 : (inject_Z (Zpos d) < pow2 (b + 1))%Q).
  { rewrite (pow2_nonneg (b + 1)) by lia. rewrite <- Zlt_Qlt.
    replace (b + 1)%Z with (Z.succ b) by lia. exact Hb2. }
  assert (Hn1 : (pow2 a <= inject_Z n)%Q).
  { rewrite (pow2_nonneg a Ha0), <- Zle_Qle. exact Ha1. }
  assert (Hn2 : (inject_Z n < pow2 (a + 1))%Q).
  { rewrite (pow2_nonneg (a + 1)) by lia. rewrite <- Zlt_Qlt.
    replace (a + 1)%Z with (Z.succ a) by lia. exact Ha2. }
  assert (Hhi : (x < pow2 (a - b + 1))%Q).
  { apply Qnot_le_lt. intros Hc.
    assert ((pow2 (a - b + 1) * pow2 b <= x * inject_Z (Zpos d))%Q).
    { apply Qle_trans with (x * pow2 b)%Q.
      - apply Qmult_le_compat_r; [exact Hc|apply Qlt_le_weak, pow2_pos].
      - apply Qmult_le_l; [exact Hx|exact Hd1]. }
    rewrite <- pow2_add, Exd in H.
    replace (a - b + 1 + b)%Z with (a + 1)%Z in H by lia. lra. }
  assert (Hlo : (pow2 (a - b - 1) < x)%Q).
  { apply Qnot_le_lt. intros Hc.
    assert ((x * inject_Z (Zpos d) < pow2 (a - b - 1) * pow2 (b + 1))%Q).
    { apply Qle_lt_trans with (pow2 (a - b - 1) * inject_Z (Zpos d))%Q.
      - apply Qmult_le_compat_r; [exact Hc|apply Qlt_le_weak; exact Hd].
      - apply Qmult_lt_l; [apply pow2_pos|exact Hd2]. }
    rewrite <- pow2_add, Exd in H.
    replace (a - b - 1 + (b + 1))%Z with a in H by lia. lra. }
  destruct (Qle_bool (pow2 (a - b)) x) eqn:E.
  - apply Qle_bool_iff in E. split; assumption.
  - assert (Hlt : (x < pow2 (a - b))%Q).
    { apply Qnot_le_lt. intros Hc. apply Qle_bool_iff in Hc. congruence. }
    replace (a - b - 1 + 1)%Z with (a - b)%Z by lia.
    split; [apply Qlt_le_weak; exact Hlo|exact Hlt].
Qed.

Lemma ilog2_mono (x y : Q) :
  (0 < x)%Q -> (x <= y)%Q -> (ilog2 x <= ilog2 y)%Z.
Proof.
  intros Hx Hxy.
  destruct (ilog2_spec x Hx) as [Hx1 _].
  destruct (ilog2_spec y) as [_ Hy2]; [lra|].
  destruct (Z_le_gt_dec (ilog2 x) (ilog2 y)) as [H|H]; [exact H|].
  pose proof (pow2_le (ilog2 y + 1) (ilog2 x) ltac:(lia)). lra.
Qed.

Lemma round_pos_mono (x y : Q) :
  (0 < x)%Q -> (x <= y)%Q -> (round_pos x <= round_pos y)%Q.
Proof.
  intros Hx Hxy. unfold round_pos, ulp_exponent.
  pose proof (ilog2_mono x y Hx Hxy) as He.
  destruct (ilog2_spec x Hx) as [Hx1 Hx2].
  destruct (ilog2_spec y) as [Hy1 Hy2]; [lra|].
  set (ex := ilog2 x) in *. set (ey := ilog2 y) in *.
  destruct (Z.eq_dec (Z.max (ex - 52) (-1074)) (Z.max (ey - 52) (-1074))) as [E|Hne].
  - rewrite E. apply round_at_mono. exact Hxy.
  - assert (Hlt : (ex < ey)%Z) by lia.
    assert (Hpy : Z.max (ey - 52) (-1074) = (ey - 52)%Z) by lia.
    assert (Hpx : (Z.max (ex - 52) (-1074) <= ey)%Z) by lia.
    rewrite Hpy.
    set (B := pow2 ey).
    assert (EB : (B == inject_Z 1 * pow2 ey)%Q) by (unfold B; ring).
    apply Qle_trans with B.
    + rewrite <- (round_at_grid _ ey 1 B Hpx EB).
      apply round_at_mono.
      pose proof (pow2_le (ex + 1) ey ltac:(lia)). unfold B. lra.
    + rewrite <- (round_at_grid (ey - 52) ey 1 B ltac:(lia) EB).
      apply round_at_mono. exact Hy1.
Qed.

Lemma round_pos_nonneg (x : Q) : (0 < x)%Q -> (0 <= round_pos x)%Q.
Proof.
  intros Hx. unfold round_pos.
  set (p := ulp_exponent x).
  assert (E : (0 == inject_Z 0 * pow2 p)%Q) by ring.
  rewrite <- (round_at_grid p p 0 0 ltac:(lia) E) at 1.
  apply round_at_mono. lra.
Qed.

Lemma Qcompare_zero (x : Q) :
  match Qcompare x 0 with
  | Eq => (x == 0)%Q
  | Lt => (x < 0)%Q
  | Gt => (0 < x)%Q
  end.
Proof.
  destruct (Qcompare x 0) eqn:E.
  - apply Qeq_alt. exact E.
  - apply Qlt_alt. exact E.
  - apply Qgt_alt in E. exact E.
Qed.

Lemma to_double_monotone (x y : Q) : (x <= y)%Q -> (to_double x <= to_double y)%Q.
Proof.
  intros H. unfold to_double.
  pose proof (Qcompare_zero x) as Ex. pose proof (Qcompare_zero y) as Ey.
  destruct (Qcompare x 0); destruct (Qcompare y 0); try lra.
  - apply round_pos_nonneg. exact Ey.
  - pose proof (round_pos_nonneg (- x) ltac:(lra)). lra.
  - pose proof (round_pos_mono (- y) (- x) ltac:(lra) ltac:(lra)). lra.
  - pose proof (round_pos_nonneg (- x) ltac:(lra)).
    pose proof (round_pos_nonneg y Ey). lra.
  - apply round_pos_mono; assumption.
Qed.

Lemma half_eq (z : Z) : (inject_Z z / 2 == inject_Z z * (1 # 2))%Q.
Proof. reflexivity. Qed.

(** Integers and halves of integers up to [2^53] are doubles. *)
Lemma round_pos_exact (z : Z) :
  (0 < z <= 2 ^ 53)%Z -> (round_pos (inject_Z z / 2) == inject_Z z / 2)%Q.
Proof.
  intros Hz. pose proof (half_eq z) as Eh. set (v := (inject_Z z / 2)%Q) in *.
  assert (Hz0 : (inject_Z 0 < inject_Z z)%Q) by (rewrite <- Zlt_Qlt; lia).
  change (inject_Z 0) with 0%Q in Hz0.
  assert (Hv : (0 < v)%Q) by lra.
  destruct (ilog2_spec v Hv) as [H1 H2].
  unfold round_pos, ulp_exponent. set (e := ilog2 v) in *.
  destruct (Z.eq_dec z (2 ^ 53)%Z) as [->|Hne].
  - assert (Ev : (v == inject_Z 1 * pow2 52)%Q) by reflexivity.
    assert (e < 53)%Z.
    { destruct (Z_lt_ge_dec e 53) as [H|H]; [exact H|].
      pose proof (pow2_le 53 e ltac:(lia)).
      assert (v < pow2 53)%Q by reflexivity. lra. }
    apply (round_at_grid _ 52 1 v); [lia|exact Ev].
  - assert (Ev : (v == inject_Z z * pow2 (-1))%Q) by exact Eh.
    assert (e < 52)%Z.
    { destruct (Z_lt_ge_dec e 52) as [H|H]; [exact H|].
      pose proof (pow2_le 52 e ltac:(lia)).
      assert (v < pow2 52)%Q.
      { assert (inject_Z z < inject_Z (2 ^ 53)%Z)%Q by (rewrite <- Zlt_Qlt; lia).
        assert (E52 : (pow2 52 == inject_Z (2 ^ 53)%Z * (1 # 2))%Q) by reflexivity.
        lra. }
      lra. }
    apply (round_at_grid _ (-1) z v); [lia|exact Ev].
Qed.

Lemma to_double_exact (z : Z) :
  (Z.abs z <= 2 ^ 53)%Z -> (to_double (inject_Z z / 2) == inject_Z z / 2)%Q.
Proof.
  intros Hz. unfold to_double.
  pose proof (Qcompare_zero (inject_Z z / 2)) as E.
  pose proof (half_eq z) as Eh.
  destruct (Qcompare (inject_Z z / 2) 0).
  - rewrite E. reflexivity.
  - assert (Hneg : (z < 0)%Z).
    { destruct (Z_lt_ge_dec z 0) as [H|H]; [exact H|].
      assert (inject_Z 0 <= inject_Z z)%Q by (rewrite <- Zle_Qle; lia).
      change (inject_Z 0) with 0%Q in H0. lra. }
    pose proof (round_pos_exact (- z) ltac:(lia)) as Hr.
    pose proof (half_eq (- z)) as Eh'. rewrite inject_Z_opp in Eh'.
    assert (Hm : (round_pos (- (inject_Z z / 2)) == round_pos (inject_Z (- z) / 2))%Q).
    { apply Qle_antisym; apply round_pos_mono; rewrite ?inject_Z_opp; lra. }
    rewrite Hm, Hr. rewrite inject_Z_opp. lra.
  - assert (Hpos : (0 < z)%Z).
    { destruct (Z_lt_ge_dec 0 z) as [H|H]; [exact H|].
      assert (inject_Z z <= inject_Z 0)%Q by (rewrite <- Zle_Qle; lia).
      change (inject_Z 0) with 0%Q in H0. lra. }
    apply round_pos_exact. lia.
Qed.

Section Properties.

Variable parse : string -> option json.
Variable throws : nat -> option json -> bool.

Arguments emit : simpl never.
Arguments backoff_delay : simpl never.
Arguments deriveWsUrl : simpl never.
Arguments remove_nat : simpl never.
Arguments mem_nat : simpl never.
Arguments alter : simpl never.
Arguments handleMessage : simpl never.
Arguments handleDispatch : simpl never.
Arguments handleHello_resume : simpl never.
Arguments scheduleReconnect : simpl never.
Arguments on_close : simpl never.
Arguments connect : simpl never.
Arguments send : simpl never.
Arguments as_frame : simpl never.
Arguments as_hello : simpl never.
Arguments is_wired : simpl never.
Arguments update_socket : simpl never.

(** Symbolic execution: unfold the operations, then split on whatever the
    code branches on. *)
Create HintDb gw.
#[local] Hint Unfold bind ret read modify effect when throw try_catch
  clearInterval clearTimeout setInterval setTimeout newWebSocket sock_close
  sock_send stopHeartbeat clearReconnectTimer cleanup send close_current
  scheduleReconnect heartbeat_tick startHeartbeat handleHello_begin
  handleHello_resume handleDispatch clear_session handleMessage on_open
  on_close connect sendPresenceUpdate disconnect on unsubscribe step emit_t
  update_socket update_set settle ready_of is_wired pending current_open : gw.

Ltac exec := repeat (progress (autounfold with gw in *; cbn in * )).

(** The same for the monad only, in the goal. *)
Ltac mcbn :=
  repeat (progress
    (unfold bind, ret, read, modify, effect, when, throw, try_catch; cbn)).

Lemma listener_trace_nil (v : json) : listener_trace v [].
Proof. split; constructor. Qed.

Lemma listener_trace_app (v : json) (tr1 tr2 : list Effect) :
  listener_trace v tr1 -> listener_trace v tr2 -> listener_trace v (tr1 ++ tr2).
Proof. intros [] []. split; apply Forall_app; auto. Qed.

Lemma invoke_out (data : option json) (h : EventHandler) (w : World) :
  exists c tr,
    invoke throws data h w = mkOut c w tr /\ listener_trace (seq w) tr.
Proof.
  destruct h as [n|n]; unfold invoke, call_callback; exec;
    destruct (throws n data); cbn; eexists _, _; (split; [reflexivity|]);
    split; repeat constructor.
Qed.

Lemma for_each_invoke_out (data : option json) (hs : list EventHandler) (w : World) :
  exists c tr,
    for_each (invoke throws data) hs w = mkOut c w tr /\
    listener_trace (seq w) tr.
Proof.
  induction hs as [|h hs IH].
  - eexists _, _. split; [reflexivity|]. apply listener_trace_nil.
  - cbn [for_each]. unfold bind.
    destruct (invoke_out data h w) as (c & tr & -> & Htr).
    destruct c as [[]|].
    + destruct IH as (c' & tr' & -> & Htr').
      eexists _, _. split; [reflexivity|]. now apply listener_trace_app.
    + eexists _, _. split; [reflexivity|]. assumption.
Qed.

(** [emit] changes nothing in the client: all it does is call subscribers,
    each of which runs with the [seq] the client has at that point. *)
Lemma emit_out (event : string) (data : option json) (w : World) :
  exists c tr,
    emit throws event data w = mkOut c w tr /\ listener_trace (seq w) tr.
Proof.
  unfold emit. exec.
  destruct (assoc event (listeners w)) as [r|]; cbn.
  - destruct (for_each_invoke_out data (members r w) w) as (c & tr & -> & Htr).
    eexists _, _. split; [reflexivity|]. assumption.
  - eexists _, _. split; [reflexivity|]. apply listener_trace_nil.
Qed.

Ltac emit_cases :=
  match goal with
  | |- context [emit ?T ?e ?d ?w] =>
      let c := fresh "c" in
      let tr := fresh "tr" in
      let H := fresh "Htr" in
      destruct (emit_out e d w) as (c & tr & -> & H); destruct c as [[]|]
  end.

Ltac case_match :=
  match goal with
  | |- context [match ?x with _ => _ end] =>
      lazymatch x with
      | context [match _ with _ => _ end] => fail
      | _ => first [is_var x; destruct x | destruct x eqn:?]
      end
  end.

Ltac crunch :=
  exec;
  repeat (first [progress rewrite Nat.eqb_refl | emit_cases | case_match];
          exec; subst).

Lemma remove_nat_single (n : nat) : remove_nat n [n] = [].
Proof. unfold remove_nat. cbn. rewrite Nat.eqb_refl. reflexivity. Qed.

Lemma alter_nil_iff {A : Type} (f : A -> A) (i : nat) (l : list A) :
  alter f i l = [] <-> l = [].
Proof.
  split; intros H.
  - apply (f_equal length) in H. rewrite length_alter in H.
    destruct l; [reflexivity|discriminate].
  - subst. reflexivity.
Qed.

Lemma truthy_value_of (v : option json) :
  truthy_opt v = true -> truthy (value_of v) = true.
Proof. destruct v; cbn; congruence. Qed.

(** *** The invariant of reachable worlds *)

Lemma construct_Inv (url : string) : Inv (construct url).
Proof. split; cbn; auto. Qed.

Ltac inv_session :=
  first [ assumption | left; reflexivity
        | right; apply truthy_value_of; assumption ].

Ltac inv_socket H3 :=
  let Hws := fresh in
  intros Hws; try discriminate Hws;
  destruct (H3 Hws) as [? [?|[? ?]]]; subst; try discriminate;
  cbn in *; try discriminate; auto.

Lemma step_Inv (ev : Event) (w : World) :
  Inv w -> Inv (world (step parse throws ev w)).
Proof.
  intros [H1 H2 H3]. unfold heartbeat_list in *.
  destruct w; cbn in *.
  destruct ev; crunch;
    (split; cbn; rewrite ?alter_nil_iff, ?remove_nat_single;
     [ inv_session | try reflexivity | try solve [inv_socket H3] ]).
  all: try (intros _; split; [reflexivity|left; reflexivity]).
  all: exact H2.
Qed.

Lemma run_Inv (evs : list Event) (w : World) :
  Inv w -> Inv (fst (run parse throws evs w)).
Proof.
  revert w. induction evs as [|ev evs IH]; intros w Hw; [exact Hw|].
  cbn [run]. specialize (IH _ (step_Inv ev w Hw)).
  destruct (run parse throws evs (world (step parse throws ev w))).
  exact IH.
Qed.

Lemma reachable_Inv (url : string) (evs : list Event) :
  Inv (fst (run parse throws evs (construct url))).
Proof. apply run_Inv, construct_Inv. Qed.

(** *** After [disconnect] *)

Lemma disconnect_Dead (w : World) :
  Dead (world (disconnect w)).
Proof. destruct w. crunch; split; reflexivity. Qed.

(** A disposed client does nothing any more, whatever happens to it. *)
Lemma step_Dead (ev : Event) (w : World) :
  Dead w ->
  Dead (world (step parse throws ev w)) /\
  trace (step parse throws ev w) = [] /\
  length (sockets (world (step parse throws ev w))) = length (sockets w) /\
  next_timer (world (step parse throws ev w)) = next_timer w.
Proof.
  intros [H1 H2 H3 H4]. destruct w; cbn in *; subst.
  destruct ev; crunch; rewrite ?length_alter;
    (split; [split; reflexivity|auto]).
Qed.

Lemma run_Dead (evs : list Event) (w : World) :
  Dead w ->
  Dead (fst (run parse throws evs w)) /\
  snd (run parse throws evs w) = [] /\
  length (sockets (fst (run parse throws evs w))) = length (sockets w) /\
  next_timer (fst (run parse throws evs w)) = next_timer w.
Proof.
  revert w. induction evs as [|ev evs IH]; intros w Hw; [auto|].
  cbn [run].
  destruct (step_Dead ev w Hw) as (Hd & Ht & Hs & Hn).
  specialize (IH _ Hd).
  destruct (run parse throws evs (world (step parse throws ev w))) as [w' tr].
  cbn in *. destruct IH as (IH1 & IH2 & IH3 & IH4).
  rewrite Ht, IH2, IH3, IH4. auto.
Qed.

(** *** Sending *)

Lemma send_out (frame : json) (w : World) :
  send frame w =
  mkOut (Normal tt) w
    (match ws w with
     | Some id => if current_open w then [ESockSend id frame] else []
     | None => []
     end).
Proof.
  destruct w. crunch; reflexivity.
Qed.

(** C1. Once [disconnect] has been called, the [disposed] flag stays set
    whatever happens next, and from then on the client creates no socket
    and starts no timer: the trace of everything later holds no
    [ENewSocket], [ESetInterval] or [ESetTimeout], the number of sockets
    made and of timers handed out stays what it was, and a later
    [connect()] returns at once, leaving the world as it was. *)
Theorem disconnect_is_terminal (w : World) (evs : list Event) :
  let w1 := world (step parse throws Disconnect w) in
  let w2 := fst (run parse throws evs w1) in
  let tr := snd (run parse throws evs w1) in
  disposed w1 = true /\
  disposed w2 = true /\
  Forall (fun e => starts_resource e = false) tr /\
  length (sockets w2) = length (sockets w1) /\
  next_timer w2 = next_timer w1 /\
  step parse throws Connect w2 = mkOut (Normal tt) w2 [].
Proof.
  intros w1 w2 tr.
  assert (Hd : Dead w1) by apply disconnect_Dead.
  destruct (run_Dead evs w1 Hd) as (Hd2 & Htr & Hs & Hn).
  fold w2 in Hd2, Hs, Hn. fold tr in Htr.
  repeat split.
  - apply Hd.
  - apply Hd2.
  - rewrite Htr. constructor.
  - exact Hs.
  - exact Hn.
  - destruct Hd2 as [Hdis _ _ _]. unfold step, connect. exec.
    rewrite Hdis. reflexivity.
Qed.

Lemma listener_trace_send_ok (w : World) (v : json) (tr : list Effect) :
  listener_trace v tr -> Forall (send_ok w) tr.
Proof.
  intros [H _]. eapply Forall_impl; [exact H|].
  intros []; cbn; tauto.
Qed.

Lemma outbound_heartbeat : outbound_frame heartbeat_frame.
Proof. left. reflexivity. Qed.

Lemma outbound_presence (status : string) : outbound_frame (presence_frame status).
Proof. right. left. eauto. Qed.

Lemma outbound_identify (token : string) : outbound_frame (identify_frame token).
Proof. right. right. left. eauto. Qed.

Lemma outbound_resume (token : string) (sid sq : json) :
  outbound_frame (resume_frame token sid sq).
Proof. right. right. right. eauto. Qed.

Ltac forall_trace lem :=
  repeat first
    [ apply List.Forall_nil
    | apply List.Forall_cons; [cbn; auto|]
    | apply Forall_app; split
    | solve [eapply lem; eassumption] ].

Lemma step_send_ok (ev : Event) (w : World) :
  Forall (send_ok w) (trace (step parse throws ev w)).
Proof.
  destruct w. destruct ev; crunch; forall_trace listener_trace_send_ok.
  all: repeat split;
    auto using outbound_heartbeat, outbound_presence, outbound_identify,
      outbound_resume.
  all: unfold ready_of; cbn;
    match goal with H : _ !! _ = Some _ |- _ => rewrite H end;
    cbn; congruence.
Qed.

Lemma send_ok_closed (w : World) (tr : list Effect) :
  current_open w = false -> Forall (send_ok w) tr -> sent_frames tr = [].
Proof.
  intros Hc H. induction H as [|e tr He _ IH]; [reflexivity|].
  destruct e; cbn; try exact IH.
  destruct He as (Hws & Hr & _). unfold current_open in Hc.
  rewrite Hws, Hr in Hc. discriminate Hc.
Qed.

(** C10. [send] writes the frame to the current socket when there is one
    and its [readyState] is [OPEN]; in every other case it does nothing: it
    returns normally and writes nothing, and in both cases it leaves the
    world as it was.  Every write to a socket goes through it: whatever
    happens to the client, a frame written during that step is one of the
    four outbound frames (Heartbeat, PresenceUpdate, Identify, Resume) and
    is written to the socket that was current and [OPEN] when the step
    began; and a step that begins without an open current socket, such as
    the end of a token fetch after the socket has closed, writes no
    frame. *)
Theorem send_only_on_open_socket :
  (forall (frame : json) (w : World),
     completion (send frame w) = Normal tt /\
     world (send frame w) = w /\
     (forall id, ws w = Some id -> ready_of id w = Some OPEN ->
                 trace (send frame w) = [ESockSend id frame]) /\
     (current_open w = false -> trace (send frame w) = [])) /\
  (forall (ev : Event) (w : World) (id : nat) (f : json),
     In (ESockSend id f) (trace (step parse throws ev w)) ->
     ws w = Some id /\ ready_of id w = Some OPEN /\ outbound_frame f) /\
  (forall (ev : Event) (w : World),
     current_open w = false ->
     sent_frames (trace (step parse throws ev w)) = []).
Proof.
  split; [|split].
  - intros frame w. rewrite send_out. cbn. repeat split.
    + intros id Hws Hr. unfold current_open. rewrite Hws, Hr. reflexivity.
    + intros ->. destruct (ws w); reflexivity.
  - intros ev w id f HIn.
    exact (proj1 (List.Forall_forall _ _) (step_send_ok ev w) _ HIn).
  - intros ev w Hc. apply (send_ok_closed w); [exact Hc|apply step_send_ok].
Qed.

(** *** Incoming messages *)

(** [isFrame] accepts exactly the values with a numeric [op] property. *)
Lemma isFrame_numeric_op (v : json) :
  isFrame (Some v) = is_number (field "op" v).
Proof.
  destruct v; try reflexivity.
  unfold isFrame, has_key, field_of, field. cbn.
  destruct (assoc "op" fields) as [[]|]; reflexivity.
Qed.

(** C7. A transport message whose payload does not parse, or parses to a
    value without a numeric [op] property, is dropped: the message handler
    returns normally, the world (session id, sequence number, flags,
    listeners, timers, sockets) is what it was, and the only thing that may
    have happened is one [console.warn]: no subscriber is called, nothing
    is written to or closed on a socket.  The same holds of the [onmessage]
    callback of any socket. *)
Theorem malformed_message_dropped (w : World) (raw : string) :
  (parse raw = None \/
   exists v, parse raw = Some v /\ is_number (field "op" v) = false) ->
  (completion (handleMessage parse throws raw w) = Normal tt /\
   world (handleMessage parse throws raw w) = w /\
   (trace (handleMessage parse throws raw w) = [] \/
    trace (handleMessage parse throws raw w) = [EConsoleWarn])) /\
  (forall id,
     completion (step parse throws (SockMessage id raw) w) = Normal tt /\
     world (step parse throws (SockMessage id raw) w) = w /\
     (trace (step parse throws (SockMessage id raw) w) = [] \/
      trace (step parse throws (SockMessage id raw) w) = [EConsoleWarn])).
Proof.
  intros H.
  assert (Hm : completion (handleMessage parse throws raw w) = Normal tt /\
               world (handleMessage parse throws raw w) = w /\
               (trace (handleMessage parse throws raw w) = [] \/
                trace (handleMessage parse throws raw w) = [EConsoleWarn])).
  { unfold handleMessage. mcbn. destruct (disposed w); [cbn; auto|].
    destruct H as [->|(v & -> & Hv)]; [cbn; auto|].
    rewrite isFrame_numeric_op, Hv. cbn. auto. }
  split; [exact Hm|].
  intros id. unfold step. mcbn.
  destruct (is_wired id w); cbn; [|auto].
  destruct (handleMessage parse throws raw w) as [c w' tr]; cbn in *.
  destruct Hm as (-> & -> & Htr). auto.
Qed.

Lemma not_nullish_value (v : json) :
  v <> JNull -> not_nullish (Some v) = true.
Proof. destruct v; cbn; congruence. Qed.

Lemma listener_trace_seen (v : json) (tr : list Effect) :
  listener_trace v tr -> Forall (seen_is v) tr.
Proof. intros [_ H]. exact H. Qed.

Lemma handleDispatch_seq (frame : Frame) (w : World) (v : json) :
  s frame = Some v -> v <> JNull ->
  seq (world (handleDispatch throws frame w)) = v /\
  Forall (seen_is v) (trace (handleDispatch throws frame w)).
Proof.
  intros Hs Hv. unfold handleDispatch.
  rewrite Hs, (not_nullish_value v Hv).
  destruct w. crunch; (split; [reflexivity|]);
    forall_trace listener_trace_seen.
Qed.

Lemma dispatch_is_not_hello (q : Q) :
  Qeq_bool q OP_DISPATCH = true -> Qeq_bool q OP_HELLO = false.
Proof.
  intros H. apply Qeq_bool_eq in H.
  destruct (Qeq_bool q OP_HELLO) eqn:E; [|reflexivity].
  apply Qeq_bool_eq in E. rewrite H in E. discriminate E.
Qed.

(** C9. A dispatch frame that carries a sequence number [v] other than
    [null] sets [seq] to [v] before any subscriber is called: whatever its
    event type [t] is, known to the client or not, every subscriber called
    while the frame is handled runs with [seq = v], and [seq] is [v] when
    the handler is left (also when a subscriber threw).  This holds of
    [handleDispatch] and of the [onmessage] callback that routes the frame
    to it. *)
Theorem dispatch_updates_seq_before_emit
    (w : World) (frame : Frame) (v : json) :
  s frame = Some v ->
  v <> JNull ->
  (seq (world (handleDispatch throws frame w)) = v /\
   Forall (seen_is v) (trace (handleDispatch throws frame w))) /\
  (forall (id : nat) (raw : string) (j : json),
     is_wired id w = true ->
     disposed w = false ->
     parse raw = Some j ->
     isFrame (Some j) = true ->
     as_frame j = frame ->
     Qeq_bool (op frame) OP_DISPATCH = true ->
     seq (world (step parse throws (SockMessage id raw) w)) = v /\
     Forall (seen_is v) (trace (step parse throws (SockMessage id raw) w))).
Proof.
  intros Hs Hv.
  pose proof (handleDispatch_seq frame w v Hs Hv) as Hd.
  split; [exact Hd|].
  intros id raw j Hwired Hdisp Hparse Hframe <- Hop.
  unfold step. mcbn. rewrite Hwired. cbn.
  unfold handleMessage. mcbn. rewrite Hdisp, Hparse, Hframe. cbn.
  rewrite (dispatch_is_not_hello _ Hop), Hop.
  destruct (handleDispatch throws (as_frame j) w) as [c w' tr].
  exact Hd.
Qed.

(** *** The Hello handler after the token fetch *)

Lemma is_null_false (v : json) : is_null v = false <-> v <> JNull.
Proof. destruct v; cbn; split; congruence. Qed.

Lemma no_token_nonempty (tok : string) :
  tok <> "" -> no_token (Some tok) = false.
Proof.
  intros H. cbn. destruct (String.eqb_spec tok ""); congruence.
Qed.

Lemma handleHello_resume_sent (data : HelloData) (tok : string) (w : World) :
  disposed w = false ->
  tok <> "" ->
  sent_frames (trace (handleHello_resume data (Some tok) w)) =
  if current_open w then [hello_frame tok w] else [].
Proof.
  intros Hd Htok. unfold hello_frame, current_open, ready_of.
  unfold handleHello_resume. rewrite (no_token_nonempty tok Htok).
  destruct w; cbn in Hd; subst. crunch; reflexivity.
Qed.

Lemma step_TokenResolved (k : nat) (token : option string) (data : HelloData)
    (w : World) :
  pending k w = Some data ->
  trace (step parse throws (TokenResolved k token) w) =
  trace (handleHello_resume data token (settle k w)).
Proof.
  intros Hp. unfold step. mcbn. rewrite Hp. mcbn.
  destruct (handleHello_resume data token (settle k w)). reflexivity.
Qed.

(** C2, as the code has it.  When the token fetch of a Hello comes back
    with a token on a client that is not disposed, and the current socket
    is open at that moment, exactly one frame is sent: a Resume carrying
    the stored session id and the last sequence number if and only if both
    are not [null] when the fetch completes (not when the Hello arrived),
    and an Identify otherwise.  If the current socket is not open at that
    moment, nothing is sent. *)
Theorem hello_resume_iff_session_and_seq
    (url : string) (evs : list Event) (k : nat) (data : HelloData)
    (tok : string) :
  let w := fst (run parse throws evs (construct url)) in
  let sent := sent_frames (trace (step parse throws (TokenResolved k (Some tok)) w)) in
  disposed w = false ->
  pending k w = Some data ->
  tok <> "" ->
  (current_open w = true ->
   ((exists f, In f sent /\ field "op" f = Some (JNum OP_RESUME)) <->
    (sessionId w <> JNull /\ seq w <> JNull)) /\
   (sessionId w <> JNull /\ seq w <> JNull ->
    sent = [resume_frame tok (sessionId w) (seq w)]) /\
   (~ (sessionId w <> JNull /\ seq w <> JNull) ->
    sent = [identify_frame tok])) /\
  (current_open w = false -> sent = []).
Proof.
  intros w sent Hd Hp Htok.
  pose proof (reachable_Inv url evs) as HI. fold w in HI.
  assert (Hsent : sent = if current_open w then [hello_frame tok w] else []).
  { unfold sent. rewrite (step_TokenResolved k (Some tok) data w Hp).
    rewrite (handleHello_resume_sent data tok (settle k w)); [|exact Hd|exact Htok].
    reflexivity. }
  assert (Hchoice :
    truthy (sessionId w) && negb (is_null (seq w)) = true <->
    (sessionId w <> JNull /\ seq w <> JNull)).
  { rewrite andb_true_iff, negb_true_iff, is_null_false.
    destruct HI as [[Hs|Hs] _ _]; split; intros [H1 H2].
    - rewrite Hs in H1. discriminate H1.
    - contradiction.
    - split; [|exact H2]. intros E. rewrite E in Hs. discriminate Hs.
    - split; assumption. }
  split.
  - intros Hopen. rewrite Hopen in Hsent. unfold hello_frame in Hsent.
    destruct (truthy (sessionId w) && negb (is_null (seq w))) eqn:E.
    + assert (Hb : sessionId w <> JNull /\ seq w <> JNull)
        by (apply Hchoice; reflexivity).
      rewrite Hsent. split; [split|split].
      * intros _. exact Hb.
      * intros _. exists (resume_frame tok (sessionId w) (seq w)).
        split; [left; reflexivity|reflexivity].
      * intros _. reflexivity.
      * intros Hn. contradiction.
    + assert (Hb : ~ (sessionId w <> JNull /\ seq w <> JNull)).
      { intros Hb. apply Hchoice in Hb. discriminate Hb. }
      rewrite Hsent. split; [split|split].
      * intros (f & [<-|[]] & Hf). cbn in Hf. discriminate Hf.
      * intros Hb'. contradiction.
      * intros Hb'. contradiction.
      * intros _. reflexivity.
  - intros Hclosed. rewrite Hclosed in Hsent. exact Hsent.
Qed.

(** *** The heartbeat tick *)


(** *** Reconnect delays *)

Lemma default_base_values (n : nat) :
  exists h : Z,
    (0 < h)%Z /\
    Z.min (1000 * 2 ^ Z.of_nat n) MAX_BACKOFF_MS = (2 * h)%Z.
Proof.
  unfold MAX_BACKOFF_MS.
  destruct (Z.le_ge_cases (1000 * 2 ^ Z.of_nat n) 30000) as [H|H].
  - rewrite Z.min_l by exact H.
    exists (500 * 2 ^ Z.of_nat n)%Z. split; [|ring].
    assert (0 < 2 ^ Z.of_nat n)%Z by (apply Z.pow_pos_nonneg; lia). lia.
  - rewrite Z.min_r by exact H. exists 15000%Z. split; [lia|reflexivity].
Qed.

Lemma double_le_exact (x : Q) (z : Z) :
  (Z.abs z <= 2 ^ 53)%Z ->
  (x <= inject_Z z / 2)%Q -> (to_double x <= inject_Z z / 2)%Q.
Proof.
  intros Hz H. rewrite <- (to_double_exact z Hz). apply to_double_monotone. exact H.
Qed.

Lemma double_ge_exact (x : Q) (z : Z) :
  (Z.abs z <= 2 ^ 53)%Z ->
  (inject_Z z / 2 <= x)%Q -> (inject_Z z / 2 <= to_double x)%Q.
Proof.
  intros Hz H. rewrite <- (to_double_exact z Hz). apply to_double_monotone. exact H.
Qed.

(** The jittered delay around an even base [2h] stays within [h, 3h]: the
    bounds are doubles, and rounding is monotone, so none of the three
    roundings can step over them. *)
Lemma jitter_bounds (h : Z) (random : Q) :
  (0 <= h <= 2 ^ 50)%Z -> (0 <= random)%Q -> (random < 1)%Q ->
  (h <= Math_round
          (to_double (inject_Z (2 * h) +
                      to_double (to_double (random - (1 # 2)) * inject_Z (2 * h))))
     <= 3 * h)%Z.
Proof.
  intros Hh H0 H1.
  assert (Hb : (inject_Z 0 <= inject_Z h)%Q) by (rewrite <- Zle_Qle; lia).
  change (inject_Z 0) with 0%Q in Hb.
  assert (E2 : (inject_Z (2 * h) == 2 * inject_Z h)%Q).
  { rewrite inject_Z_mult. reflexivity. }
  assert (P50 : (2 ^ 53 = 8 * 2 ^ 50)%Z) by reflexivity.
  set (j := to_double (random - (1 # 2))).
  assert (Hj : (- (1 # 2) <= j)%Q /\ (j <= 1 # 2)%Q).
  { split.
    - assert (T := double_ge_exact (random - (1 # 2)) (-1)).
      change (inject_Z (-1) / 2)%Q with (- (1 # 2))%Q in T.
      apply T; [cbn; lia|lra].
    - assert (T := double_le_exact (random - (1 # 2)) 1).
      change (inject_Z 1 / 2)%Q with (1 # 2)%Q in T.
      apply T; [cbn; lia|lra]. }
  destruct Hj as [Hj1 Hj2].
  set (p := to_double (j * inject_Z (2 * h))).
  assert (Hp : (- inject_Z h <= p)%Q /\ (p <= inject_Z h)%Q).
  { split.
    - assert (T := double_ge_exact (j * inject_Z (2 * h)) (- (2 * h))).
      assert (E : (inject_Z (- (2 * h)) / 2 == - inject_Z h)%Q).
      { rewrite inject_Z_opp, E2. field. }
      rewrite E in T. apply T; [lia|]. rewrite E2.
      assert ((- (1 # 2)) * (2 * inject_Z h) <= j * (2 * inject_Z h))%Q
        by (apply Qmult_le_compat_r; lra).
      lra.
    - assert (T := double_le_exact (j * inject_Z (2 * h)) (2 * h)).
      assert (E : (inject_Z (2 * h) / 2 == inject_Z h)%Q).
      { rewrite E2. field. }
      rewrite E in T. apply T; [lia|]. rewrite E2.
      assert (j * (2 * inject_Z h) <= (1 # 2) * (2 * inject_Z h))%Q
        by (apply Qmult_le_compat_r; lra).
      lra. }
  destruct Hp as [Hp1 Hp2].
  set (x := to_double (inject_Z (2 * h) + p)).
  assert (Hx : (inject_Z h <= x)%Q /\ (x <= inject_Z (3 * h))%Q).
  { split.
    - assert (T := double_ge_exact (inject_Z (2 * h) + p) (2 * h)).
      assert (E : (inject_Z (2 * h) / 2 == inject_Z h)%Q).
      { rewrite E2. field. }
      rewrite E in T. apply T; [lia|]. rewrite E2. lra.
    - assert (T := double_le_exact (inject_Z (2 * h) + p) (2 * (3 * h))).
      assert (E : (inject_Z (2 * (3 * h)) / 2 == inject_Z (3 * h))%Q).
      { rewrite (inject_Z_mult 2). field. }
      rewrite E in T. apply T; [lia|]. rewrite E2, inject_Z_mult.
      change (inject_Z 3) with 3%Q. lra. }
  destruct Hx as [Hx1 Hx2]. unfold Math_round.
  split.
  - rewrite <- (Qfloor_Z h). apply Qfloor_resp_le. lra.
  - assert (Qfloor (x + (1 # 2)) < 3 * h + 1)%Z; [|lia].
    rewrite Zlt_Qlt.
    apply Qle_lt_trans with (x + (1 # 2))%Q; [apply Qfloor_le|].
    rewrite inject_Z_plus. change (inject_Z 1) with 1%Q. lra.
Qed.

Lemma scheduleReconnect_trace (delayMs : option Z) (random : Q) (w : World) :
  disposed w = false ->
  exists pre,
    trace (scheduleReconnect delayMs random w) =
      pre ++ [ESetTimeout (next_timer w)
                (backoff_delay delayMs (reconnectAttempts w) random)] /\
    Forall (fun e => starts_resource e = false) pre /\
    reconnectTimer (world (scheduleReconnect delayMs random w)) =
      Some (next_timer w) /\
    reconnectAttempts (world (scheduleReconnect delayMs random w)) =
      S (reconnectAttempts w).
Proof.
  intros Hd. destruct w; cbn in Hd; subst. unfold scheduleReconnect.
  crunch.
  - exists [EClearTimeout n]. repeat split. repeat constructor.
  - exists []. repeat split. constructor.
Qed.

(** C6. A reconnect scheduled at the default backoff with attempt count
    [n], for any value of [Math.random()] in [0, 1), is a timeout whose
    delay, as [scheduleReconnect] computes it in double arithmetic and
    rounds it with [Math.round], lies between 0.5 and 1.5 times
    [min(1000 * 2^n, 30000)] milliseconds. *)
Theorem default_backoff_bounds (w : World) (random : Q) :
  disposed w = false ->
  (0 <= random)%Q -> (random < 1)%Q ->
  let base := Z.min (1000 * 2 ^ Z.of_nat (reconnectAttempts w)) 30000%Z in
  exists pre delay,
    trace (scheduleReconnect None random w) =
      pre ++ [ESetTimeout (next_timer w) delay] /\
    Forall (fun e => starts_resource e = false) pre /\
    delay = backoff_delay None (reconnectAttempts w) random /\
    ((1 # 2) * inject_Z base <= inject_Z delay)%Q /\
    (inject_Z delay <= (3 # 2) * inject_Z base)%Q.
Proof.
  intros Hd H0 H1 base.
  destruct (scheduleReconnect_trace None random w Hd) as (pre & Htr & Hpre & _).
  exists pre, (backoff_delay None (reconnectAttempts w) random).
  split; [exact Htr|]. split; [exact Hpre|]. split; [reflexivity|].
  destruct (default_base_values (reconnectAttempts w)) as (h & Hh & Hbase).
  assert (Hcap : (2 * h <= 30000)%Z).
  { rewrite <- Hbase. apply Z.le_min_r. }
  assert (H50 : (30000 <= 2 ^ 50)%Z) by (vm_compute; discriminate).
  unfold backoff_delay, backoff_base. subst base.
  change 30000%Z with MAX_BACKOFF_MS. rewrite Hbase.
  pose proof (jitter_bounds h random ltac:(lia) H0 H1) as [Hlo Hhi].
  rewrite Zle_Qle in Hlo, Hhi.
  set (m := inject_Z (Math_round _)) in *.
  rewrite inject_Z_mult in Hhi. rewrite inject_Z_mult.
  change (inject_Z 2) with 2%Q. change (inject_Z 3) with 3%Q in Hhi.
  split; lra.
Qed.

Lemma started_app (tr1 tr2 : list Effect) :
  started (tr1 ++ tr2) = started tr1 ++ started tr2.
Proof. apply List.filter_app. Qed.

Lemma started_cons (e : Effect) (tr : list Effect) :
  started (e :: tr) = (if starts_resource e then [e] else []) ++ started tr.
Proof. unfold started. cbn. destruct (starts_resource e); reflexivity. Qed.

Arguments started : simpl never.

Lemma listener_trace_started (v : json) (tr : list Effect) :
  listener_trace v tr -> started tr = [].
Proof.
  intros [H _]. unfold started.
  induction H as [|e tr He _ IH]; [reflexivity|].
  cbn. destruct e; cbn in *; try contradiction; exact IH.
Qed.

Ltac started_calc Htr :=
  repeat first
    [ rewrite started_app
    | rewrite started_cons
    | rewrite (listener_trace_started _ _ Htr) ];
  cbn; try reflexivity.

Lemma is_wired_closed (id : nat) (w : World) :
  is_wired id (update_socket id (set_ready CLOSED) w) = is_wired id w.
Proof.
  unfold is_wired, update_socket. cbn. rewrite list_lookup_alter_eq.
  destruct (sockets w !! id); reflexivity.
Qed.

(** C4, as the code has it.  When the current socket of a client that is
    not disposed closes with code 4008 and the close was not intentional,
    then, once the subscribers of [close] have returned, exactly one timer
    is started: the reconnect timeout.  Its delay is the rate-limit wait of
    60000 ms put through the same jitter as every other reconnect delay:
    [Math.round(60000 + (random - 0.5) * 60000)] in double arithmetic,
    between 30000 and 90000 ms.  The reconnect attempt count plays no
    part in it. *)
Theorem rate_limited_close_schedules_jittered_wait
    (w : World) (id : nat) (reason : string) (random : Q) :
  disposed w = false ->
  ws w = Some id ->
  is_wired id w = true ->
  intentionalClose w = false ->
  (0 <= random)%Q -> (random < 1)%Q ->
  completion (step parse throws (SockClose id CLOSE_RATE_LIMITED reason random) w)
    = Normal tt ->
  let o := step parse throws (SockClose id CLOSE_RATE_LIMITED reason random) w in
  let wait := inject_Z RATE_LIMIT_WAIT_MS in
  let delay :=
    Math_round (to_double (wait + to_double (to_double (random - (1 # 2)) * wait))) in
  started (trace o) = [ESetTimeout (next_timer w) delay] /\
  reconnectTimer (world o) = Some (next_timer w) /\
  (forall n, backoff_delay (Some RATE_LIMIT_WAIT_MS) n random = delay) /\
  (30000 <= delay <= 90000)%Z.
Proof.
  intros Hd Hws Hwired Hint H0 H1 Hc o wait delay.
  assert (Hdelay : forall n, backoff_delay (Some RATE_LIMIT_WAIT_MS) n random = delay).
  { intros n. reflexivity. }
  assert (Hbounds : (30000 <= delay <= 90000)%Z).
  { apply (jitter_bounds 30000 random); [split; [lia|vm_compute; discriminate]|exact H0|exact H1]. }
  split; [|split; [|split; [exact Hdelay|exact Hbounds]]].
  - subst o. revert Hc. rewrite <- (Hdelay (reconnectAttempts w)).
    clear Hdelay Hbounds delay wait.
    unfold step. mcbn. rewrite is_wired_closed, Hwired. cbn. clear Hwired.
    destruct w; cbn in *; subst.
    crunch; try discriminate; intros _; started_calc Htr.
  - subst o. revert Hc.
    unfold step. mcbn. rewrite is_wired_closed, Hwired. cbn.
    clear Hwired Hdelay Hbounds delay wait.
    destruct w; cbn in *; subst.
    crunch; try discriminate; reflexivity.
Qed.

(** *** Hello: the token is fetched first *)

Lemma pending_new (data : HelloData) (w : World) :
  pending (length (fetches w)) (set_fetches (fetches w ++ [Some data]) w) =
  Some data.
Proof.
  unfold pending. cbn.
  rewrite (list_lookup_middle (fetches w) [] (Some data) (length (fetches w)) eq_refl).
  reflexivity.
Qed.

(** C3, as the code has it.  On a Hello frame with a valid heartbeat
    interval, the Hello handler first asks the accessor for the token, and
    suspends there: at that point no timer has been started and the
    heartbeat timer is what it was.  The heartbeat is started only when the
    token fetch has completed, and only if the client is not disposed then:
    in that case exactly one timer is started, the heartbeat interval with
    the interval of the Hello; if the client was disposed in the meantime,
    nothing at all is done. *)
Theorem heartbeat_starts_after_token_fetch
    (w : World) (id : nat) (raw : string) (j : json) :
  is_wired id w = true ->
  disposed w = false ->
  parse raw = Some j ->
  isFrame (Some j) = true ->
  Qeq_bool (op (as_frame j)) OP_HELLO = true ->
  isHelloData (d (as_frame j)) = true ->
  let o := step parse throws (SockMessage id raw) w in
  let k := length (fetches w) in
  let data := as_hello (d (as_frame j)) in
  (trace o = [EGetToken k] /\
   heartbeatTimer (world o) = heartbeatTimer w /\
   intervals (world o) = intervals w /\
   pending k (world o) = Some data) /\
  (forall (w' : World) (token : option string),
     pending k w' = Some data ->
     let o' := step parse throws (TokenResolved k token) w' in
     (disposed w' = false ->
      started (trace o') =
        [ESetInterval (next_timer w') (heartbeat_interval data)] /\
      heartbeatTimer (world o') = Some (next_timer w')) /\
     (disposed w' = true ->
      trace o' = [] /\
      heartbeatTimer (world o') = heartbeatTimer w' /\
      intervals (world o') = intervals w')).
Proof.
  intros Hwired Hdisp Hparse Hframe Hop Hhello o k data.
  split.
  - subst o. unfold step. mcbn. rewrite Hwired. cbn.
    unfold handleMessage. mcbn. rewrite Hdisp, Hparse, Hframe. cbn.
    rewrite Hop, Hhello. unfold handleHello_begin. mcbn.
    repeat split. apply pending_new.
  - intros w' token Hp o'. subst o'.
    unfold step. mcbn. rewrite Hp. mcbn.
    split; intros Hd.
    + clear Hp. destruct w'; cbn in Hd; subst.
      crunch; (split; [started_calc I|reflexivity]).
    + clear Hp. destruct w'; cbn in Hd; subst. crunch. repeat split.
Qed.

(** *** Subscribers that throw *)

Lemma invoke_guarded (data : option json) (h : EventHandler) (w : World) :
  (forall n, h = RawHandler n -> throws n data = false) ->
  exists tr,
    invoke throws data h w = mkOut (Normal tt) w tr /\
    invoked tr = [h] /\ listener_trace (seq w) tr.
Proof.
  intros H. destruct h as [n|n]; unfold invoke, call_callback; exec.
  - rewrite (H n eq_refl). cbn. eexists. repeat split; repeat constructor.
  - destruct (throws n data); cbn; eexists; repeat split; repeat constructor.
Qed.

Lemma invoked_app (tr1 tr2 : list Effect) :
  invoked (tr1 ++ tr2) = invoked tr1 ++ invoked tr2.
Proof.
  induction tr1 as [|e tr1 IH]; [reflexivity|].
  destruct e; cbn; rewrite ?IH; reflexivity.
Qed.

Lemma for_each_invoke_guarded (data : option json) (hs : list EventHandler)
    (w : World) :
  (forall n, In (RawHandler n) hs -> throws n data = false) ->
  exists tr,
    for_each (invoke throws data) hs w = mkOut (Normal tt) w tr /\
    invoked tr = hs /\ listener_trace (seq w) tr.
Proof.
  induction hs as [|h hs IH]; intros H.
  - exists []. repeat split; constructor.
  - cbn [for_each]. unfold bind.
    destruct (invoke_guarded data h w) as (tr & -> & Hi & Htr).
    { intros n ->. apply H. left. reflexivity. }
    destruct IH as (tr' & -> & Hi' & Htr').
    { intros n Hn. apply H. right. exact Hn. }
    exists (tr ++ tr'). split; [reflexivity|]. split.
    + rewrite invoked_app, Hi, Hi'. reflexivity.
    + now apply listener_trace_app.
Qed.

Lemma emit_guarded (event : string) (data : option json) (w : World) :
  guarded throws w ->
  exists tr,
    emit throws event data w = mkOut (Normal tt) w tr /\
    invoked tr =
      match assoc event (listeners w) with
      | Some r => members r w
      | None => []
      end /\
    listener_trace (seq w) tr.
Proof.
  intros H. unfold emit. mcbn.
  destruct (assoc event (listeners w)) as [r|]; cbn.
  - destruct (for_each_invoke_guarded data (members r w) w) as (tr & -> & Hi & Htr).
    { intros n. apply H. }
    exists tr. auto.
  - exists []. repeat split; constructor.
Qed.




(** *** The transport address *)

Lemma string_app_nil_r (x : string) : (x ++ "")%string = x.
Proof. induction x as [|c x IH]; cbn; [reflexivity|]. rewrite IH. reflexivity. Qed.

Lemma string_app_assoc (x y z : string) :
  ((x ++ y) ++ z)%string = (x ++ (y ++ z))%string.
Proof. induction x as [|c x IH]; cbn; [reflexivity|]. rewrite IH. reflexivity. Qed.

Lemma string_rev_app (x y : string) :
  string_rev (x ++ y) = (string_rev y ++ string_rev x)%string.
Proof.
  induction x as [|c x IH]; cbn.
  - rewrite string_app_nil_r. reflexivity.
  - rewrite IH, string_app_assoc. reflexivity.
Qed.

Lemma string_rev_involutive (x : string) : string_rev (string_rev x) = x.
Proof.
  induction x as [|c x IH]; cbn; [reflexivity|].
  rewrite string_rev_app, IH. reflexivity.
Qed.

Lemma drop_slashes_cons (c : ascii) (x : string) :
  drop_slashes (String c x) =
  if Ascii.eqb c "/" then drop_slashes x else String c x.
Proof.
  destruct c as [[] [] [] [] [] [] [] []]; reflexivity.
Qed.

Lemma strip_trailing_slash (x : string) :
  strip_trailing_slashes (x ++ "/") = strip_trailing_slashes x.
Proof.
  unfold strip_trailing_slashes. rewrite string_rev_app. reflexivity.
Qed.

Lemma drop_slashes_before (c : ascii) (y z : string) :
  c <> "/"%char ->
  drop_slashes (y ++ String c z) = (drop_slashes y ++ String c z)%string.
Proof.
  intros Hc. induction y as [|e y IH].
  - change (drop_slashes (String c z) = String c z).
    rewrite drop_slashes_cons.
    destruct (Ascii.eqb_spec c "/"); [contradiction|reflexivity].
  - change (String e y ++ String c z)%string with (String e (y ++ String c z)).
    rewrite !drop_slashes_cons. destruct (Ascii.eqb e "/"); [exact IH|reflexivity].
Qed.

(** Stripping only looks at what follows the last character that is not a
    slash. *)
Lemma strip_after (a : string) (c : ascii) (x : string) :
  c <> "/"%char ->
  strip_trailing_slashes (a ++ String c x) =
  (a ++ String c (strip_trailing_slashes x))%string.
Proof.
  intros Hc. unfold strip_trailing_slashes.
  change (String c x) with (String c "" ++ x)%string.
  rewrite !string_rev_app. cbn [string_rev append].
  rewrite string_app_assoc. cbn [append].
  rewrite (drop_slashes_before c (string_rev x) (string_rev a) Hc).
  rewrite string_rev_app. cbn [string_rev].
  rewrite string_rev_involutive, string_app_assoc. reflexivity.
Qed.

Lemma substring_full (x : string) : String.substring 0 (String.length x) x = x.
Proof. induction x as [|c x IH]; cbn; [reflexivity|]. rewrite IH. reflexivity. Qed.

Lemma drop_slashes_suffix (y : string) :
  exists t : string, y = (t ++ drop_slashes y)%string.
Proof.
  induction y as [|e y (t & IH)].
  - exists "". reflexivity.
  - rewrite drop_slashes_cons. destruct (Ascii.eqb e "/").
    + exists (String e t). cbn. rewrite <- IH. reflexivity.
    + exists "". reflexivity.
Qed.

Lemma strip_is_prefix (x : string) :
  exists t : string, x = (strip_trailing_slashes x ++ t)%string.
Proof.
  unfold strip_trailing_slashes.
  destruct (drop_slashes_suffix (string_rev x)) as (t & Ht).
  exists (string_rev t).
  rewrite <- string_rev_app, <- Ht, string_rev_involutive. reflexivity.
Qed.

Lemma prefix_app (p a t : string) :
  String.prefix p a = true -> String.prefix p (a ++ t) = true.
Proof.
  revert a. induction p as [|c p IH]; intros a H;
    [destruct (a ++ t)%string; reflexivity|].
  destruct a as [|d a]; cbn in *; [discriminate H|].
  destruct (ascii_dec c d); [apply IH; exact H|discriminate H].
Qed.

(** X1. [deriveWsUrl] maps the scheme and nothing else: a base address
    that starts with [http] (so also [https]) has these four characters
    replaced by [ws], any other base address keeps its beginning; in both
    cases the trailing slashes are removed and the gateway path is
    appended. *)
Theorem deriveWsUrl_scheme :
  (forall rest : string,
     deriveWsUrl ("http" ++ rest) =
     ("ws" ++ strip_trailing_slashes rest ++ "/api/v1/gateway")%string) /\
  (forall url : string,
     String.prefix "http" url = false ->
     deriveWsUrl url = (strip_trailing_slashes url ++ "/api/v1/gateway")%string).
Proof.
  split.
  - intros rest. unfold deriveWsUrl.
    change ("http" ++ rest)%string with ("htt" ++ String "p" rest)%string.
    rewrite strip_after by (intros E; discriminate E).
    generalize (strip_trailing_slashes rest). intros r.
    unfold http_to_ws.
    assert (Hp : String.prefix "http" ("htt" ++ String "p" r) = true)
      by (cbn; destruct r; reflexivity).
    rewrite Hp.
    change (String.length ("htt" ++ String "p" r) - 4)
      with (String.length r - 0).
    rewrite Nat.sub_0_r.
    change (String.substring 4 (String.length r) ("htt" ++ String "p" r))
      with (String.substring 0 (String.length r) r).
    rewrite substring_full. reflexivity.
  - intros url H. unfold deriveWsUrl, http_to_ws.
    destruct (String.prefix "http" (strip_trailing_slashes url)) eqn:E;
      [|reflexivity].
    destruct (strip_is_prefix url) as (t & Ht).
    rewrite Ht in H. rewrite (prefix_app _ _ t E) in H. discriminate H.
Qed.

(** X2. Trailing slashes of the base address do not matter: adding one
    gives the same transport address, and the base address is cut at its
    last character that is not a slash. *)
Theorem deriveWsUrl_trailing_slashes (url : string) :
  deriveWsUrl (url ++ "/") = deriveWsUrl url /\
  strip_trailing_slashes (strip_trailing_slashes url) =
  strip_trailing_slashes url.
Proof.
  split.
  - unfold deriveWsUrl. rewrite strip_trailing_slash. reflexivity.
  - unfold strip_trailing_slashes. rewrite string_rev_involutive.
    f_equal. generalize (string_rev url). intros y.
    induction y as [|e y IH]; [reflexivity|].
    rewrite drop_slashes_cons. destruct (Ascii.eqb e "/") eqn:E; [exact IH|].
    rewrite drop_slashes_cons, E. reflexivity.
Qed.

(** *** The listener registry *)

Lemma handler_eqb_spec (a b : EventHandler) :
  reflect (a = b) (handler_eqb a b).
Proof.
  destruct a as [x|x], b as [y|y]; cbn;
    try (constructor; intros E; discriminate E);
    destruct (Nat.eqb_spec x y); constructor; congruence.
Qed.

Lemma set_add_In (h h' : EventHandler) (l : list EventHandler) :
  In h' (set_add h l) <-> h' = h \/ In h' l.
Proof.
  unfold set_add. destruct (existsb (handler_eqb h) l) eqn:E.
  - split; [auto|]. intros [->|H]; [|exact H].
    apply existsb_exists in E. destruct E as (x & Hx & Hh).
    destruct (handler_eqb_spec h x); [subst; exact Hx|discriminate Hh].
  - rewrite in_app_iff. cbn. intuition.
Qed.

Lemma set_add_NoDup (h : EventHandler) (l : list EventHandler) :
  List.NoDup l -> List.NoDup (set_add h l).
Proof.
  intros H. unfold set_add. destruct (existsb (handler_eqb h) l) eqn:E; [exact H|].
  apply List.NoDup_app; [exact H|repeat constructor; intros []|].
  intros x Hx [Ex|[]]. subst x.
  assert (existsb (handler_eqb h) l = true); [|congruence].
  apply existsb_exists. exists h. split; [exact Hx|].
  destruct (handler_eqb_spec h h); congruence.
Qed.

Lemma set_add_nonempty (h : EventHandler) (l : list EventHandler) :
  set_add h l <> [].
Proof.
  intros E. assert (H : In h (set_add h l)) by (apply set_add_In; auto).
  rewrite E in H. exact H.
Qed.

Lemma set_delete_In (h h' : EventHandler) (l : list EventHandler) :
  In h' (set_delete h l) <-> h' <> h /\ In h' l.
Proof.
  unfold set_delete. rewrite filter_In.
  destruct (handler_eqb_spec h h'); cbn; split; intros [H1 H2]; split;
    try congruence; auto.
Qed.

Lemma set_delete_NoDup (h : EventHandler) (l : list EventHandler) :
  List.NoDup l -> List.NoDup (set_delete h l).
Proof. intros H. unfold set_delete. apply List.NoDup_filter. exact H. Qed.

Lemma set_delete_add (h : EventHandler) (l : list EventHandler) :
  ~ In h l -> set_delete h (set_add h l) = l.
Proof.
  intros H.
  assert (Hd : forall l', ~ In h l' -> set_delete h l' = l').
  { induction l' as [|x l' IH]; intros Hn; [reflexivity|].
    unfold set_delete in *. cbn.
    destruct (handler_eqb_spec h x) as [->|Hx]; cbn.
    - exfalso. apply Hn. left. reflexivity.
    - rewrite IH; [reflexivity|]. intros Hi. apply Hn. right. exact Hi. }
  unfold set_add. destruct (existsb (handler_eqb h) l) eqn:E; [apply Hd, H|].
  unfold set_delete. rewrite List.filter_app. cbn.
  destruct (handler_eqb_spec h h); [|congruence]. cbn.
  rewrite app_nil_r. apply Hd, H.
Qed.

Lemma assoc_In {A : Type} (k : string) (v : A) (l : list (string * A)) :
  assoc k l = Some v -> In (k, v) l.
Proof.
  induction l as [|[k' v'] l IH]; cbn; [discriminate|].
  destruct (String.eqb_spec k k') as [->|Hk].
  - intros E. injection E as ->. left. reflexivity.
  - intros E. right. apply IH, E.
Qed.

Lemma assoc_None_notin {A : Type} (k : string) (l : list (string * A)) :
  assoc k l = None -> ~ In k (map fst l).
Proof.
  induction l as [|[k' v'] l IH]; cbn; [tauto|].
  destruct (String.eqb_spec k k') as [->|Hk]; [discriminate|].
  intros E [H|H]; [congruence|]. exact (IH E H).
Qed.

Lemma In_assoc {A : Type} (k : string) (v : A) (l : list (string * A)) :
  List.NoDup (map fst l) -> In (k, v) l -> assoc k l = Some v.
Proof.
  induction l as [|[k' v'] l IH]; cbn; [tauto|].
  intros Hn [E|H].
  - injection E as -> ->. rewrite String.eqb_refl. reflexivity.
  - apply List.NoDup_cons_iff in Hn as [Hk Hn].
    destruct (String.eqb_spec k k') as [->|_].
    + exfalso. apply Hk. apply (in_map fst) in H. exact H.
    + apply IH; assumption.
Qed.

Lemma refs_injective (k1 k2 : string) (r : nat) (l : list (string * nat)) :
  List.NoDup (map snd l) -> In (k1, r) l -> In (k2, r) l -> k1 = k2.
Proof.
  induction l as [|[k' r'] l IH]; cbn; [tauto|].
  intros Hn H1 H2. apply List.NoDup_cons_iff in Hn as [Hr Hn].
  destruct H1 as [E1|H1], H2 as [E2|H2].
  - congruence.
  - injection E1 as -> ->. exfalso. apply Hr.
    apply (in_map snd) in H2. exact H2.
  - injection E2 as -> ->. exfalso. apply Hr.
    apply (in_map snd) in H1. exact H1.
  - apply IH; assumption.
Qed.

Lemma map_delete_In (e k : string) (r : nat) (l : list (string * nat)) :
  In (k, r) (map_delete e l) <-> k <> e /\ In (k, r) l.
Proof.
  unfold map_delete. rewrite filter_In. cbn.
  destruct (String.eqb_spec e k); cbn; split; intros [H1 H2]; split;
    try congruence; auto.
Qed.

Lemma NoDup_map_filter {A B : Type} (f : A -> B) (p : A -> bool) (l : list A) :
  List.NoDup (map f l) -> List.NoDup (map f (List.filter p l)).
Proof.
  induction l as [|x l IH]; cbn; [auto|].
  intros Hn. apply List.NoDup_cons_iff in Hn as [Hx Hn].
  destruct (p x); cbn; [|apply IH, Hn].
  constructor; [|apply IH, Hn].
  intros Hi. apply Hx. apply in_map_iff in Hi as (y & Hy & Hi).
  apply filter_In in Hi as [Hi _]. apply in_map_iff. eauto.
Qed.

Lemma assoc_map_delete (e k : string) (l : list (string * nat)) :
  assoc k (map_delete e l) = if String.eqb k e then None else assoc k l.
Proof.
  unfold map_delete. induction l as [|[k' r'] l IH]; cbn.
  - destruct (String.eqb k e); reflexivity.
  - destruct (String.eqb_spec e k') as [->|He]; cbn.
    + rewrite IH. destruct (String.eqb_spec k k'); reflexivity.
    + rewrite IH. destruct (String.eqb_spec k k') as [->|Hk]; [|reflexivity].
      destruct (String.eqb_spec k' e); [congruence|reflexivity].
Qed.

Lemma assoc_app_new (k e : string) (r : nat) (l : list (string * nat)) :
  assoc k (l ++ [(e, r)]) =
  match assoc k l with
  | Some x => Some x
  | None => if String.eqb k e then Some r else None
  end.
Proof.
  induction l as [|[k' r'] l IH]; cbn; [reflexivity|].
  destruct (String.eqb k k'); [reflexivity|exact IH].
Qed.

Lemma members_update_same (r : nat) (f : list EventHandler -> list EventHandler)
    (w : World) :
  r < length (sets w) -> members r (update_set r f w) = f (members r w).
Proof.
  intros H. unfold members, update_set. cbn.
  rewrite list_lookup_insert_eq by exact H. reflexivity.
Qed.

Lemma members_update_other (r r' : nat)
    (f : list EventHandler -> list EventHandler) (w : World) :
  r' <> r -> members r' (update_set r f w) = members r' w.
Proof.
  intros H. unfold members, update_set. cbn.
  rewrite list_lookup_insert_ne by congruence. reflexivity.
Qed.

Lemma members_out_of_range (r : nat) (w : World) :
  length (sets w) <= r -> members r w = [].
Proof.
  intros H. unfold members. rewrite lookup_ge_None_2 by exact H. reflexivity.
Qed.

(** The registry depends on three fields only. *)
Lemma Registry_ext (w w' : World) :
  listeners w' = listeners w ->
  sets w' = sets w ->
  unsubscribers w' = unsubscribers w ->
  Registry w -> Registry w'.
Proof.
  intros El Es Eu [K R S N U].
  split; unfold members in *; rewrite ?El, ?Es, ?Eu; assumption.
Qed.

Lemma on_Registry (event : string) (h : EventHandler) (w : World) :
  Registry w -> Registry (world (on event h w)).
Proof.
  intros [K R S N U]. unfold on. mcbn.
  destruct (assoc event (listeners w)) as [r|] eqn:E; mcbn.
  - pose proof (assoc_In _ _ _ E) as Hin.
    destruct (S _ _ Hin) as [Hr _].
    split; cbn.
    + exact K.
    + exact R.
    + intros k r' Hk. rewrite length_insert. destruct (S _ _ Hk) as [Hl Hm].
      split; [exact Hl|].
      change (members r' (update_set r (set_add h) w) <> []).
      destruct (Nat.eq_dec r' r) as [->|Hne].
      * rewrite members_update_same by exact Hr. apply set_add_nonempty.
      * rewrite members_update_other by exact Hne. exact Hm.
    + intros r'. change (List.NoDup (members r' (update_set r (set_add h) w))).
      destruct (Nat.eq_dec r' r) as [->|Hne].
      * rewrite members_update_same by exact Hr. apply set_add_NoDup, N.
      * rewrite members_update_other by exact Hne. apply N.
    + intros u Hu. rewrite length_insert. apply in_app_iff in Hu as [Hu|[<-|[]]].
      * apply U, Hu.
      * cbn. split; [exact Hr|]. intros k Hk.
        exact (refs_injective _ _ _ _ R Hk Hin).
  - set (r := length (sets w)).
    set (u := {| u_event := event; u_set := r; u_handler := h |}).
    set (W := set_unsubscribers _ _).
    assert (HL : listeners W = listeners w ++ [(event, r)]) by reflexivity.
    assert (HU : unsubscribers W = unsubscribers w ++ [u]) by reflexivity.
    assert (HS : length (sets W) = Datatypes.S (length (sets w))).
    { unfold W. cbn. rewrite length_insert, length_app. cbn. lia. }
    assert (Hfresh : ~ In r (map snd (listeners w))).
    { intros Hi. apply in_map_iff in Hi as ([k r'] & Er & Hi). cbn in Er. subst r'.
      destruct (S _ _ Hi) as [Hl _]. unfold r in Hl. lia. }
    assert (Hm : forall r', r' <> r -> members r' W = members r' w).
    { intros r' Hne.
      change (members r' W) with
        (members r'
           (update_set r (set_add h)
              (set_listeners (listeners w ++ [(event, r)])
                 (set_sets (sets w ++ [[]]) w)))).
      rewrite members_update_other by exact Hne.
      unfold members. cbn.
      destruct (Nat.lt_ge_cases r' r) as [Hlt|Hge].
      - rewrite lookup_app_l by exact Hlt. reflexivity.
      - rewrite (lookup_ge_None_2 (sets w)) by exact Hge.
        rewrite lookup_ge_None_2; [reflexivity|].
        rewrite length_app. cbn. fold r. lia. }
    assert (Hnew : members r W = set_add h []).
    { change (members r W) with
        (members r
           (update_set r (set_add h)
              (set_listeners (listeners w ++ [(event, r)])
                 (set_sets (sets w ++ [[]]) w)))).
      rewrite members_update_same by (cbn; rewrite length_app; cbn; fold r; lia).
      f_equal. unfold members. cbn.
      rewrite (list_lookup_middle (sets w) [] [] r eq_refl). reflexivity. }
    clearbody W.
    split; rewrite ?HL, ?HU, ?HS.
    + rewrite map_app. cbn.
      apply List.NoDup_app; [exact K|repeat constructor; intros []|].
      intros k Hk [<-|[]]. exact (assoc_None_notin _ _ E Hk).
    + rewrite map_app. cbn.
      apply List.NoDup_app; [exact R|repeat constructor; intros []|].
      intros r' Hr' [<-|[]]. exact (Hfresh Hr').
    + intros k r' Hk.
      apply in_app_iff in Hk as [Hk|[Ek|[]]].
      * destruct (S _ _ Hk) as [Hl Hne]. split; [lia|].
        rewrite Hm; [exact Hne|]. unfold r. lia.
      * assert (r' = r) as -> by congruence. split; [lia|].
        rewrite Hnew. apply set_add_nonempty.
    + intros r'. destruct (Nat.eq_dec r' r) as [->|Hne].
      * rewrite Hnew. apply set_add_NoDup. constructor.
      * rewrite Hm by exact Hne. apply N.
    + intros u' Hu.
      apply in_app_iff in Hu as [Hu|[<-|[]]].
      * destruct (U _ Hu) as [Hl Hk]. split; [lia|].
        intros k Hi. apply in_app_iff in Hi as [Hi|[Ei|[]]]; [apply Hk, Hi|].
        assert (Er : u_set u' = r) by congruence. unfold r in Er. lia.
      * cbn. split; [fold r; lia|]. intros k Hi.
        apply in_app_iff in Hi as [Hi|[Ei|[]]].
        -- exfalso. apply Hfresh. apply (in_map snd) in Hi. exact Hi.
        -- congruence.
Qed.

Lemma unsubscribe_Registry (u : Unsubscribe) (w : World) :
  Registry w -> In u (unsubscribers w) -> Registry (world (unsubscribe u w)).
Proof.
  intros [K R S N U] Hu. destruct (U _ Hu) as [Hr Hown].
  unfold unsubscribe. mcbn.
  set (w1 := update_set (u_set u) (set_delete (u_handler u)) w).
  assert (Hsame : members (u_set u) w1 =
                  set_delete (u_handler u) (members (u_set u) w))
    by (apply members_update_same; exact Hr).
  assert (Hother : forall r', r' <> u_set u -> members r' w1 = members r' w)
    by (intros r' Hne; apply members_update_other; exact Hne).
  assert (HS : length (sets w1) = length (sets w))
    by (unfold w1; cbn; apply length_insert).
  assert (HN : forall r', List.NoDup (members r' w1)).
  { intros r'. destruct (Nat.eq_dec r' (u_set u)) as [->|Hne].
    - rewrite Hsame. apply set_delete_NoDup, N.
    - rewrite Hother by exact Hne. apply N. }
  destruct (members (u_set u) w1) as [|x left] eqn:Eleft; mcbn.
  - split; cbn.
    + apply NoDup_map_filter, K.
    + apply NoDup_map_filter, R.
    + intros k r' Hk. apply map_delete_In in Hk as [Hne Hk].
      destruct (S _ _ Hk) as [Hl Hm]. rewrite length_insert.
      split; [exact Hl|].
      change (members r' w1 <> []). rewrite Hother; [exact Hm|].
      intros ->. apply Hne. apply Hown, Hk.
    + exact HN.
    + intros u' Hu'. destruct (U _ Hu') as [Hl Hk]. rewrite length_insert.
      split; [exact Hl|]. intros k Hi. apply map_delete_In in Hi as [_ Hi].
      apply Hk, Hi.
  - split.
    + exact K.
    + exact R.
    + intros k r' Hk. destruct (S _ _ Hk) as [Hl Hm]. rewrite HS.
      split; [exact Hl|].
      destruct (Nat.eq_dec r' (u_set u)) as [->|Hne].
      * rewrite Eleft. discriminate.
      * rewrite Hother by exact Hne. exact Hm.
    + exact HN.
    + intros u' Hu'. rewrite HS. apply U, Hu'.
Qed.

(** Apart from [on] and the closures it returns, nothing the client does
    touches the registry. *)
Lemma registry_frame (ev : Event) (w : World) :
  is_subscription ev = false ->
  listeners (world (step parse throws ev w)) = listeners w /\
  sets (world (step parse throws ev w)) = sets w /\
  unsubscribers (world (step parse throws ev w)) = unsubscribers w.
Proof.
  intros Hev. destruct w.
  destruct ev; try discriminate Hev; crunch; repeat split.
Qed.

Lemma construct_Registry (url : string) : Registry (construct url).
Proof.
  split; cbn; try constructor; try tauto.
Qed.

Arguments on : simpl never.
Arguments unsubscribe : simpl never.
Arguments members : simpl never.
Arguments map_delete : simpl never.
Arguments set_delete : simpl never.
Arguments set_add : simpl never.

Lemma step_Registry (ev : Event) (w : World) :
  Registry w -> Registry (world (step parse throws ev w)).
Proof.
  intros H. destruct (is_subscription ev) eqn:Hev.
  - destruct ev; try discriminate Hev.
    + unfold step. mcbn.
      pose proof (on_Registry event handler w H) as H'.
      destruct (on event handler w) as [[u|] w' tr]; exact H'.
    + unfold step. mcbn.
      destruct (unsubscribers w !! n) as [u|] eqn:Eu; mcbn; [|exact H].
      assert (H' : Registry (world (unsubscribe u w))).
      { apply unsubscribe_Registry; [exact H|].
        apply list_elem_of_In. eapply list_elem_of_lookup_2. exact Eu. }
      destruct (unsubscribe u w) as [c w' tr]. exact H'.
  - destruct (registry_frame ev w Hev) as (El & Es & Eu).
    exact (Registry_ext w _ El Es Eu H).
Qed.

Lemma reachable_Registry (url : string) (evs : list Event) :
  Registry (fst (run parse throws evs (construct url))).
Proof.
  generalize (construct_Registry url). generalize (construct url).
  induction evs as [|ev evs IH]; intros w Hw; [exact Hw|].
  cbn [run]. specialize (IH _ (step_Registry ev w Hw)).
  destruct (run parse throws evs (world (step parse throws ev w))).
  exact IH.
Qed.

(** What [on] does to the registry, in one place. *)
Lemma on_members (event : string) (h : EventHandler) (w : World) :
  Registry w ->
  let r := match assoc event (listeners w) with
           | Some r => r
           | None => length (sets w)
           end in
  let u := {| u_event := event; u_set := r; u_handler := h |} in
  completion (on event h w) = Normal u /\
  trace (on event h w) = [] /\
  members r (world (on event h w)) = set_add h (members r w) /\
  (forall r', r' <> r -> members r' (world (on event h w)) = members r' w) /\
  listeners (world (on event h w)) =
    match assoc event (listeners w) with
    | Some _ => listeners w
    | None => listeners w ++ [(event, r)]
    end /\
  unsubscribers (world (on event h w)) = unsubscribers w ++ [u].
Proof.
  intros [K R S N U]. unfold on. mcbn.
  destruct (assoc event (listeners w)) as [r|] eqn:E; mcbn.
  - destruct (S _ _ (assoc_In _ _ _ E)) as [Hr _].
    repeat split.
    + change (members r (update_set r (set_add h) w) = set_add h (members r w)).
      apply members_update_same, Hr.
    + intros r' Hne.
      change (members r' (update_set r (set_add h) w) = members r' w).
      apply members_update_other, Hne.
  - set (r := length (sets w)).
    repeat split.
    + change (members r
                (update_set r (set_add h)
                   (set_listeners (listeners w ++ [(event, r)])
                      (set_sets (sets w ++ [[]]) w))) =
              set_add h (members r w)).
      rewrite members_update_same by (cbn; rewrite length_app; cbn; fold r; lia).
      f_equal. rewrite (members_out_of_range r w) by (unfold r; lia).
      unfold members. cbn.
      rewrite (list_lookup_middle (sets w) [] [] r eq_refl). reflexivity.
    + intros r' Hne.
      change (members r'
                (update_set r (set_add h)
                   (set_listeners (listeners w ++ [(event, r)])
                      (set_sets (sets w ++ [[]]) w))) = members r' w).
      rewrite members_update_other by exact Hne.
      unfold members. cbn.
      destruct (Nat.lt_ge_cases r' r) as [Hlt|Hge].
      * rewrite lookup_app_l by exact Hlt. reflexivity.
      * rewrite (lookup_ge_None_2 (sets w)) by exact Hge.
        rewrite lookup_ge_None_2; [reflexivity|].
        rewrite length_app. cbn. fold r. lia.
Qed.

Lemma handlers_of_absent (event : string) (w : World) :
  Registry w ->
  (assoc event (listeners w) = None <-> handlers_of event w = []).
Proof.
  intros [K R S N U]. unfold handlers_of.
  destruct (assoc event (listeners w)) as [r|] eqn:E.
  - destruct (S _ _ (assoc_In _ _ _ E)) as [_ Hm].
    split; [discriminate|]. intros H. contradiction.
  - split; reflexivity.
Qed.

(** X3. In every state the client can reach, a key is in the listener
    registry exactly when it has handlers, and no handler is registered
    twice under one key: an emission calls a subscriber at most once. *)
Theorem registry_keys_have_handlers
    (url : string) (evs : list Event) (event : string) :
  let w := fst (run parse throws evs (construct url)) in
  List.NoDup (handlers_of event w) /\
  (assoc event (listeners w) = None <-> handlers_of event w = []).
Proof.
  intros w. pose proof (reachable_Registry url evs) as H. fold w in H.
  split; [|apply handlers_of_absent, H].
  unfold handlers_of. destruct (assoc event (listeners w)); [|constructor].
  apply H.
Qed.

Lemma on_handlers (event : string) (h : EventHandler) (w : World) :
  Registry w ->
  handlers_of event (world (on event h w)) = set_add h (handlers_of event w) /\
  (forall k, k <> event ->
     handlers_of k (world (on event h w)) = handlers_of k w).
Proof.
  intros H. pose proof H as [K R S N U].
  destruct (on_members event h w H) as (_ & _ & Hm & Ho & Hl & _).
  unfold handlers_of. rewrite Hl.
  destruct (assoc event (listeners w)) as [r|] eqn:E.
  - rewrite E. split; [exact Hm|].
    intros k Hk. destruct (assoc k (listeners w)) as [r'|] eqn:Ek; [|reflexivity].
    apply Ho. intros ->. apply Hk.
    exact (refs_injective _ _ _ _ R (assoc_In _ _ _ Ek) (assoc_In _ _ _ E)).
  - rewrite assoc_app_new, E, String.eqb_refl.
    rewrite (members_out_of_range (length (sets w)) w) in Hm by lia.
    split; [exact Hm|].
    intros k Hk. rewrite assoc_app_new.
    destruct (assoc k (listeners w)) as [r'|] eqn:Ek.
    + apply Ho. destruct (S _ _ (assoc_In _ _ _ Ek)) as [Hl' _]. lia.
    + destruct (String.eqb_spec k event); [contradiction|reflexivity].
Qed.

(** X4. [on(event, handler)] on a reachable client adds the handler to
    the handlers of that event, after the ones already there, unless it is
    registered for the event already, in which case nothing changes; the
    handlers of every other event stay as they were.  The call returns
    normally and has no other effect. *)
Theorem subscribe_adds_handler_once
    (url : string) (evs : list Event) (event : string) (h : EventHandler) :
  let w := fst (run parse throws evs (construct url)) in
  let w' := world (step parse throws (On event h) w) in
  (In h (handlers_of event w) -> handlers_of event w' = handlers_of event w) /\
  (~ In h (handlers_of event w) ->
   handlers_of event w' = handlers_of event w ++ [h]) /\
  (forall k, k <> event -> handlers_of k w' = handlers_of k w) /\
  trace (step parse throws (On event h) w) = [].
Proof.
  intros w w'. pose proof (reachable_Registry url evs) as H. fold w in H.
  assert (Ew : w' = world (on event h w)).
  { unfold w', step. mcbn. destruct (on event h w) as [[u|] w1 tr]; reflexivity. }
  assert (Et : trace (step parse throws (On event h) w) = trace (on event h w)).
  { unfold step. mcbn. destruct (on event h w) as [[u|] w1 tr]; cbn;
      [apply app_nil_r|reflexivity]. }
  destruct (on_handlers event h w H) as [Hh Hk].
  destruct (on_members event h w H) as (_ & Htr & _).
  rewrite Ew, Et, Hh. unfold set_add.
  split; [|split; [|split; [exact Hk|exact Htr]]].
  - intros Hi.
    assert (E : existsb (handler_eqb h) (handlers_of event w) = true).
    { apply existsb_exists. exists h. split; [exact Hi|].
      destruct (handler_eqb_spec h h); congruence. }
    rewrite E. reflexivity.
  - intros Hn.
    destruct (existsb (handler_eqb h) (handlers_of event w)) eqn:E; [|reflexivity].
    exfalso. apply Hn. apply existsb_exists in E as (x & Hx & Hhx).
    destruct (handler_eqb_spec h x); [subst; exact Hx|discriminate Hhx].
Qed.

Lemma unsubscribe_handlers (u : Unsubscribe) (w : World) :
  Registry w ->
  In u (unsubscribers w) ->
  assoc (u_event u) (listeners w) = Some (u_set u) ->
  handlers_of (u_event u) (world (unsubscribe u w)) =
    set_delete (u_handler u) (handlers_of (u_event u) w) /\
  (forall k, k <> u_event u ->
     handlers_of k (world (unsubscribe u w)) = handlers_of k w).
Proof.
  intros H Hu Hcur. pose proof H as [K R S N U].
  destruct (U _ Hu) as [Hr Hown].
  unfold unsubscribe. mcbn.
  set (w1 := update_set (u_set u) (set_delete (u_handler u)) w).
  assert (Hsame : members (u_set u) w1 =
                  set_delete (u_handler u) (members (u_set u) w))
    by (apply members_update_same; exact Hr).
  assert (Hother : forall r', r' <> u_set u -> members r' w1 = members r' w)
    by (intros r' Hne; apply members_update_other; exact Hne).
  assert (Hk : forall k r', k <> u_event u ->
                 assoc k (listeners w) = Some r' -> r' <> u_set u).
  { intros k r' Hne Ek ->. apply Hne, Hown. exact (assoc_In _ _ _ Ek). }
  unfold handlers_of at 2 4. rewrite Hcur.
  destruct (members (u_set u) w1) as [|x left] eqn:Eleft; mcbn.
  - unfold handlers_of. cbn. split.
    + rewrite assoc_map_delete, String.eqb_refl. exact Hsame.
    + intros k Hne. rewrite assoc_map_delete.
      destruct (String.eqb_spec k (u_event u)); [contradiction|].
      destruct (assoc k (listeners w)) as [r'|] eqn:Ek; [|reflexivity].
      change (members r' w1 = members r' w). apply Hother. eauto.
  - unfold handlers_of.
    change (listeners w1) with (listeners w). rewrite Hcur. split.
    + rewrite Eleft. exact Hsame.
    + intros k Hne.
      destruct (assoc k (listeners w)) as [r'|] eqn:Ek; [|reflexivity].
      apply Hother. eauto.
Qed.

(** X5. Calling the closure that [on] returned removes that handler from
    the handlers of its event and no other: as long as the event is still
    registered with the [Set] the closure holds, the other handlers of the
    event keep their order, and the handlers of all other events stay as
    they were. *)
Theorem unsubscribe_removes_only_that_handler
    (url : string) (evs : list Event) (n : nat) (u : Unsubscribe) :
  let w := fst (run parse throws evs (construct url)) in
  let w' := world (step parse throws (CallUnsubscribe n) w) in
  unsubscribers w !! n = Some u ->
  assoc (u_event u) (listeners w) = Some (u_set u) ->
  handlers_of (u_event u) w' =
    set_delete (u_handler u) (handlers_of (u_event u) w) /\
  ~ In (u_handler u) (handlers_of (u_event u) w') /\
  (forall h, h <> u_handler u ->
     (In h (handlers_of (u_event u) w') <-> In h (handlers_of (u_event u) w))) /\
  (forall k, k <> u_event u -> handlers_of k w' = handlers_of k w).
Proof.
  intros w w' Hn Hcur.
  pose proof (reachable_Registry url evs) as H. fold w in H.
  assert (Hu : In u (unsubscribers w)).
  { apply list_elem_of_In. eapply list_elem_of_lookup_2. exact Hn. }
  assert (Ew : w' = world (unsubscribe u w)).
  { unfold w', step. mcbn. rewrite Hn. mcbn.
    destruct (unsubscribe u w) as [c w1 tr]. reflexivity. }
  destruct (unsubscribe_handlers u w H Hu Hcur) as [Hh Hk].
  rewrite Ew. split; [exact Hh|]. split; [|split; [|exact Hk]].
  - rewrite Hh, set_delete_In. tauto.
  - intros h Hne. rewrite Hh, set_delete_In. tauto.
Qed.

(** X6. Subscribing a handler that is not yet registered for the event
    and calling the returned closure at once brings the handlers of every
    event back to what they were. *)
Theorem subscribe_unsubscribe_round_trip
    (url : string) (evs : list Event) (event : string) (h : EventHandler)
    (u : Unsubscribe) :
  let w := fst (run parse throws evs (construct url)) in
  ~ In h (handlers_of event w) ->
  completion (on event h w) = Normal u ->
  forall k,
    handlers_of k (world (unsubscribe u (world (on event h w)))) =
    handlers_of k w.
Proof.
  intros w Hn Hu k.
  pose proof (reachable_Registry url evs) as H. fold w in H.
  destruct (on_members event h w H) as (Hc & _ & _ & _ & Hl & Hus).
  rewrite Hc in Hu. injection Hu as <-.
  set (u := {| u_event := event; u_set := _; u_handler := h |}) in *.
  assert (H1 : Registry (world (on event h w))) by (apply on_Registry, H).
  destruct (on_handlers event h w H) as [Hh Hk].
  assert (Hin : In u (unsubscribers (world (on event h w)))).
  { rewrite Hus. apply in_app_iff. right. left. reflexivity. }
  assert (Hcur : assoc (u_event u) (listeners (world (on event h w))) =
                 Some (u_set u)).
  { rewrite Hl. cbn. destruct (assoc event (listeners w)) as [r|] eqn:E.
    - exact E.
    - rewrite assoc_app_new, E, String.eqb_refl. reflexivity. }
  destruct (unsubscribe_handlers u _ H1 Hin Hcur) as [Hd Ho].
  destruct (String.eqb_spec k event) as [->|Hne].
  - change event with (u_event u) at 1. rewrite Hd. cbn [u_event u_handler u].
    rewrite Hh. apply set_delete_add, Hn.
  - rewrite Ho by exact Hne. apply Hk, Hne.
Qed.

Lemma set_delete_idempotent (h : EventHandler) (l : list EventHandler) :
  set_delete h (set_delete h l) = set_delete h l.
Proof.
  unfold set_delete. induction l as [|x l IH]; [reflexivity|]. cbn.
  destruct (negb (handler_eqb h x)) eqn:E; cbn; rewrite ?E, IH; reflexivity.
Qed.

Lemma map_delete_idempotent (e : string) (l : list (string * nat)) :
  map_delete e (map_delete e l) = map_delete e l.
Proof.
  unfold map_delete. induction l as [|x l IH]; [reflexivity|]. cbn.
  destruct (negb (String.eqb e (fst x))) eqn:E; cbn; rewrite ?E, IH; reflexivity.
Qed.

(** X7. Calling an unsubscribe closure a second time right after the
    first changes nothing. *)
Theorem unsubscribe_twice (u : Unsubscribe) (w : World) :
  world (unsubscribe u (world (unsubscribe u w))) = world (unsubscribe u w) /\
  completion (unsubscribe u (world (unsubscribe u w))) = Normal tt /\
  trace (unsubscribe u (world (unsubscribe u w))) = [].
Proof.
  destruct w. unfold unsubscribe, update_set, members. mcbn.
  set (r := u_set u). set (h := u_handler u).
  set (old := match sets0 !! r with Some l => l | None => [] end).
  assert (Hleft : match <[r := set_delete h old]> sets0 !! r with
                  | Some l => l
                  | None => []
                  end = set_delete h old).
  { destruct (Nat.lt_ge_cases r (length sets0)) as [Hlt|Hge].
    - rewrite list_lookup_insert_eq by exact Hlt. reflexivity.
    - rewrite lookup_ge_None_2 by (rewrite length_insert; exact Hge).
      unfold old. rewrite lookup_ge_None_2 by exact Hge. reflexivity. }
  rewrite Hleft.
  assert (Hagain : <[r := set_delete h (set_delete h old)]>
                     (<[r := set_delete h old]> sets0) =
                   <[r := set_delete h old]> sets0).
  { rewrite set_delete_idempotent. apply list_insert_insert_eq. }
  destruct (set_delete h old) as [|x left] eqn:E; mcbn.
  - rewrite Hleft. mcbn. rewrite Hagain, Hleft. mcbn.
    rewrite map_delete_idempotent. repeat split.
  - rewrite Hleft. mcbn. rewrite Hagain, Hleft. mcbn. repeat split.
Qed.

(** X8. Nothing but [on] and the closures it returns changes who is
    subscribed: connecting, reconnecting, disconnecting, incoming frames,
    timers and token fetches leave the handlers of every event as they
    are.  In particular [disconnect] does not drop the subscriptions. *)
Theorem subscriptions_survive (ev : Event) (w : World) :
  is_subscription ev = false ->
  forall k, handlers_of k (world (step parse throws ev w)) = handlers_of k w.
Proof.
  intros Hev k. destruct (registry_frame ev w Hev) as (El & Es & _).
  unfold handlers_of, members. rewrite El, Es. reflexivity.
Qed.

(** *** One socket, one timer of each kind *)

Arguments only_current_wired : simpl never.

Lemma ocw_alter (f : Socket -> Socket) (id : nat) (cur : option nat)
    (l : list Socket) :
  (forall sk, wired (f sk) = wired sk) ->
  only_current_wired cur l -> only_current_wired cur (alter f id l).
Proof.
  intros Hf H id' sk Hl Hw. rewrite list_lookup_alter in Hl.
  destruct (decide (id = id')) as [->|Hne].
  - destruct (l !! id') as [sk'|] eqn:E; [|discriminate Hl].
    cbn in Hl. injection Hl as <-. rewrite Hf in Hw. exact (H _ _ E Hw).
  - exact (H _ _ Hl Hw).
Qed.

Lemma ocw_unwire (id : nat) (cur : option nat) (l : list Socket) :
  only_current_wired (Some id) l ->
  only_current_wired cur (alter (set_wired false) id l).
Proof.
  intros H id' sk Hl Hw. rewrite list_lookup_alter in Hl.
  destruct (decide (id = id')) as [->|Hne].
  - destruct (l !! id') as [sk'|]; [|discriminate Hl].
    cbn in Hl. injection Hl as <-. discriminate Hw.
  - specialize (H _ _ Hl Hw). congruence.
Qed.

Lemma ocw_none (cur : option nat) (l : list Socket) :
  only_current_wired None l -> only_current_wired cur l.
Proof. intros H id sk Hl Hw. specialize (H _ _ Hl Hw). discriminate H. Qed.

Lemma ocw_new (sk : Socket) (l : list Socket) :
  only_current_wired None l ->
  only_current_wired (Some (length l))
    (alter (set_wired true) (length l) (l ++ [sk])).
Proof.
  intros H id sk' Hl Hw. rewrite list_lookup_alter in Hl.
  destruct (decide (length l = id)) as [<-|Hne]; [reflexivity|].
  destruct (Nat.lt_ge_cases id (length l)) as [Hlt|Hge].
  - rewrite lookup_app_l in Hl by exact Hlt. specialize (H _ _ Hl Hw).
    discriminate H.
  - rewrite lookup_ge_None_2 in Hl; [discriminate Hl|].
    rewrite length_app. cbn. lia.
Qed.

Lemma wired_closing (sk : Socket) : wired (closing sk) = wired sk.
Proof. unfold closing. destruct (readyState sk); reflexivity. Qed.

Lemma wired_opened (sk : Socket) : wired (opened sk) = wired sk.
Proof. unfold opened. destruct (readyState sk); reflexivity. Qed.

Lemma wired_set_ready (r : ReadyState) (sk : Socket) :
  wired (set_ready r sk) = wired sk.
Proof. reflexivity. Qed.

Ltac ocw :=
  repeat first
    [ assumption
    | apply ocw_new
    | apply ocw_alter;
      [first [exact wired_closing | exact wired_opened
             | exact (wired_set_ready _)]|]
    | apply ocw_unwire
    | apply ocw_none; assumption ].

Lemma step_wired (ev : Event) (w : World) :
  only_current_wired (ws w) (sockets w) ->
  only_current_wired (ws (world (step parse throws ev w)))
    (sockets (world (step parse throws ev w))).
Proof.
  intros H. destruct w; cbn in H.
  destruct ev; crunch; ocw.
Qed.

Lemma step_ws_bound (ev : Event) (w : World) :
  (forall id, ws w = Some id -> id < length (sockets w)) ->
  forall id, ws (world (step parse throws ev w)) = Some id ->
             id < length (sockets (world (step parse throws ev w))).
Proof.
  intros H. destruct w; cbn in H.
  destruct ev; crunch; intros id' E; try discriminate E;
    rewrite ?length_alter, ?length_app; cbn;
    try (injection E as <-; lia); try (apply H; exact E).
Qed.

Lemma remove_nat_nil (n : nat) : remove_nat n [] = [].
Proof. reflexivity. Qed.

Lemma mem_nat_one (n m : nat) : mem_nat n [m] = true -> n = m.
Proof.
  unfold mem_nat. cbn. rewrite orb_false_r. apply Nat.eqb_eq.
Qed.

Lemma step_timeouts (ev : Event) (w : World) :
  one_timeout (reconnectTimer w) (timeouts w) ->
  one_timeout (reconnectTimer (world (step parse throws ev w)))
    (timeouts (world (step parse throws ev w))).
Proof.
  unfold one_timeout.
  intros H. destruct w; cbn in H.
  destruct H as [->|(t & -> & ->)]; destruct ev; crunch;
    repeat match goal with
           | H : mem_nat _ [_] = true |- _ => apply mem_nat_one in H; subst
           | H : mem_nat _ [] = true |- _ => discriminate H
           end;
    rewrite ?remove_nat_nil, ?remove_nat_single; cbn;
    first [ left; reflexivity | right; eexists; split; reflexivity ].
Qed.

Lemma construct_Live (url : string) : Live (construct url).
Proof.
  split; cbn.
  - intros id sk H. discriminate H.
  - intros id H. discriminate H.
  - left. reflexivity.
Qed.

Lemma step_Live (ev : Event) (w : World) :
  Live w -> Live (world (step parse throws ev w)).
Proof.
  intros [H1 H2 H3]. split.
  - apply step_wired, H1.
  - apply step_ws_bound, H2.
  - apply step_timeouts, H3.
Qed.

Lemma reachable_Live (url : string) (evs : list Event) :
  Live (fst (run parse throws evs (construct url))).
Proof.
  generalize (construct_Live url). generalize (construct url).
  induction evs as [|ev evs IH]; intros w Hw; [exact Hw|].
  cbn [run]. specialize (IH _ (step_Live ev w Hw)).
  destruct (run parse throws evs (world (step parse throws ev w))).
  exact IH.
Qed.

Lemma not_current_not_wired (w : World) (id : nat) :
  Live w -> ws w <> Some id -> is_wired id w = false.
Proof.
  intros [H _ _] Hne. unfold is_wired.
  destruct (sockets w !! id) as [sk|] eqn:E; [|reflexivity].
  destruct (wired sk) eqn:Ew; [|reflexivity].
  exfalso. apply Hne. exact (H _ _ E Ew).
Qed.

(** X9. The callbacks of a socket that is not the current one never
    run: whatever arrives on a superseded socket (open, message, error,
    close) leaves every field of the client as it is, calls no subscriber,
    sends and closes nothing and schedules no reconnect.  Only the
    [readyState] the runtime keeps for that socket may change. *)
Theorem stale_socket_events_ignored
    (url : string) (evs : list Event) (id : nat) (ev : Event) :
  let w := fst (run parse throws evs (construct url)) in
  ws w <> Some id ->
  socket_event id ev = true ->
  completion (step parse throws ev w) = Normal tt /\
  trace (step parse throws ev w) = [] /\
  set_sockets (sockets w) (world (step parse throws ev w)) = w.
Proof.
  intros w Hne Hev.
  pose proof (not_current_not_wired w id (reachable_Live url evs) Hne) as Hw.
  revert Hw. generalize w. clear w Hne. intros w Hw.
  destruct ev; try discriminate Hev; cbn in Hev;
    apply Nat.eqb_eq in Hev; subst id0;
    unfold step; mcbn; rewrite ?is_wired_closed.
  - assert (E : is_wired id (update_socket id opened w) = is_wired id w).
    { unfold is_wired, update_socket. cbn. rewrite list_lookup_alter_eq.
      destruct (sockets w !! id) as [sk|]; cbn; [apply wired_opened|reflexivity]. }
    rewrite E, Hw. cbn. destruct w; repeat split.
  - rewrite Hw. cbn. destruct w; repeat split.
  - destruct w; repeat split.
  - rewrite Hw. cbn. destruct w; repeat split.
Qed.

(** X10. In every state the client can reach at most one heartbeat
    interval is live, the one in [heartbeatTimer], at most one reconnect
    timeout is pending, the one in [reconnectTimer], and at most one socket
    has its callbacks in place, the current one. *)
Theorem at_most_one_of_each (url : string) (evs : list Event) :
  let w := fst (run parse throws evs (construct url)) in
  (length (intervals w) <= 1 /\
   forall t, In t (intervals w) -> heartbeatTimer w = Some t) /\
  (length (timeouts w) <= 1 /\
   forall t, In t (timeouts w) -> reconnectTimer w = Some t) /\
  (forall id, is_wired id w = true -> ws w = Some id).
Proof.
  intros w.
  pose proof (reachable_Inv url evs) as [_ Hi _].
  pose proof (reachable_Live url evs) as HL.
  fold w in Hi, HL. pose proof HL as [Hw _ Ht].
  split; [|split].
  - rewrite Hi. unfold heartbeat_list.
    destruct (heartbeatTimer w) as [t0|]; cbn.
    + split; [lia|]. intros t [<-|[]]. reflexivity.
    + split; [lia|]. intros t [].
  - destruct Ht as [->|(t & -> & ->)]; cbn.
    + split; [lia|]. intros t [].
    + split; [lia|]. intros t' [<-|[]]. reflexivity.
  - intros id H. destruct (decide (ws w = Some id)) as [E|Hne]; [exact E|].
    rewrite (not_current_not_wired w id HL Hne) in H. discriminate H.
Qed.


(** X11. After [disconnect] on a reachable client nothing of it is left
    running: no interval and no timeout is live, no socket has its
    callbacks in place, the [ws] field is [null], and the socket that was
    current, if any, has been closed with code 1000 (and nothing else was
    closed). *)
Theorem disconnect_leaves_nothing_running (url : string) (evs : list Event) :
  let w := fst (run parse throws evs (construct url)) in
  let o := step parse throws Disconnect w in
  completion o = Normal tt /\
  intervals (world o) = [] /\
  timeouts (world o) = [] /\
  (forall id, is_wired id (world o) = false) /\
  ws (world o) = None /\
  List.filter is_close (trace o) =
    match ws w with
    | Some id => [ESockClose id 1000]
    | None => []
    end.
Proof.
  intros w o.
  pose proof (step_Inv Disconnect w (reachable_Inv url evs)) as [_ Hi _].
  pose proof (step_Live Disconnect w (reachable_Live url evs)) as HL.
  pose proof (disconnect_Dead w) as [_ Hws Hh Hr].
  fold o in Hi, HL. change (world (disconnect w)) with (world o) in Hws, Hh, Hr.
  split; [|split; [|split; [|split; [|split]]]].
  - subst o. generalize w. intros w0. destruct w0. crunch; reflexivity.
  - rewrite Hi. unfold heartbeat_list. rewrite Hh. reflexivity.
  - destruct HL as [_ _ [Ht|(t & _ & Ht)]]; [exact Ht|].
    rewrite Hr in Ht. discriminate Ht.
  - intros id. apply not_current_not_wired; [exact HL|].
    rewrite Hws. discriminate.
  - exact Hws.
  - subst o. generalize w. intros w0. destruct w0. crunch; reflexivity.
Qed.

(** *** Routing of incoming frames *)

Lemma Qeq_bool_other (q a b : Q) :
  Qeq_bool q a = true -> Qeq_bool a b = false -> Qeq_bool q b = false.
Proof.
  intros H1 H2. destruct (Qeq_bool q b) eqn:E; [|reflexivity].
  apply Qeq_bool_eq in H1, E.
  assert (H : (a == b)%Q) by (rewrite <- H1; exact E).
  apply Qeq_eq_bool in H. congruence.
Qed.

(** X12. A frame the client has no use for is dropped without a trace: a
    frame whose opcode is none of Hello, Dispatch, Heartbeat-ACK,
    Reconnect and Invalid-Session, and a Hello whose payload has no numeric
    [heartbeat_interval], leave the client as it is: no token is fetched,
    no heartbeat is started, nothing is sent or closed. *)
Theorem useless_frame_ignored (w : World) (raw : string) (j : json) :
  parse raw = Some j ->
  isFrame (Some j) = true ->
  (Qeq_bool (op (as_frame j)) OP_HELLO = true /\
   is_number (field_of "heartbeat_interval" (d (as_frame j))) = false) \/
  (Qeq_bool (op (as_frame j)) OP_HELLO = false /\
   Qeq_bool (op (as_frame j)) OP_DISPATCH = false /\
   Qeq_bool (op (as_frame j)) OP_HEARTBEAT_ACK = false /\
   Qeq_bool (op (as_frame j)) OP_RECONNECT = false /\
   Qeq_bool (op (as_frame j)) OP_INVALID_SESSION = false) ->
  handleMessage parse throws raw w = mkOut (Normal tt) w [] /\
  forall id,
    world (step parse throws (SockMessage id raw) w) = w /\
    trace (step parse throws (SockMessage id raw) w) = [].
Proof.
  intros Hp Hf Hcase.
  assert (Hm : handleMessage parse throws raw w = mkOut (Normal tt) w []).
  { unfold handleMessage. mcbn. destruct (disposed w); [reflexivity|].
    rewrite Hp, Hf. cbn.
    destruct Hcase as [[Hop Hn]|(H1 & H2 & H3 & H4 & H5)].
    - rewrite Hop. unfold isHelloData. rewrite Hn, andb_false_r. reflexivity.
    - rewrite H1, H2, H3, H4, H5. reflexivity. }
  split; [exact Hm|].
  intros id. unfold step. mcbn. destruct (is_wired id w); cbn; [|auto].
  rewrite Hm. auto.
Qed.

(** What the message handler does with a frame that passed [isFrame], on
    a client that is not disposed. *)
Lemma handleMessage_frame (w : World) (raw : string) (j : json) :
  disposed w = false ->
  parse raw = Some j ->
  isFrame (Some j) = true ->
  handleMessage parse throws raw w =
  (let frame := as_frame j in
   if Qeq_bool (op frame) OP_HELLO then
     when (isHelloData (d frame)) (handleHello_begin (as_hello (d frame)))
   else if Qeq_bool (op frame) OP_DISPATCH then
     handleDispatch throws frame
   else if Qeq_bool (op frame) OP_HEARTBEAT_ACK then
     modify (set_heartbeatAckReceived true)
   else if Qeq_bool (op frame) OP_RECONNECT then
     close_current 4000
   else if Qeq_bool (op frame) OP_INVALID_SESSION then
     when (negb (truthy_opt (d frame))) clear_session ;;
     close_current 4000
   else ret tt) w.
Proof.
  intros Hd Hp Hf. unfold handleMessage. unfold bind at 1. unfold read at 1.
  rewrite Hd, Hp, Hf. cbn [negb].
  match goal with
  | |- match ?m with _ => _ end = _ => destruct m as [[[]|] w' tr]; reflexivity
  end.
Qed.

Lemma step_message (w : World) (id : nat) (raw : string) :
  is_wired id w = true ->
  step parse throws (SockMessage id raw) w = handleMessage parse throws raw w.
Proof.
  intros H. unfold step. mcbn. rewrite H. cbn.
  destruct (handleMessage parse throws raw w) as [[[]|] w' tr]; reflexivity.
Qed.

(** X13. A Heartbeat-ACK between two ticks keeps the connection: on a
    client whose liveness flag is set, tick, ACK, tick closes nothing and
    leaves the flag cleared for the next round, while two ticks with no ACK
    between them close the socket with code 4000, once. *)
Theorem heartbeat_ack_cycle
    (w : World) (id tid : nat) (raw : string) (j : json) :
  disposed w = false ->
  ws w = Some id ->
  is_wired id w = true ->
  mem_nat tid (intervals w) = true ->
  heartbeatAckReceived w = true ->
  parse raw = Some j ->
  isFrame (Some j) = true ->
  Qeq_bool (op (as_frame j)) OP_HEARTBEAT_ACK = true ->
  (List.filter is_close
     (snd (run parse throws
             [HeartbeatTick tid; SockMessage id raw; HeartbeatTick tid] w)) = [] /\
   heartbeatAckReceived
     (fst (run parse throws
             [HeartbeatTick tid; SockMessage id raw; HeartbeatTick tid] w)) = false) /\
  List.filter is_close
    (snd (run parse throws [HeartbeatTick tid; HeartbeatTick tid] w)) =
  [ESockClose id 4000].
Proof.
  intros Hd Hws Hwired Hlive Hack Hp Hf Hop.
  assert (H10 : Qeq_bool (op (as_frame j)) OP_HELLO = false)
    by (apply (Qeq_bool_other _ _ _ Hop); reflexivity).
  assert (H0 : Qeq_bool (op (as_frame j)) OP_DISPATCH = false)
    by (apply (Qeq_bool_other _ _ _ Hop); reflexivity).
  assert (Htick : forall w0, ws w0 = Some id -> mem_nat tid (intervals w0) = true ->
            heartbeatAckReceived w0 = true ->
            exists tr, step parse throws (HeartbeatTick tid) w0 =
                       mkOut (Normal tt) (set_heartbeatAckReceived false w0) tr /\
                       List.filter is_close tr = []).
  { intros w0 H1 H2 H3. unfold step. mcbn. rewrite H2. cbn.
    unfold heartbeat_tick. mcbn. rewrite H3. cbn. rewrite send_out. cbn.
    rewrite H1. eexists. split; [reflexivity|].
    destruct (current_open _); reflexivity. }
  assert (Hzombie : forall w0, ws w0 = Some id -> mem_nat tid (intervals w0) = true ->
            heartbeatAckReceived w0 = false ->
            trace (step parse throws (HeartbeatTick tid) w0) = [ESockClose id 4000]).
  { intros w0 H1 H2 H3. unfold step. mcbn. rewrite H2. cbn.
    unfold heartbeat_tick, close_current, sock_close. mcbn.
    rewrite H3. cbn. rewrite H1. reflexivity. }
  destruct (Htick w Hws Hlive Hack) as (tr1 & E1 & Hc1).
  set (w1 := set_heartbeatAckReceived false w) in *.
  split.
  - cbn [run]. rewrite E1. cbn [world trace].
    assert (E2 : step parse throws (SockMessage id raw) w1 =
                 mkOut (Normal tt) (set_heartbeatAckReceived true w1) []).
    { rewrite step_message by exact Hwired.
      rewrite (handleMessage_frame w1 raw j Hd Hp Hf). cbn zeta.
      rewrite H10, H0, Hop. reflexivity. }
    rewrite E2. cbn [world trace].
    destruct (Htick (set_heartbeatAckReceived true w1) Hws Hlive eq_refl)
      as (tr3 & E3 & Hc3).
    rewrite E3. cbn. rewrite !List.filter_app, Hc1, Hc3. cbn. auto.
  - cbn [run]. rewrite E1. cbn [world trace].
    pose proof (Hzombie w1 Hws Hlive eq_refl) as Hz.
    destruct (step parse throws (HeartbeatTick tid) w1) as [c2 w2 tr2].
    cbn in Hz. subst tr2. cbn.
    rewrite List.filter_app, Hc1. reflexivity.
Qed.

(** *** Closes the client did not ask for *)

Arguments Z.eqb : simpl never.

Lemma bind_normal {A B : Type} (m : M A) (f : A -> M B) (w w1 : World)
    (a : A) (tr1 : list Effect) :
  m w = mkOut (Normal a) w1 tr1 ->
  bind m f w =
  match f a w1 with
  | mkOut c w2 tr2 => mkOut c w2 (tr1 ++ tr2)
  end.
Proof. intros H. unfold bind. rewrite H. reflexivity. Qed.

Lemma bind_throw {A B : Type} (m : M A) (f : A -> M B) (w w1 : World)
    (tr1 : list Effect) :
  m w = mkOut Throw w1 tr1 -> bind m f w = mkOut Throw w1 tr1.
Proof. intros H. unfold bind. rewrite H. reflexivity. Qed.

Lemma bind_read {A B : Type} (g : World -> A) (f : A -> M B) (w : World) :
  bind (read g) f w = f (g w) w.
Proof. unfold bind, read. destruct (f (g w) w). reflexivity. Qed.

Lemma bind_modify {B : Type} (g : World -> World) (f : unit -> M B) (w : World) :
  bind (modify g) f w = f tt (g w).
Proof. unfold bind, modify. destruct (f tt (g w)). reflexivity. Qed.

Lemma sent_frames_app (tr1 tr2 : list Effect) :
  sent_frames (tr1 ++ tr2) = sent_frames tr1 ++ sent_frames tr2.
Proof.
  induction tr1 as [|e tr1 IH]; [reflexivity|].
  destruct e; cbn; rewrite ?IH; reflexivity.
Qed.

Lemma listener_trace_sent (v : json) (tr : list Effect) :
  listener_trace v tr -> sent_frames tr = [].
Proof.
  intros [H _]. induction H as [|e tr He _ IH]; [reflexivity|].
  destruct e; cbn in *; try contradiction; exact IH.
Qed.

Lemma mem_nat_last (n : nat) (l : list nat) : mem_nat n (l ++ [n]) = true.
Proof.
  unfold mem_nat. rewrite existsb_app. cbn. rewrite Nat.eqb_refl.
  rewrite orb_true_r. reflexivity.
Qed.

(** What [cleanup] leaves of a client that has a socket. *)
Lemma cleanup_out (w : World) (id : nat) :
  ws w = Some id ->
  exists w1 tr,
    cleanup w = mkOut (Normal tt) w1 tr /\
    (started tr = [] /\ sent_frames tr = []) /\
    (heartbeatTimer w1 = None /\ ws w1 = Some id /\
     disposed w1 = disposed w /\ intentionalClose w1 = intentionalClose w) /\
    (reconnectTimer w1 = reconnectTimer w /\
     reconnectAttempts w1 = reconnectAttempts w /\
     next_timer w1 = next_timer w /\ timeouts w1 = timeouts w) /\
    (sessionId w1 = sessionId w /\ seq w1 = seq w) /\
    (length (sockets w1) = length (sockets w) /\ fetches w1 = fetches w).
Proof.
  intros Hws. unfold cleanup. destruct w; cbn in Hws; subst.
  crunch; eexists _, _; (split; [reflexivity|]); cbn;
    rewrite ?length_alter; repeat split.
Qed.

(** What [scheduleReconnect] does on a client that is not disposed. *)
Lemma scheduleReconnect_out (delayMs : option Z) (random : Q) (w : World) :
  disposed w = false ->
  exists w1 tr,
    scheduleReconnect delayMs random w = mkOut (Normal tt) w1 tr /\
    (started tr =
       [ESetTimeout (next_timer w)
          (backoff_delay delayMs (reconnectAttempts w) random)] /\
     sent_frames tr = []) /\
    (reconnectTimer w1 = Some (next_timer w) /\
     reconnectAttempts w1 = S (reconnectAttempts w) /\
     mem_nat (next_timer w) (timeouts w1) = true) /\
    (heartbeatTimer w1 = heartbeatTimer w /\ disposed w1 = disposed w) /\
    (sessionId w1 = sessionId w /\ seq w1 = seq w) /\
    (sockets w1 = sockets w /\ fetches w1 = fetches w).
Proof.
  intros Hd. unfold scheduleReconnect. destruct w; cbn in Hd; subst.
  crunch; eexists _, _; (split; [reflexivity|]); cbn;
    repeat split; apply mem_nat_last.
Qed.

(** The [onclose] callback of the current socket, for a close that was not
    intentional, once the subscribers of [close] have returned. *)
Lemma on_close_unexpected
    (w : World) (id : nat) (code : Z) (reason : string) (random : Q) :
  disposed w = false ->
  ws w = Some id ->
  intentionalClose w = false ->
  completion (on_close throws id code reason random w) = Normal tt ->
  let o := on_close throws id code reason random w in
  let delayMs :=
    if Z.eqb code CLOSE_INVALID_TOKEN then None
    else if Z.eqb code CLOSE_RATE_LIMITED then Some RATE_LIMIT_WAIT_MS
    else None in
  (started (trace o) =
     [ESetTimeout (next_timer w)
        (backoff_delay delayMs (reconnectAttempts w) random)] /\
   sent_frames (trace o) = []) /\
  (reconnectTimer (world o) = Some (next_timer w) /\
   reconnectAttempts (world o) = S (reconnectAttempts w) /\
   mem_nat (next_timer w) (timeouts (world o)) = true) /\
  (heartbeatTimer (world o) = None /\ disposed (world o) = false) /\
  (sessionId (world o) =
     (if Z.eqb code CLOSE_INVALID_TOKEN then JNull else sessionId w) /\
   seq (world o) = (if Z.eqb code CLOSE_INVALID_TOKEN then JNull else seq w)) /\
  (length (sockets (world o)) = length (sockets w) /\
   fetches (world o) = fetches w).
Proof.
  intros Hd Hws Hint Hc o delayMs. subst o delayMs. revert Hc.
  destruct (cleanup_out w id Hws)
    as (w1 & tr1 & E1 & (S1 & F1) & (H1 & W1 & D1 & I1) & (R1 & A1 & N1 & T1)
        & (Ss1 & Sq1) & (L1 & P1)).
  rewrite Hd in D1. rewrite Hint in I1.
  unfold on_close. rewrite (bind_normal _ _ _ _ _ _ E1). cbn beta.
  rewrite bind_read. cbn beta. rewrite bind_read. cbn beta.
  rewrite D1, W1. unfold same_socket. rewrite Nat.eqb_refl. cbn [orb negb].
  cbn iota.
  destruct (emit_out "close" (Some (close_event code reason)) w1)
    as (c & tr & Ee & Htr).
  destruct c as [[]|];
    [|rewrite (bind_throw _ _ _ _ _ Ee); cbn; intros Hc; discriminate Hc].
  rewrite (bind_normal _ _ _ _ _ _ Ee). cbn beta.
  rewrite bind_read. cbn beta. rewrite I1. cbn iota.
  assert (Hfin : forall (dm : option Z) (w2 : World),
    disposed w2 = false ->
    reconnectAttempts w2 = reconnectAttempts w ->
    next_timer w2 = next_timer w ->
    heartbeatTimer w2 = None ->
    length (sockets w2) = length (sockets w) ->
    fetches w2 = fetches w ->
    exists w3 tr3,
      scheduleReconnect dm random w2 = mkOut (Normal tt) w3 tr3 /\
      (started (tr1 ++ tr ++ tr3) =
         [ESetTimeout (next_timer w) (backoff_delay dm (reconnectAttempts w) random)] /\
       sent_frames (tr1 ++ tr ++ tr3) = []) /\
      (reconnectTimer w3 = Some (next_timer w) /\
       reconnectAttempts w3 = S (reconnectAttempts w) /\
       mem_nat (next_timer w) (timeouts w3) = true) /\
      (heartbeatTimer w3 = None /\ disposed w3 = false) /\
      (sessionId w3 = sessionId w2 /\ seq w3 = seq w2) /\
      (length (sockets w3) = length (sockets w) /\ fetches w3 = fetches w)).
  { intros dm w2 D2 A2 N2 H2 L2 P2.
    destruct (scheduleReconnect_out dm random w2 D2)
      as (w3 & tr3 & E3 & (S3 & F3) & (R3 & A3 & M3) & (H3 & D3) & Hs3 & (K3 & P3)).
    exists w3, tr3. split; [exact E3|].
    rewrite !started_app, !sent_frames_app, S1, F1, S3, F3.
    rewrite (listener_trace_started _ _ Htr), (listener_trace_sent _ _ Htr).
    rewrite A2, N2 in *. rewrite H3, D3, K3, P3.
    destruct Hs3 as [Hs3 Hq3]. repeat split; auto. }
  destruct (Z.eqb code CLOSE_INVALID_TOKEN).
  - destruct (Hfin None (set_seq JNull (set_sessionId JNull w1)))
      as (w3 & tr3 & E3 & Ht & Hr & Hh & (Hs & Hq) & Hl); try assumption.
    rewrite (bind_normal clear_session _ w1
               (set_seq JNull (set_sessionId JNull w1)) tt [] eq_refl).
    cbn beta. rewrite E3. cbn.
    intros _. rewrite Hs, Hq.
    repeat split; try apply Ht; try apply Hr; try apply Hh; try apply Hl.
  - destruct (Z.eqb code CLOSE_RATE_LIMITED).
    + destruct (Hfin (Some RATE_LIMIT_WAIT_MS) w1)
        as (w3 & tr3 & E3 & Ht & Hr & Hh & (Hs & Hq) & Hl); try assumption.
      rewrite E3. cbn. intros _. rewrite Hs, Hq, Ss1, Sq1.
      repeat split; try apply Ht; try apply Hr; try apply Hh; try apply Hl.
    + destruct (Hfin None w1)
        as (w3 & tr3 & E3 & Ht & Hr & Hh & (Hs & Hq) & Hl); try assumption.
      rewrite E3. cbn. intros _. rewrite Hs, Hq, Ss1, Sq1.
      repeat split; try apply Ht; try apply Hr; try apply Hh; try apply Hl.
Qed.

Lemma step_close (w : World) (id : nat) (code : Z) (reason : string) (random : Q) :
  is_wired id w = true ->
  step parse throws (SockClose id code reason random) w =
  on_close throws id code reason random (update_socket id (set_ready CLOSED) w).
Proof.
  intros H. unfold step. rewrite bind_modify. cbn beta.
  rewrite bind_read. cbn beta. rewrite is_wired_closed, H. reflexivity.
Qed.

(** The same for the close event of the current socket. *)
Lemma unexpected_close_out
    (w : World) (id : nat) (code : Z) (reason : string) (random : Q) :
  disposed w = false ->
  ws w = Some id ->
  is_wired id w = true ->
  intentionalClose w = false ->
  completion (step parse throws (SockClose id code reason random) w) = Normal tt ->
  let o := step parse throws (SockClose id code reason random) w in
  let delayMs :=
    if Z.eqb code CLOSE_INVALID_TOKEN then None
    else if Z.eqb code CLOSE_RATE_LIMITED then Some RATE_LIMIT_WAIT_MS
    else None in
  (started (trace o) =
     [ESetTimeout (next_timer w)
        (backoff_delay delayMs (reconnectAttempts w) random)] /\
   sent_frames (trace o) = []) /\
  (reconnectTimer (world o) = Some (next_timer w) /\
   reconnectAttempts (world o) = S (reconnectAttempts w) /\
   mem_nat (next_timer w) (timeouts (world o)) = true) /\
  (heartbeatTimer (world o) = None /\ disposed (world o) = false) /\
  (sessionId (world o) =
     (if Z.eqb code CLOSE_INVALID_TOKEN then JNull else sessionId w) /\
   seq (world o) = (if Z.eqb code CLOSE_INVALID_TOKEN then JNull else seq w)) /\
  (length (sockets (world o)) = length (sockets w) /\
   fetches (world o) = fetches w).
Proof.
  intros Hd Hws Hwired Hint Hc o delayMs. subst o delayMs.
  rewrite (step_close w id code reason random Hwired) in *.
  set (w0 := update_socket id (set_ready CLOSED) w) in *.
  pose proof (on_close_unexpected w0 id code reason random Hd Hws Hint Hc) as H.
  cbv zeta in H.
  assert (L0 : length (sockets w0) = length (sockets w)).
  { unfold w0, update_socket. cbn. apply length_alter. }
  rewrite L0 in H. exact H.
Qed.

(** X14. When the current socket of a client that is not disposed closes
    with any code but 4008 and the close was not intentional, then, once
    the subscribers of [close] have returned, the heartbeat is stopped and
    exactly one timer is started: the reconnect timeout at the default
    backoff of the current attempt count, which is then incremented.  Code
    4004 clears the session first, so that the next Hello is answered with
    an Identify; every other code keeps the session and the sequence
    number for a Resume. *)
Theorem unexpected_close_schedules_backoff
    (w : World) (id : nat) (code : Z) (reason : string) (random : Q) :
  disposed w = false ->
  ws w = Some id ->
  is_wired id w = true ->
  intentionalClose w = false ->
  code <> CLOSE_RATE_LIMITED ->
  completion (step parse throws (SockClose id code reason random) w) = Normal tt ->
  let o := step parse throws (SockClose id code reason random) w in
  started (trace o) =
    [ESetTimeout (next_timer w)
       (backoff_delay None (reconnectAttempts w) random)] /\
  reconnectTimer (world o) = Some (next_timer w) /\
  reconnectAttempts (world o) = S (reconnectAttempts w) /\
  heartbeatTimer (world o) = None /\
  (if Z.eqb code CLOSE_INVALID_TOKEN
   then sessionId (world o) = JNull /\ seq (world o) = JNull
   else sessionId (world o) = sessionId w /\ seq (world o) = seq w).
Proof.
  intros Hd Hws Hwired Hint Hcode Hc o.
  destruct (unexpected_close_out w id code reason random Hd Hws Hwired Hint Hc)
    as ((Hs & _) & (Hr & Ha & _) & (Hh & _) & Hsess & _).
  fold o in Hs, Hr, Ha, Hh, Hsess.
  apply Z.eqb_neq in Hcode. rewrite Hcode in Hs.
  split; [|split; [exact Hr|split; [exact Ha|split; [exact Hh|]]]].
  - destruct (Z.eqb code CLOSE_INVALID_TOKEN); exact Hs.
  - destruct (Z.eqb code CLOSE_INVALID_TOKEN); exact Hsess.
Qed.

(** A close of the current socket after [intentionalClose] was set stops
    the heartbeat and schedules nothing. *)
Lemma intentional_close_quiet
    (w : World) (id : nat) (code : Z) (reason : string) (random : Q) :
  ws w = Some id ->
  is_wired id w = true ->
  intentionalClose w = true ->
  let o := step parse throws (SockClose id code reason random) w in
  started (trace o) = [] /\
  heartbeatTimer (world o) = None /\
  reconnectTimer (world o) = reconnectTimer w /\
  timeouts (world o) = timeouts w.
Proof.
  intros Hws Hwired Hint o. subst o.
  unfold step. mcbn. rewrite is_wired_closed, Hwired. cbn. clear Hwired.
  destruct w; cbn in *; subst.
  crunch; repeat split; try reflexivity; started_calc Htr.
Qed.

(** X15. Without a token the client gives up instead of looping.  When
    the token fetch of a Hello comes back with [null] or the empty string,
    nothing is written to the socket; the socket is closed with code 4000
    and the close is marked intentional, so that when the close event of
    that socket arrives, whatever its code, no reconnect is scheduled and
    the heartbeat that the Hello had started is stopped. *)
Theorem no_token_closes_without_reconnect
    (w : World) (k id : nat) (data : HelloData) (token : option string)
    (code : Z) (reason : string) (random : Q) :
  disposed w = false ->
  pending k w = Some data ->
  ws w = Some id ->
  is_wired id w = true ->
  no_token token = true ->
  let o1 := step parse throws (TokenResolved k token) w in
  let o2 := step parse throws (SockClose id code reason random) (world o1) in
  (sent_frames (trace o1) = [] /\
   List.filter is_close (trace o1) = [ESockClose id 4000] /\
   intentionalClose (world o1) = true) /\
  (started (trace o2) = [] /\
   heartbeatTimer (world o2) = None /\
   reconnectTimer (world o2) = reconnectTimer w).
Proof.
  intros Hd Hp Hws Hwired Htok o1 o2.
  assert (H1 : sent_frames (trace o1) = [] /\
               List.filter is_close (trace o1) = [ESockClose id 4000] /\
               intentionalClose (world o1) = true /\
               ws (world o1) = Some id /\
               is_wired id (world o1) = is_wired id w /\
               reconnectTimer (world o1) = reconnectTimer w).
  { subst o1 o2. unfold step. mcbn. rewrite Hp. mcbn.
    unfold handleHello_resume. rewrite Htok. clear Hp Hwired.
    unfold is_wired.
    destruct w; cbn in *; subst.
    crunch; repeat split; try reflexivity.
    all: repeat match goal with
         | H : alter _ ?i _ !! ?i = _ |- _ => rewrite list_lookup_alter_eq in H
         end;
         repeat match goal with
         | H1 : ?l !! ?i = _, H2 : context [?l !! ?i] |- _ => rewrite H1 in H2
         end;
         cbn in *; try congruence.
    all: match goal with
         | H : Some (closing ?a) = Some ?b |- _ =>
             injection H as <-; rewrite ?wired_closing; reflexivity
         end. }
  destruct H1 as (Hs & Hc & Hi & Hw1 & Hwd & Hr).
  split; [auto|].
  rewrite Hwired in Hwd.
  destruct (intentional_close_quiet (world o1) id code reason random Hw1 Hwd Hi)
    as (Ha & Hb & Hc' & _).
  fold o2 in Ha, Hb, Hc'. rewrite Hc' , Hr. auto.
Qed.

(** *** READY and the session *)

Lemma guarded_session (sid sq : json) (w : World) :
  guarded throws w -> guarded throws (set_sessionId sid (set_seq sq w)).
Proof. intros H. exact H. Qed.

(** X16. A READY dispatch that carries a session id and a sequence number
    stores both before any subscriber runs, so that the next Hello is
    answered with a Resume for that session, also when a subscriber
    throws.  When no subscriber can throw out of the emission, the
    subscribers of [open] are called first, then those of [READY], each
    once, with the payload of the frame. *)
Theorem ready_stores_session
    (w : World) (id : nat) (raw : string) (j sid sq : json) :
  disposed w = false ->
  is_wired id w = true ->
  parse raw = Some j ->
  isFrame (Some j) = true ->
  Qeq_bool (op (as_frame j)) OP_DISPATCH = true ->
  t (as_frame j) = Some (JStr "READY") ->
  s (as_frame j) = Some sq -> sq <> JNull ->
  field_of "session_id" (d (as_frame j)) = Some sid -> truthy sid = true ->
  let o := step parse throws (SockMessage id raw) w in
  (sessionId (world o) = sid /\ seq (world o) = sq /\
   forall tok, hello_frame tok (world o) = resume_frame tok sid sq) /\
  (guarded throws w ->
   completion o = Normal tt /\
   invoked (trace o) = handlers_of "open" w ++ handlers_of "READY" w).
Proof.
  intros Hd Hwired Hp Hf Hop Ht Hs Hsq Hsid Htruthy o.
  assert (H10 : Qeq_bool (op (as_frame j)) OP_HELLO = false)
    by (apply (Qeq_bool_other _ _ _ Hop); reflexivity).
  assert (Hrd : isReadyData (d (as_frame j)) = true).
  { destruct (d (as_frame j)) as [[]|]; cbn in Hsid; try discriminate; reflexivity. }
  assert (Ho : o = handleDispatch throws (as_frame j) w).
  { unfold o. rewrite step_message by exact Hwired.
    rewrite (handleMessage_frame w raw j Hd Hp Hf). cbn zeta.
    rewrite H10, Hop. reflexivity. }
  rewrite Ho. clear Ho o.
  unfold handleDispatch.
  rewrite Hs, Ht, Hrd, Hsid, (not_nullish_value sq Hsq).
  change (is_READY (Some (JStr "READY"))) with true.
  change (truthy_opt (Some (JStr "READY"))) with true.
  change (truthy_opt (Some sid)) with (truthy sid). rewrite Htruthy.
  change (value_of (Some sq)) with sq. change (value_of (Some sid)) with sid.
  change (emit_t throws (Some (JStr "READY"))) with (emit throws "READY").
  mcbn.
  set (w' := set_sessionId sid (set_seq sq w)).
  split.
  - destruct (emit_out "open" (d (as_frame j)) w') as (c1 & tr1 & -> & _).
    assert (Hw' : sessionId w' = sid /\ seq w' = sq /\
                  forall tok, hello_frame tok w' = resume_frame tok sid sq).
    { split; [reflexivity|]. split; [reflexivity|]. intros tok.
      unfold hello_frame. change (sessionId w') with sid.
      change (seq w') with sq. rewrite Htruthy.
      destruct sq; try reflexivity. congruence. }
    destruct c1 as [[]|]; cbn; [|exact Hw'].
    destruct (emit_out "READY" (d (as_frame j)) w') as (c2 & tr2 & -> & _).
    destruct c2 as [[]|]; cbn; exact Hw'.
  - intros Hg.
    destruct (emit_guarded "open" (d (as_frame j)) w' (guarded_session sid sq w Hg))
      as (tr1 & -> & Hi1 & _).
    destruct (emit_guarded "READY" (d (as_frame j)) w' (guarded_session sid sq w Hg))
      as (tr2 & -> & Hi2 & _).
    cbn. split; [reflexivity|].
    rewrite invoked_app, Hi1, Hi2. reflexivity.
Qed.

(** *** Reconnects the server asks for *)

(** X17. A Reconnect frame (op 7) and an Invalid-Session frame (op 9)
    both make the client close its current socket with code 4000 and do
    nothing else to the outside: nothing is sent, no timer is touched, no
    subscriber is called.  Reconnect leaves the client as it was apart from
    the closing socket; Invalid Session keeps the session and the sequence
    number when its payload is truthy (resumable) and sets both to [null]
    when it is not, so that the next Hello is answered with an Identify. *)
Theorem server_reconnect_request
    (w : World) (id : nat) (raw : string) (j : json) :
  disposed w = false ->
  ws w = Some id ->
  is_wired id w = true ->
  parse raw = Some j ->
  isFrame (Some j) = true ->
  Qeq_bool (op (as_frame j)) OP_RECONNECT = true \/
  Qeq_bool (op (as_frame j)) OP_INVALID_SESSION = true ->
  let o := step parse throws (SockMessage id raw) w in
  let resumable :=
    Qeq_bool (op (as_frame j)) OP_RECONNECT || truthy_opt (d (as_frame j)) in
  trace o = [ESockClose id 4000] /\
  world o =
    update_socket id closing
      (if resumable then w else set_seq JNull (set_sessionId JNull w)) /\
  (forall tok, resumable = false -> hello_frame tok (world o) = identify_frame tok).
Proof.
  intros Hd Hws Hwired Hp Hf Hop o resumable.
  assert (Ho : o = ((if Qeq_bool (op (as_frame j)) OP_RECONNECT
                     then close_current 4000
                     else when (negb (truthy_opt (d (as_frame j)))) clear_session ;;
                          close_current 4000) w)).
  { unfold o. rewrite step_message by exact Hwired.
    rewrite (handleMessage_frame w raw j Hd Hp Hf). cbn zeta.
    destruct Hop as [Hop|Hop].
    - rewrite (Qeq_bool_other _ _ OP_HELLO Hop) by reflexivity.
      rewrite (Qeq_bool_other _ _ OP_DISPATCH Hop) by reflexivity.
      rewrite (Qeq_bool_other _ _ OP_HEARTBEAT_ACK Hop) by reflexivity.
      rewrite Hop. reflexivity.
    - rewrite (Qeq_bool_other _ _ OP_HELLO Hop) by reflexivity.
      rewrite (Qeq_bool_other _ _ OP_DISPATCH Hop) by reflexivity.
      rewrite (Qeq_bool_other _ _ OP_HEARTBEAT_ACK Hop) by reflexivity.
      rewrite (Qeq_bool_other _ _ OP_RECONNECT Hop) by reflexivity.
      rewrite Hop. reflexivity. }
  rewrite Ho. clear Ho o. subst resumable.
  destruct (Qeq_bool (op (as_frame j)) OP_RECONNECT); cbn [orb].
  - unfold close_current, sock_close. mcbn. rewrite Hws. cbn.
    repeat split. intros tok H. discriminate H.
  - unfold close_current, sock_close, clear_session. mcbn.
    destruct (truthy_opt (d (as_frame j))); cbn; rewrite Hws; cbn.
    + repeat split. intros tok H. discriminate H.
    + repeat split.
Qed.

(** *** Reconnecting *)

Lemma run_cons (ev : Event) (evs : list Event) (w : World) :
  run parse throws (ev :: evs) w =
  (fst (run parse throws evs (world (step parse throws ev w))),
   trace (step parse throws ev w) ++
   snd (run parse throws evs (world (step parse throws ev w)))).
Proof.
  cbn [run]. destruct (run parse throws evs _). reflexivity.
Qed.

Lemma lookup_new (f : Socket -> Socket) (l l0 : list Socket) (sk : Socket) :
  length l = length l0 ->
  alter f (length l) (l ++ [sk]) !! length l0 = Some (f sk).
Proof.
  intros <-. rewrite list_lookup_alter_eq, list_lookup_middle by reflexivity.
  reflexivity.
Qed.

(** [connect]: the new socket is the current one and has its callbacks. *)
Lemma connect_new_socket (w : World) :
  disposed w = false ->
  let o := connect w in
  let id' := length (sockets w) in
  sent_frames (trace o) = [] /\
  disposed (world o) = false /\
  ws (world o) = Some id' /\
  sockets (world o) !! id' =
    Some (mkSocket (deriveWsUrl (baseUrl w)) CONNECTING true) /\
  fetches (world o) = fetches w /\
  sessionId (world o) = sessionId w /\
  seq (world o) = seq w.
Proof.
  intros Hd o id'. subst o id'. unfold connect.
  destruct w; cbn in *; subst.
  crunch.
  all: repeat split; try reflexivity.
  all: first [ apply lookup_new; rewrite ?length_alter; reflexivity
             | rewrite ?length_alter; reflexivity ].
Qed.

Lemma step_reconnect_fire (tid : nat) (w : World) :
  mem_nat tid (timeouts w) = true ->
  step parse throws (ReconnectFire tid) w =
  connect (set_timeouts (remove_nat tid (timeouts w)) w).
Proof.
  intros H. unfold step. mcbn. rewrite H. cbn.
  destruct (connect _) as [[[]|] w' tr]; reflexivity.
Qed.

(** The socket made by [connect] opens. *)
Lemma open_new_socket (w : World) (id : nat) (url : string) :
  ws w = Some id ->
  sockets w !! id = Some (mkSocket url CONNECTING true) ->
  let o := step parse throws (SockOpen id) w in
  trace o = [] /\
  disposed (world o) = disposed w /\
  current_open (world o) = true /\
  is_wired id (world o) = true /\
  fetches (world o) = fetches w /\
  sessionId (world o) = sessionId w /\
  seq (world o) = seq w /\
  reconnectAttempts (world o) = 0.
Proof.
  intros Hws Hsk o. subst o. unfold step, on_open. mcbn.
  unfold is_wired, current_open, ready_of, update_socket. cbn.
  rewrite list_lookup_alter_eq, Hsk. cbn.
  rewrite Hws, list_lookup_alter_eq, Hsk. cbn. repeat split.
Qed.

Lemma hello_begins_fetch (w : World) (id : nat) (raw : string) (j : json) :
  disposed w = false ->
  is_wired id w = true ->
  parse raw = Some j ->
  isFrame (Some j) = true ->
  Qeq_bool (op (as_frame j)) OP_HELLO = true ->
  isHelloData (d (as_frame j)) = true ->
  step parse throws (SockMessage id raw) w =
  mkOut (Normal tt)
    (set_fetches (fetches w ++ [Some (as_hello (d (as_frame j)))]) w)
    [EGetToken (length (fetches w))].
Proof.
  intros Hd Hwired Hp Hf Hop Hh.
  rewrite step_message by exact Hwired.
  rewrite (handleMessage_frame w raw j Hd Hp Hf). cbn zeta.
  rewrite Hop, Hh. reflexivity.
Qed.

Lemma current_open_settle (k : nat) (w : World) :
  current_open (settle k w) = current_open w.
Proof. reflexivity. Qed.

(** X18. The session survives a lost connection.  When the current socket
    closes without the client having asked for it, the reconnect timer
    fires, the new socket opens, the server says Hello and the token
    arrives, then the one frame written in all of this goes out after the
    Hello and is a Resume with the session id and sequence number held
    before the close; except that after close code 4004 (invalid token),
    and when there was no session, it is an Identify. *)
Theorem session_resumed_after_reconnect
    (w : World) (id : nat) (code : Z) (reason : string) (random : Q)
    (raw : string) (j : json) (tok : string) :
  disposed w = false ->
  ws w = Some id ->
  is_wired id w = true ->
  intentionalClose w = false ->
  completion (step parse throws (SockClose id code reason random) w) = Normal tt ->
  parse raw = Some j ->
  isFrame (Some j) = true ->
  Qeq_bool (op (as_frame j)) OP_HELLO = true ->
  isHelloData (d (as_frame j)) = true ->
  tok <> "" ->
  let id' := length (sockets w) in
  let before_hello :=
    [SockClose id code reason random; ReconnectFire (next_timer w);
     SockOpen id'; SockMessage id' raw] in
  let w4 := fst (run parse throws before_hello w) in
  sent_frames (snd (run parse throws before_hello w)) = [] /\
  sent_frames
    (trace (step parse throws (TokenResolved (length (fetches w)) (Some tok)) w4)) =
  [if Z.eqb code CLOSE_INVALID_TOKEN then identify_frame tok
   else hello_frame tok w].
Proof.
  intros Hd Hws Hwired Hint Hc Hp Hf Hop Hh Htok id' before w4.
  destruct (unexpected_close_out w id code reason random Hd Hws Hwired Hint Hc)
    as ((_ & T1) & (_ & _ & M1) & (_ & D1) & (S1 & Q1) & (L1 & F1)).
  set (w1 := world (step parse throws (SockClose id code reason random) w)) in *.
  pose proof (step_reconnect_fire (next_timer w) w1 M1) as E2.
  set (w1' := set_timeouts (remove_nat (next_timer w) (timeouts w1)) w1) in *.
  destruct (connect_new_socket w1' D1) as (T2 & D2 & W2 & K2 & F2 & S2 & Q2).
  rewrite <- E2 in T2, D2, W2, K2, F2, S2, Q2.
  set (w2 := world (step parse throws (ReconnectFire (next_timer w)) w1)) in *.
  change (length (sockets w1')) with (length (sockets w1)) in W2, K2.
  rewrite L1 in W2, K2. fold id' in W2, K2.
  destruct (open_new_socket w2 id' _ W2 K2)
    as (T3 & D3 & O3 & I3 & F3 & S3 & Q3 & _).
  set (w3 := world (step parse throws (SockOpen id') w2)) in *.
  rewrite D2 in D3.
  pose proof (hello_begins_fetch w3 id' raw j D3 I3 Hp Hf Hop Hh) as E4.
  assert (Hk : length (fetches w3) = length (fetches w)).
  { rewrite F3, F2. change (fetches w1') with (fetches w1). rewrite F1. reflexivity. }
  assert (Hrun : run parse throws before w =
                 (set_fetches (fetches w3 ++ [Some (as_hello (d (as_frame j)))]) w3,
                  trace (step parse throws (SockClose id code reason random) w) ++
                  trace (step parse throws (ReconnectFire (next_timer w)) w1) ++
                  trace (step parse throws (SockOpen id') w2) ++
                  [EGetToken (length (fetches w3))] ++ [])).
  { unfold before. rewrite !run_cons. fold w1. fold w2. fold w3.
    rewrite E4. reflexivity. }
  subst w4. rewrite Hrun. cbn [fst snd]. split.
  - rewrite !sent_frames_app, T1, T2, T3. reflexivity.
  - set (data := as_hello (d (as_frame j))).
    set (w4 := set_fetches (fetches w3 ++ [Some data]) w3).
    assert (Hpend : pending (length (fetches w)) w4 = Some data).
    { rewrite <- Hk. apply pending_new. }
    rewrite (step_TokenResolved _ _ data w4 Hpend).
    rewrite handleHello_resume_sent by assumption.
    rewrite current_open_settle. change (current_open w4) with (current_open w3).
    rewrite O3. f_equal. unfold hello_frame.
    change (sessionId (settle _ w4)) with (sessionId w3).
    change (seq (settle _ w4)) with (seq w3).
    rewrite S3, S2, Q3, Q2.
    change (sessionId w1') with (sessionId w1). change (seq w1') with (seq w1).
    rewrite S1, Q1.
    destruct (Z.eqb code CLOSE_INVALID_TOKEN); reflexivity.
Qed.

(** *** Connecting *)

Lemma construct_baseUrl (url : string) : baseUrl (construct url) = url.
Proof. reflexivity. Qed.

Lemma emit_baseUrl (event : string) (data : option json) (w : World) :
  baseUrl (world (emit throws event data w)) = baseUrl w.
Proof.
  destruct (emit_out event data w) as (c & tr & -> & _). reflexivity.
Qed.

(** No event changes the base URL. *)
Lemma step_baseUrl (ev : Event) (w : World) :
  baseUrl (world (step parse throws ev w)) = baseUrl w.
Proof.
  destruct w. destruct ev; crunch; reflexivity.
Qed.

(** X19. [connect] on a client that is not disposed creates exactly one
    socket, for the address derived from the base URL, makes it the
    current one and installs its callbacks; it cancels a pending reconnect
    and clears the intentional-close mark; and if there was a socket
    already, that one is closed with code 1000 and the heartbeat is
    stopped. *)
Theorem connect_replaces_socket (url : string) (evs : list Event) :
  let w := fst (run parse throws evs (construct url)) in
  let o := step parse throws Connect w in
  let id' := length (sockets w) in
  disposed w = false ->
  completion o = Normal tt /\
  started (trace o) = [ENewSocket id' (deriveWsUrl url)] /\
  (ws (world o) = Some id' /\
   sockets (world o) !! id' = Some (mkSocket (deriveWsUrl url) CONNECTING true)) /\
  (intentionalClose (world o) = false /\
   reconnectTimer (world o) = None /\ timeouts (world o) = [] /\
   heartbeatTimer (world o) = None /\ intervals (world o) = []) /\
  List.filter is_close (trace o) =
    match ws w with
    | Some id => [ESockClose id 1000]
    | None => []
    end.
Proof.
  intros w o id' Hd.
  pose proof (reachable_Inv url evs) as [_ Hi Hs].
  pose proof (reachable_Live url evs) as [_ _ Ht].
  assert (Hb : baseUrl w = url).
  { unfold w. clear. generalize (construct_baseUrl url).
    generalize (construct url). induction evs as [|ev evs IH]; intros w0 H0.
    - exact H0.
    - rewrite run_cons. cbn [fst]. apply IH. rewrite step_baseUrl. exact H0. }
  fold w in Hi, Hs, Ht. subst o id'. rewrite <- Hb.
  revert Hd Hi Hs Ht. generalize w. clear w Hb. intros w Hd Hi Hs Ht.
  unfold step, connect. unfold heartbeat_list in Hi.
  destruct w; cbn in *; subst.
  destruct Ht as [->|(t0 & -> & ->)];
    crunch; try discriminate;
    try (destruct (Hs eq_refl) as [E _]; discriminate E);
    repeat split; try reflexivity;
    try (apply lookup_new; rewrite ?length_alter; reflexivity);
    rewrite ?length_alter; try reflexivity; apply remove_nat_single.
Qed.

(** X20. The backoff starts over once a socket has opened: when the
    socket that [connect] made opens and is then lost (any code but 4008,
    not intentional, the subscribers of [close] return), the reconnect is
    scheduled as a first attempt, between 500 and 1500 ms later, whatever
    the attempt count was before the socket opened. *)
Theorem open_resets_backoff
    (w : World) (id : nat) (code : Z) (reason : string) (random : Q) :
  disposed w = false ->
  ws w = Some id ->
  is_wired id w = true ->
  intentionalClose w = false ->
  code <> CLOSE_RATE_LIMITED ->
  (0 <= random)%Q -> (random < 1)%Q ->
  let w1 := world (step parse throws (SockOpen id) w) in
  let o := step parse throws (SockClose id code reason random) w1 in
  completion o = Normal tt ->
  reconnectAttempts w1 = 0 /\
  started (trace o) = [ESetTimeout (next_timer w) (backoff_delay None 0 random)] /\
  (500 <= backoff_delay None 0 random <= 1500)%Z /\
  reconnectAttempts (world o) = 1.
Proof.
  intros Hd Hws Hwired Hint Hcode H0 H1 w1 o Hc.
  assert (E1 : step parse throws (SockOpen id) w =
               mkOut (Normal tt)
                 (set_reconnectAttempts 0 (update_socket id opened w)) []).
  { unfold step. rewrite bind_modify. cbn beta. rewrite bind_read. cbn beta.
    assert (Hw : is_wired id (update_socket id opened w) = true).
    { revert Hwired. unfold is_wired, update_socket. cbn.
      rewrite list_lookup_alter_eq.
      destruct (sockets w !! id) as [sk|]; cbn; [|discriminate].
      rewrite wired_opened. auto. }
    rewrite Hw. reflexivity. }
  assert (Ew : w1 = set_reconnectAttempts 0 (update_socket id opened w)).
  { unfold w1. rewrite E1. reflexivity. }
  assert (Hwired1 : is_wired id w1 = true).
  { rewrite Ew. revert Hwired. unfold is_wired, update_socket. cbn.
    rewrite list_lookup_alter_eq.
    destruct (sockets w !! id) as [sk|]; cbn; [|discriminate].
    rewrite wired_opened. auto. }
  assert (Hd1 : disposed w1 = false) by (rewrite Ew; exact Hd).
  assert (Hws1 : ws w1 = Some id) by (rewrite Ew; exact Hws).
  assert (Hint1 : intentionalClose w1 = false) by (rewrite Ew; exact Hint).
  destruct (unexpected_close_out w1 id code reason random Hd1 Hws1 Hwired1 Hint1 Hc)
    as ((Hs & _) & (_ & Ha & _) & _).
  fold o in Hs, Ha.
  apply Z.eqb_neq in Hcode. rewrite Hcode in Hs.
  assert (Hn : next_timer w1 = next_timer w) by (rewrite Ew; reflexivity).
  assert (Hz : reconnectAttempts w1 = 0) by (rewrite Ew; reflexivity).
  rewrite Hn, Hz in Hs. rewrite Hz in Ha.
  split; [exact Hz|]. split.
  - destruct (Z.eqb code CLOSE_INVALID_TOKEN); exact Hs.
  - split; [|exact Ha].
    apply (jitter_bounds 500 random); [split; [lia|vm_compute; discriminate]|exact H0|exact H1].
Qed.

(** X21. The base of the default backoff doubles from 1000 ms with every
    attempt and stays at 30000 ms from the sixth attempt on; it never
    decreases with the attempt count. *)
Theorem backoff_base_schedule (n : nat) :
  (n <= 4 -> backoff_base None n = (1000 * 2 ^ Z.of_nat n)%Z) /\
  (5 <= n -> backoff_base None n = 30000%Z) /\
  (backoff_base None n <= backoff_base None (S n))%Z /\
  (backoff_base None (S n) = Z.min (2 * backoff_base None n) 30000)%Z.
Proof.
  unfold backoff_base, MAX_BACKOFF_MS.
  assert (Hp : (0 < 2 ^ Z.of_nat n)%Z) by (apply Z.pow_pos_nonneg; lia).
  assert (Hs : (2 ^ Z.of_nat (S n) = 2 * 2 ^ Z.of_nat n)%Z).
  { rewrite Nat2Z.inj_succ, Z.pow_succ_r by lia. reflexivity. }
  rewrite Hs. repeat split.
  - intros Hn. apply Z.min_l.
    assert (2 ^ Z.of_nat n <= 2 ^ 4)%Z by (apply Z.pow_le_mono_r; lia).
    change (2 ^ 4)%Z with 16%Z in H. lia.
  - intros Hn. apply Z.min_r.
    assert (2 ^ 5 <= 2 ^ Z.of_nat n)%Z by (apply Z.pow_le_mono_r; lia).
    change (2 ^ 5)%Z with 32%Z in H. lia.
  - lia.
  - lia.
Qed.

(** *** Messages of a channel *)

Lemma strict_eq_sym (a b : option json) : strict_eq a b = strict_eq b a.
Proof.
  destruct a as [[]|], b as [[]|]; cbn; try reflexivity.
  - destruct b, b0; reflexivity.
  - destruct (Qeq_bool q q0) eqn:E, (Qeq_bool q0 q) eqn:E'; try reflexivity.
    + apply Qeq_bool_iff in E. symmetry in E. apply Qeq_bool_iff in E. congruence.
    + apply Qeq_bool_iff in E'. symmetry in E'. apply Qeq_bool_iff in E'. congruence.
  - apply String.eqb_sym.
Qed.

Lemma strict_eq_refl (a : option json) :
  is_primitive a = true -> strict_eq a a = true.
Proof.
  destruct a as [[]|]; cbn; intros H; try discriminate; try reflexivity.
  - destruct b; reflexivity.
  - apply Qeq_bool_iff. reflexivity.
  - apply String.eqb_refl.
Qed.

(** Two values equal to a third are equal to the same values. *)
Lemma strict_eq_trans (a b c : option json) :
  strict_eq a b = true -> strict_eq a c = strict_eq b c.
Proof.
  destruct a as [[]|], b as [[]|]; cbn; intros H; try discriminate;
    try reflexivity.
  - destruct b, b0; try discriminate; reflexivity.
  - apply Qeq_bool_iff in H. destruct c as [[]|]; cbn; try reflexivity.
    destruct (Qeq_bool q q1) eqn:E, (Qeq_bool q0 q1) eqn:E'; try reflexivity.
    + apply Qeq_bool_iff in E. rewrite H in E. apply Qeq_bool_iff in E. congruence.
    + apply Qeq_bool_iff in E'. rewrite <- H in E'. apply Qeq_bool_iff in E'. congruence.
  - apply String.eqb_eq in H. subst. reflexivity.
Qed.

Lemma existsb_same_id_false (data : option json) (l : list json) :
  existsb (same_id data) l = false <->
  Forall (fun m => strict_eq (field "id" m) (field_of "id" data) = false) l.
Proof.
  induction l as [|m l IH]; cbn.
  - split; [constructor|reflexivity].
  - rewrite orb_false_iff, IH. split.
    + intros [H1 H2]. constructor; assumption.
    + intros H. inversion H; subst. split; assumption.
Qed.

Lemma distinct_ids_filter (f : json -> bool) (l : list json) :
  distinct_ids l -> distinct_ids (List.filter f l).
Proof.
  induction l as [|m l IH]; cbn; [auto|].
  intros [H1 H2]. destruct (f m); cbn.
  - split; [|apply IH; exact H2].
    apply List.Forall_forall. intros m' Hin.
    apply List.filter_In in Hin. destruct Hin as [Hin _].
    exact (proj1 (List.Forall_forall _ _) H1 m' Hin).
  - apply IH. exact H2.
Qed.

Lemma distinct_ids_update (data : option json) (d : json) (l : list json) :
  field_of "id" data = field "id" d ->
  distinct_ids l ->
  distinct_ids (map (fun m => if same_id data m then d else m) l).
Proof.
  intros Hd. induction l as [|m l IH]; cbn; [auto|].
  intros [H1 H2]. split; [|apply IH; exact H2].
  apply List.Forall_forall. intros m' Hin.
  apply List.in_map_iff in Hin. destruct Hin as (m0 & <- & Hin).
  pose proof (proj1 (List.Forall_forall _ _) H1 m0 Hin) as H0.
  cbn beta in H0. unfold same_id. rewrite Hd.
  destruct (strict_eq (field "id" m0) (field "id" d)) eqn:E0;
    destruct (strict_eq (field "id" m) (field "id" d)) eqn:E.
  - exfalso. rewrite (strict_eq_trans _ _ (field "id" m) E0) in H0.
    rewrite strict_eq_sym in H0. congruence.
  - rewrite strict_eq_sym. exact E.
  - exact E0.
  - exact H0.
Qed.

(** X22. The three message handlers keep the ids of the list distinct:
    if no two messages of the list have the same id, this is so again after
    any [MESSAGE_CREATE], [MESSAGE_UPDATE] or [MESSAGE_DELETE] event,
    whatever its payload and channel. *)
Theorem message_ids_stay_distinct
    (channelId : option string) (data : option json) (prev : list json) :
  distinct_ids prev ->
  distinct_ids (on_message_create channelId data prev) /\
  distinct_ids (on_message_update channelId data prev) /\
  distinct_ids (on_message_delete channelId data prev).
Proof.
  intros H. split; [|split].
  - unfold on_message_create.
    destruct (negb (isMessage data)); [exact H|].
    destruct (negb (strict_eq _ _)); [exact H|].
    destruct (existsb (same_id data) prev) eqn:E; [exact H|].
    destruct data as [d|]; [|exact H].
    cbn. split; [|exact H].
    apply existsb_same_id_false in E. exact E.
  - unfold on_message_update.
    destruct (negb (isMessage data)); [exact H|].
    destruct (negb (strict_eq _ _)); [exact H|].
    destruct data as [d|]; [|exact H].
    apply distinct_ids_update; [reflexivity|exact H].
  - unfold on_message_delete.
    destruct (negb (isMessageDeleteData data)); [exact H|].
    destruct (negb (strict_eq _ _)); [exact H|].
    apply distinct_ids_filter. exact H.
Qed.

(** X23. A [MESSAGE_CREATE] for the channel on display puts the message
    at the head of the list unless a message with its id is there already
    (an optimistic send), in which case the list stays as it is; either
    way the list then has a message with that id, and the same event once
    more changes nothing.  An event for another channel never changes the
    list. *)
Theorem message_create_dedupes
    (channelId : option string) (d : json) (prev : list json) :
  isMessage (Some d) = true ->
  is_primitive (field "id" d) = true ->
  let next := on_message_create channelId (Some d) prev in
  (strict_eq (field "channel_id" d) (channel_ref channelId) = true ->
   (next = prev \/ next = d :: prev) /\
   (existsb (same_id (Some d)) prev = true <-> next = prev) /\
   existsb (same_id (Some d)) next = true /\
   on_message_create channelId (Some d) next = next) /\
  (strict_eq (field "channel_id" d) (channel_ref channelId) = false ->
   next = prev).
Proof.
  intros Hm Hp next. subst next. unfold on_message_create.
  rewrite Hm. cbn [negb field_of].
  split; intros Hc; rewrite Hc; cbn [negb]; [|reflexivity].
  assert (Hself : same_id (Some d) d = true).
  { unfold same_id. cbn [field_of]. apply strict_eq_refl. exact Hp. }
  destruct (existsb (same_id (Some d)) prev) eqn:E.
  - rewrite E. repeat split; auto.
  - cbn [existsb]. rewrite Hself. cbn [orb].
    repeat split; auto.
    + intros H. discriminate H.
    + intros H. exfalso.
      assert (L : length (d :: prev) = length prev) by (rewrite H; reflexivity).
      cbn in L. lia.
Qed.

(** X24. A [MESSAGE_DELETE] for the channel on display removes every
    message with the id of the payload and nothing else; a
    [MESSAGE_UPDATE] replaces the messages with that id by the payload,
    keeps the length of the list, and changes nothing when no message has
    the id (it never adds a message). *)
Theorem message_delete_and_update
    (channelId : option string) (d : json) (prev : list json) :
  strict_eq (field "channel_id" d) (channel_ref channelId) = true ->
  (isMessageDeleteData (Some d) = true ->
   let next := on_message_delete channelId (Some d) prev in
   existsb (same_id (Some d)) next = false /\
   (forall m, In m next <-> In m prev /\ same_id (Some d) m = false) /\
   on_message_delete channelId (Some d) next = next) /\
  (isMessage (Some d) = true ->
   let next := on_message_update channelId (Some d) prev in
   length next = length prev /\
   (forall i m, prev !! i = Some m ->
      next !! i = Some (if same_id (Some d) m then d else m)) /\
   (existsb (same_id (Some d)) prev = false -> next = prev)).
Proof.
  intros Hc. split.
  - intros Hm next. subst next. unfold on_message_delete.
    rewrite Hm. cbn [negb field_of]. rewrite Hc. cbn [negb].
    assert (Hfil : forall l,
              existsb (same_id (Some d))
                (List.filter (fun m => negb (same_id (Some d) m)) l) = false).
    { induction l as [|m l IH]; cbn; [reflexivity|].
      destruct (same_id (Some d) m) eqn:E; cbn; [exact IH|].
      rewrite E, IH. reflexivity. }
    split; [apply Hfil|]. split.
    + intros m. rewrite List.filter_In, negb_true_iff. reflexivity.
    + induction prev as [|m l IH]; cbn; [reflexivity|].
      destruct (same_id (Some d) m) eqn:E; cbn; [exact IH|].
      rewrite E. cbn. rewrite IH. reflexivity.
  - intros Hm next. subst next. unfold on_message_update.
    rewrite Hm. cbn [negb field_of]. rewrite Hc. cbn [negb].
    split; [apply length_map|]. split.
    + intros i m Hi. change (map ?f prev) with (f <$> prev).
      rewrite list_lookup_fmap, Hi. reflexivity.
    + intros E. induction prev as [|m l IH]; cbn; [reflexivity|].
      cbn in E. apply orb_false_iff in E. destruct E as [E1 E2].
      rewrite E1, IH by exact E2. reflexivity.
Qed.

(** *** Who is typing *)

Lemma Map_keys_filter_NoDup (f : string * Z -> bool) (m : TypingMap) :
  List.NoDup (Map_keys m) -> List.NoDup (Map_keys (List.filter f m)).
Proof.
  unfold Map_keys. induction m as [|[k v] m IH]; cbn; [auto|].
  intros H. apply List.NoDup_cons_iff in H. destruct H as [H1 H2].
  destruct (f (k, v)); cbn; [|apply IH; exact H2].
  apply List.NoDup_cons; [|apply IH; exact H2].
  intros Hin. apply H1. apply List.in_map_iff in Hin.
  destruct Hin as ([k' v'] & Hk & Hin). cbn in Hk. subst k'.
  apply List.filter_In in Hin. destruct Hin as [Hin _].
  apply List.in_map_iff. exists (k, v'). split; [reflexivity|exact Hin].
Qed.

Lemma Map_has_In (k : string) (m : TypingMap) :
  Map_has k m = true <-> In k (Map_keys m).
Proof.
  unfold Map_has, Map_keys. induction m as [|[k' v] m IH]; cbn.
  - split; [discriminate|intros []].
  - rewrite orb_true_iff, IH, String.eqb_eq. split; intros [H|H]; auto.
Qed.

Lemma Map_has_keys (k : string) (m : TypingMap) :
  Map_has k m = existsb (String.eqb k) (Map_keys m).
Proof.
  unfold Map_has, Map_keys. induction m as [|e m IH]; cbn; [reflexivity|].
  rewrite IH. reflexivity.
Qed.

Lemma Map_keys_set (k : string) (v : Z) (m : TypingMap) :
  Map_keys (Map_set k v m) =
  if Map_has k m then Map_keys m else Map_keys m ++ [k].
Proof.
  unfold Map_keys, Map_has. induction m as [|[k' v'] m IH]; cbn; [reflexivity|].
  destruct (String.eqb k k') eqn:E; cbn.
  - apply String.eqb_eq in E. subst. reflexivity.
  - rewrite IH. destruct (existsb _ m); reflexivity.
Qed.

Lemma Map_keys_delete (k : string) (m : TypingMap) :
  Map_keys (Map_delete k m) =
  List.filter (fun x => negb (String.eqb k x)) (Map_keys m).
Proof.
  unfold Map_keys, Map_delete. induction m as [|[k' v'] m IH]; cbn; [reflexivity|].
  destruct (String.eqb k k'); cbn; rewrite IH; reflexivity.
Qed.

Lemma Map_keys_set_NoDup (k : string) (v : Z) (m : TypingMap) :
  List.NoDup (Map_keys m) -> List.NoDup (Map_keys (Map_set k v m)).
Proof.
  intros H. rewrite Map_keys_set. destruct (Map_has k m) eqn:E; [exact H|].
  apply List.NoDup_app; repeat split.
  - exact H.
  - apply List.NoDup_cons; [intros []|constructor].
  - intros x Hx [Hk|[]]. subst x.
    apply Map_has_In in Hx. congruence.
Qed.

(** After [set], the map has one entry for the key. *)
Lemma Map_set_entry (k : string) (v v' : Z) (m : TypingMap) :
  List.NoDup (Map_keys m) -> In (k, v') (Map_set k v m) -> v' = v.
Proof.
  unfold Map_keys. induction m as [|[k0 v0] m IH]; cbn.
  - intros _ [H|[]]. congruence.
  - intros H. apply List.NoDup_cons_iff in H. destruct H as [H1 H2].
    destruct (String.eqb k k0) eqn:E; cbn.
    + apply String.eqb_eq in E. subst k0. intros [H|H]; [congruence|].
      exfalso. apply H1. apply List.in_map_iff. exists (k, v'). auto.
    + apply String.eqb_neq in E. intros [H|H]; [congruence|].
      apply IH; assumption.
Qed.

(** [set] for another key leaves the entries of a key. *)
Lemma Map_set_other (k u : string) (v v' : Z) (m : TypingMap) :
  k <> u -> In (u, v') (Map_set k v m) -> In (u, v') m.
Proof.
  intros Hk. induction m as [|[k0 v0] m IH]; cbn.
  - intros [H|[]]. congruence.
  - destruct (String.eqb k k0) eqn:E; cbn.
    + intros [H|H]; [congruence|auto].
    + intros [H|H]; auto.
Qed.

Lemma sync_typing_ok (m : TypingMap) (s : Typing) :
  List.NoDup (Map_keys m) -> typing_ok (sync_typing m s).
Proof. intros H. split; [reflexivity|exact H]. Qed.

Lemma removeUser_ok (u : string) (s : Typing) :
  typing_ok s -> typing_ok (removeUser u s).
Proof.
  intros H. unfold removeUser. destruct (Map_has u (typingMap s)); [|exact H].
  apply sync_typing_ok. apply Map_keys_filter_NoDup. exact (proj2 H).
Qed.

Lemma cleanup_unchanged (now : Z) (m : TypingMap) :
  existsb (fun e => (snd e <=? now)%Z) m = false ->
  List.filter (fun e => negb (snd e <=? now)%Z) m = m.
Proof.
  induction m as [|e m IH]; cbn; [reflexivity|].
  intros H. apply orb_false_iff in H. destruct H as [H1 H2].
  rewrite H1. cbn. rewrite IH by exact H2. reflexivity.
Qed.

Lemma typing_step_ok (ev : TypingEvent) (s : Typing) :
  typing_ok s -> typing_ok (typing_step ev s).
Proof.
  intros H. destruct ev as [c u| |data now|data|data|now]; cbn.
  - exact H.
  - split; [reflexivity|constructor].
  - unfold on_typing_start.
    destruct (negb (isTypingStartData data)); [exact H|].
    destruct (negb (strict_eq _ _)); [exact H|].
    destruct (is_current_user _ s); [exact H|].
    apply sync_typing_ok. apply Map_keys_set_NoDup. exact (proj2 H).
  - unfold on_typing_stop.
    destruct (negb (isTypingStopData data)); [exact H|].
    destruct (negb (strict_eq _ _)); [exact H|].
    apply removeUser_ok. exact H.
  - unfold on_typing_message.
    destruct (negb (isMessageCreateData data)); [exact H|].
    destruct (negb (strict_eq _ _)); [exact H|].
    apply removeUser_ok. exact H.
  - unfold on_cleanup, typing_ok. cbn.
    destruct (existsb _ (typingMap s)) eqn:E.
    + split; [reflexivity|]. apply Map_keys_filter_NoDup. exact (proj2 H).
    + rewrite (cleanup_unchanged _ _ E). exact H.
Qed.

Lemma typing_run_ok (evs : list TypingEvent) (s : Typing) :
  typing_ok s -> typing_ok (typing_run evs s).
Proof.
  revert s. induction evs as [|ev evs IH]; intros s H; cbn; [exact H|].
  apply IH. apply typing_step_ok. exact H.
Qed.

Lemma typing_mount_ok (c u : option string) : typing_ok (typing_mount c u).
Proof. split; [reflexivity|constructor]. Qed.

(** X25. Whatever events reach the hook after its first render, and in
    whatever order (renders, the channel effect, [TYPING_START],
    [TYPING_STOP] and [MESSAGE_CREATE] events with any payload, ticks of
    the cleanup interval at any time), the list the hook returns is the
    list of the keys of its map, in the order of insertion, and names no
    user twice. *)
Theorem typing_users_mirror_map
    (channelId currentUserId : option string) (evs : list TypingEvent) :
  let s := typing_run evs (typing_mount channelId currentUserId) in
  typingUsers s = map fst (typingMap s) /\
  List.NoDup (typingUsers s).
Proof.
  cbv zeta.
  destruct (typing_run_ok evs _ (typing_mount_ok channelId currentUserId))
    as [H1 H2].
  split; [exact H1|]. rewrite H1. exact H2.
Qed.

Lemma entry_kept_step (u : string) (v0 : Z) (ev : TypingEvent) (s : Typing) :
  starts_typing u ev = false ->
  (forall v, In (u, v) (typingMap s) -> v = v0) ->
  forall v, In (u, v) (typingMap (typing_step ev s)) -> v = v0.
Proof.
  intros Hev H v.
  assert (Hrm : forall k, In (u, v) (typingMap (removeUser k s)) -> v = v0).
  { intros k. unfold removeUser. destruct (Map_has k (typingMap s)); cbn.
    - unfold Map_delete. rewrite List.filter_In. intros [Hin _]. auto.
    - auto. }
  destruct ev as [c cu| |data now|data|data|now]; cbn.
  - auto.
  - intros [].
  - unfold on_typing_start.
    destruct (negb (isTypingStartData data)); [auto|].
    destruct (negb (strict_eq _ _)); [auto|].
    destruct (is_current_user _ s); [auto|]. cbn.
    cbn in Hev. apply String.eqb_neq in Hev.
    intros Hin. apply Map_set_other in Hin; auto.
  - unfold on_typing_stop.
    destruct (negb (isTypingStopData data)); [auto|].
    destruct (negb (strict_eq _ _)); [auto|]. apply Hrm.
  - unfold on_typing_message.
    destruct (negb (isMessageCreateData data)); [auto|].
    destruct (negb (strict_eq _ _)); [auto|]. apply Hrm.
  - unfold on_cleanup. cbn. rewrite List.filter_In. intros [Hin _]. auto.
Qed.

Lemma entry_kept_run (u : string) (v0 : Z) (evs : list TypingEvent) (s : Typing) :
  forallb (fun ev => negb (starts_typing u ev)) evs = true ->
  (forall v, In (u, v) (typingMap s) -> v = v0) ->
  forall v, In (u, v) (typingMap (typing_run evs s)) -> v = v0.
Proof.
  revert s. induction evs as [|ev evs IH]; intros s Hevs H; cbn; [exact H|].
  cbn in Hevs. apply andb_true_iff in Hevs. destruct Hevs as [Hev Hevs].
  apply negb_true_iff in Hev.
  apply IH; [exact Hevs|]. apply entry_kept_step; assumption.
Qed.

(** X26. The safety timeout: once a [TYPING_START] of a user has been
    taken at time [t], and whatever happens next short of another
    [TYPING_START] of that user, the first tick of the cleanup interval at
    or after [t + 12000] ms leaves the user out of the list the hook
    returns. *)
Theorem typing_indicator_expires
    (channelId currentUserId : option string)
    (before after : list TypingEvent) (data : option json) (t now : Z) :
  let s0 := typing_run before (typing_mount channelId currentUserId) in
  let u := string_of (field_of "user_id" data) in
  isTypingStartData data = true ->
  strict_eq (field_of "channel_id" data) (channel_ref (channelIdRef s0)) = true ->
  is_current_user u s0 = false ->
  forallb (fun ev => negb (starts_typing u ev)) after = true ->
  (t + TYPING_EXPIRY_MS <= now)%Z ->
  let s1 := typing_step (TypingStart data t) s0 in
  In u (typingUsers s1) /\
  ~ In u (typingUsers (typing_step (CleanupTick now) (typing_run after s1))).
Proof.
  intros s0 u Hd Hc Hu Hafter Hnow s1.
  assert (H0 : typing_ok s0) by (apply typing_run_ok, typing_mount_ok).
  assert (E1 : s1 = sync_typing (Map_set u (t + TYPING_EXPIRY_MS) (typingMap s0)) s0).
  { subst s1. cbn. unfold on_typing_start. rewrite Hd. cbn [negb].
    rewrite Hc. cbn [negb]. fold u. rewrite Hu. reflexivity. }
  assert (H1 : typing_ok s1) by (apply typing_step_ok; exact H0).
  split.
  - rewrite E1. cbn. rewrite Map_keys_set.
    destruct (Map_has u (typingMap s0)) eqn:E.
    + apply Map_has_In. exact E.
    + apply List.in_or_app. right. left. reflexivity.
  - set (s2 := typing_run after s1).
    assert (H2 : typing_ok s2) by (apply typing_run_ok; exact H1).
    assert (P2 : forall v, In (u, v) (typingMap s2) -> v = (t + TYPING_EXPIRY_MS)%Z).
    { apply entry_kept_run; [exact Hafter|].
      rewrite E1. cbn. intros v Hin.
      exact (Map_set_entry _ _ _ _ (proj2 H0) Hin). }
    pose proof (typing_step_ok (CleanupTick now) s2 H2) as [H3 _].
    rewrite H3. cbn. unfold Map_keys. intros Hin.
    apply List.in_map_iff in Hin. destruct Hin as ([k v] & Hk & Hin).
    cbn in Hk. subst k. apply List.filter_In in Hin. destruct Hin as [Hin Hv].
    apply P2 in Hin. subst v. cbn in Hv.
    apply negb_true_iff in Hv. apply Z.leb_gt in Hv. lia.
Qed.

(** X27. What one event does to the list the hook returns, in any state
    the hook can be in: a [TYPING_START] for the channel on display puts a
    user who is not in the list at its end and leaves the list as it is
    for a user who is in it, and for the current user; a [TYPING_STOP] of a
    user, and a [MESSAGE_CREATE] whose author the user is, take that user,
    and nobody else, out of the list; a tick of the cleanup interval keeps
    the users whose indicator expires later than now, and only them. *)
Theorem typing_events_effect
    (channelId currentUserId : option string) (evs : list TypingEvent)
    (data : option json) (now : Z) :
  let s := typing_run evs (typing_mount channelId currentUserId) in
  let here :=
    strict_eq (field_of "channel_id" data) (channel_ref (channelIdRef s)) in
  (isTypingStartData data = true -> here = true ->
   let u := string_of (field_of "user_id" data) in
   typingUsers (typing_step (TypingStart data now) s) =
   if is_current_user u s then typingUsers s
   else if existsb (String.eqb u) (typingUsers s) then typingUsers s
   else typingUsers s ++ [u]) /\
  (isTypingStopData data = true -> here = true ->
   let u := string_of (field_of "user_id" data) in
   typingUsers (typing_step (TypingStop data) s) =
   List.filter (fun x => negb (String.eqb u x)) (typingUsers s)) /\
  (isMessageCreateData data = true -> here = true ->
   let u := string_of (field_of "id" (field_of "author" data)) in
   typingUsers (typing_step (MessageCreate data) s) =
   List.filter (fun x => negb (String.eqb u x)) (typingUsers s)) /\
  (forall u, In u (typingUsers (typing_step (CleanupTick now) s)) <->
             exists expiry, In (u, expiry) (typingMap s) /\ (now < expiry)%Z).
Proof.
  intros s here. subst here.
  assert (H : typing_ok s) by (apply typing_run_ok, typing_mount_ok).
  destruct H as [Hu Hn].
  assert (Hhas : forall u, Map_has u (typingMap s) = existsb (String.eqb u) (typingUsers s)).
  { intros u. rewrite Hu. apply Map_has_keys. }
  assert (Hrm : forall u, typingUsers (removeUser u s) =
                          List.filter (fun x => negb (String.eqb u x)) (typingUsers s)).
  { intros u. unfold removeUser. destruct (Map_has u (typingMap s)) eqn:E; cbn.
    - rewrite Map_keys_delete, Hu. reflexivity.
    - rewrite Hhas in E. symmetry.
      generalize E. generalize (typingUsers s). clear.
      induction l as [|x l IH]; cbn; [reflexivity|].
      intros E. apply orb_false_iff in E. destruct E as [E1 E2].
      rewrite E1. cbn. rewrite IH by exact E2. reflexivity. }
  repeat split.
  - intros Hd Hc u. cbn. unfold on_typing_start. rewrite Hd. cbn [negb].
    rewrite Hc. cbn [negb]. fold u.
    destruct (is_current_user u s); [reflexivity|]. cbn.
    rewrite Map_keys_set, Hhas, Hu. reflexivity.
  - intros Hd Hc u. cbn. unfold on_typing_stop. rewrite Hd. cbn [negb].
    rewrite Hc. cbn [negb]. apply Hrm.
  - intros Hd Hc u. cbn. unfold on_typing_message. rewrite Hd. cbn [negb].
    rewrite Hc. cbn [negb]. apply Hrm.
  - pose proof (typing_step_ok (CleanupTick now) s (conj Hu Hn)) as [H3 _].
    rewrite H3. cbn. unfold Map_keys. intros Hin.
    apply List.in_map_iff in Hin. destruct Hin as ([k v] & Hk & Hin).
    cbn in Hk. subst k. apply List.filter_In in Hin. destruct Hin as [Hin Hv].
    exists v. split; [exact Hin|]. cbn in Hv.
    apply negb_true_iff in Hv. apply Z.leb_gt in Hv. exact Hv.
  - intros (v & Hin & Hv).
    pose proof (typing_step_ok (CleanupTick now) s (conj Hu Hn)) as [H3 _].
    rewrite H3. cbn. unfold Map_keys.
    apply List.in_map_iff. exists (u, v). split; [reflexivity|].
    apply List.filter_In. split; [exact Hin|]. cbn.
    apply negb_true_iff. apply Z.leb_gt. exact Hv.
Qed.
End Properties.

(** * The scenarios of the test suite, and instances of the theorems *)

Example deriveWsUrl_http :
  deriveWsUrl "http://localhost:8080" = "ws://localhost:8080/api/v1/gateway".
Proof. reflexivity. Qed.

Example deriveWsUrl_https :
  deriveWsUrl "https://example.com//" = "wss://example.com/api/v1/gateway".
Proof. reflexivity. Qed.

(** "sends Identify after receiving Hello" *)
Example identify_after_hello :
  sent_frames (snd (run example_parse never_throws heartbeat_events
                      (construct example_url))) =
  [identify_frame "tok"].
Proof. vm_compute. reflexivity. Qed.

(** "sends Resume when session_id exists" *)
Example resume_after_ready :
  sent_frames
    (snd (run example_parse never_throws
            (session_events ++ [TokenResolved 1 (Some "tok")])
            (construct example_url))) =
  [identify_frame "tok"; resume_frame "tok" (JStr "sess-1") (JNum 1)].
Proof. vm_compute. reflexivity. Qed.

(** "closes on missed heartbeat ACK (zombie connection)" *)
Example zombie_connection_closed :
  List.filter is_close
    (snd (run example_parse never_throws
            (heartbeat_events ++ [HeartbeatTick 1; HeartbeatTick 1])
            (construct example_url))) =
  [ESockClose 0 4000].
Proof. vm_compute. reflexivity. Qed.

(** "does not connect after disposal" *)
Example no_connect_after_disposal :
  snd (run example_parse never_throws [Disconnect; Connect]
         (construct example_url)) = [].
Proof. vm_compute. reflexivity. Qed.

(** The unsubscribe closure of [on] removes that handler only. *)
Example unsubscribe_one_handler :
  members 0
    (fst (run example_parse never_throws
            [On "MESSAGE_CREATE" (RawHandler 0);
             On "MESSAGE_CREATE" (RawHandler 1); CallUnsubscribe 0]
            (construct example_url))) =
  [RawHandler 1].
Proof. vm_compute. reflexivity. Qed.

(** Instance of C2: with session ["sess-1"] and sequence number 1 stored,
    the second Hello is answered with a Resume. *)
Lemma hello_resume_iff_session_and_seq_witness :
  let w := fst (run example_parse never_throws session_events
                  (construct example_url)) in
  disposed w = false /\
  pending 1 w = Some (mkHello 1000) /\
  sent_frames
    (trace (step example_parse never_throws (TokenResolved 1 (Some "tok")) w)) =
  [resume_frame "tok" (JStr "sess-1") (JNum 1)].
Proof.
  intros w.
  assert (Hd : disposed w = false) by (vm_compute; reflexivity).
  assert (Hp : pending 1 w = Some (mkHello 1000)) by (vm_compute; reflexivity).
  assert (Ht : "tok" <> "") by (intros E; discriminate E).
  split; [exact Hd|]. split; [exact Hp|].
  pose proof (hello_resume_iff_session_and_seq example_parse never_throws
                example_url session_events 1 (mkHello 1000) "tok" Hd Hp Ht)
    as [Hopen _].
  destruct Hopen as (_ & Hresume & _); [vm_compute; reflexivity|].
  apply Hresume. split; vm_compute; intros E; discriminate E.
Defined.


(** Instance of C6: first attempt, [Math.random()] = 1/4. *)
Lemma default_backoff_bounds_witness :
  disposed connected_world = false /\
  (0 <= 1 # 4)%Q /\ (1 # 4 < 1)%Q /\
  exists pre delay,
    trace (scheduleReconnect None (1 # 4) connected_world) =
      pre ++ [ESetTimeout (next_timer connected_world) delay] /\
    Forall (fun e => starts_resource e = false) pre /\
    delay = backoff_delay None (reconnectAttempts connected_world) (1 # 4) /\
    ((1 # 2) * inject_Z (Z.min (1000 * 2 ^ Z.of_nat (reconnectAttempts connected_world)) 30000)
       <= inject_Z delay)%Q /\
    (inject_Z delay
       <= (3 # 2) * inject_Z (Z.min (1000 * 2 ^ Z.of_nat (reconnectAttempts connected_world)) 30000))%Q.
Proof.
  assert (Hd : disposed connected_world = false) by (vm_compute; reflexivity).
  assert (H0 : (0 <= 1 # 4)%Q) by (vm_compute; discriminate).
  assert (H1 : (1 # 4 < 1)%Q) by (vm_compute; reflexivity).
  split; [exact Hd|]. split; [exact H0|]. split; [exact H1|].
  exact (default_backoff_bounds connected_world (1 # 4) Hd H0 H1).
Defined.

(** Instance of C7: the payload of the test suite. *)
Lemma malformed_message_dropped_witness :
  example_parse "not-json{{{" = None /\
  world (step example_parse never_throws (SockMessage 0 "not-json{{{")
           connected_world) = connected_world /\
  completion (step example_parse never_throws (SockMessage 0 "not-json{{{")
                connected_world) = Normal tt.
Proof.
  assert (Hp : example_parse "not-json{{{" = None) by (vm_compute; reflexivity).
  split; [exact Hp|].
  destruct (malformed_message_dropped example_parse never_throws
              connected_world "not-json{{{" (or_introl Hp)) as [_ H].
  destruct (H 0%nat) as (Hc & Hw & _). split; assumption.
Defined.

(** Instance of C9: a READY frame with sequence number 1 arrives at a
    client that has not seen a sequence number yet.  The subscriber of
    [open] and the subscriber of [READY] are both called, and both run
    with [seq = 1]. *)
Lemma dispatch_updates_seq_before_emit_witness :
  let o := step example_parse never_throws (SockMessage 0 "ready")
             ready_listeners_world in
  seq ready_listeners_world = JNull /\
  s (as_frame ready_json) = Some (JNum 1) /\
  seq (world o) = JNum 1 /\
  Forall (seen_is (JNum 1)) (trace o) /\
  trace o =
    [EInvoke (StableHandler 0) (Some (JObj [("session_id", JStr "sess-1")])) (JNum 1);
     EInvoke (RawHandler 1) (Some (JObj [("session_id", JStr "sess-1")])) (JNum 1)].
Proof.
  cbv zeta.
  assert (Hs : s (as_frame ready_json) = Some (JNum 1))
    by (vm_compute; reflexivity).
  assert (Hv : JNum 1 <> JNull) by (intros E; discriminate E).
  split; [vm_compute; reflexivity|]. split; [exact Hs|].
  destruct (dispatch_updates_seq_before_emit example_parse never_throws
              ready_listeners_world (as_frame ready_json) (JNum 1) Hs Hv)
    as [_ Hstep].
  destruct (Hstep 0%nat "ready" ready_json) as [Hseq Hseen];
    try (vm_compute; reflexivity).
  split; [exact Hseq|]. split; [exact Hseen|].
  vm_compute. reflexivity.
Defined.

(** C2 does not hold as stated.  A Hello was handled, the client is not
    disposed and the accessor returns a token, but the socket closed
    while the token was being fetched: the Hello handler starts the
    heartbeat and sends neither a Resume nor an Identify.  And what is
    sent is decided when the token arrives, not at Hello time: a client
    without a session when the Hello arrives, which stores a session and a
    sequence number during the fetch, sends a Resume. *)
Lemma hello_answer_needs_open_socket :
  let w := fst (run example_parse never_throws closed_during_fetch_events
                  (construct example_url)) in
  let o := step example_parse never_throws (TokenResolved 0 (Some "tok")) w in
  let w_hello := fst (run example_parse never_throws
                        [Connect; SockOpen 0; SockMessage 0 "hello"]
                        (construct example_url)) in
  let w_late := world (step example_parse never_throws (SockMessage 0 "ready") w_hello) in
  let o_late := step example_parse never_throws (TokenResolved 0 (Some "tok")) w_late in
  (disposed w = false /\
   pending 0 w = Some (mkHello 1000) /\
   ws w = Some 0%nat /\ ready_of 0 w = Some CLOSED /\
   trace o = [ESetInterval 2 1000] /\
   sent_frames (trace o) = []) /\
  (sessionId w_hello = JNull /\ seq w_hello = JNull /\
   pending 0 w_hello = Some (mkHello 1000) /\
   sent_frames (trace o_late) = [resume_frame "tok" (JStr "sess-1") (JNum 1)]).
Proof.
  cbv zeta. repeat split; vm_compute; reflexivity.
Qed.


(** C3 does not hold as stated: when the Hello handler asks for the token
    it has not started the heartbeat.  After the Hello frame the only
    thing done is the token request, and no timer runs; the heartbeat
    interval is set only when the token arrives. *)
Lemma hello_fetches_token_before_heartbeat :
  let o := step example_parse never_throws (SockMessage 0 "hello") connected_world in
  let o' := step example_parse never_throws (TokenResolved 0 (Some "tok")) (world o) in
  isHelloData (d (as_frame hello_json)) = true /\
  trace o = [EGetToken 0] /\
  ~ (exists tid ms, In (ESetInterval tid ms) (trace o)) /\
  heartbeatTimer (world o) = None /\
  intervals (world o) = [] /\
  trace o' = [ESetInterval 1 1000; ESockSend 0 (identify_frame "tok")].
Proof.
  cbv zeta. split; [vm_compute; reflexivity|].
  split; [vm_compute; reflexivity|].
  split.
  - intros (tid & ms & [E|[]]). vm_compute in E. discriminate E.
  - repeat split; vm_compute; reflexivity.
Qed.

(** Instance of the amended C3. *)
Lemma heartbeat_starts_after_token_fetch_witness :
  let o := step example_parse never_throws (SockMessage 0 "hello") connected_world in
  trace o = [EGetToken 0] /\
  heartbeatTimer (world o) = None /\
  started (trace (step example_parse never_throws (TokenResolved 0 None) (world o))) =
    [ESetInterval 1 1000].
Proof.
  cbv zeta.
  assert (H1 : is_wired 0 connected_world = true) by (vm_compute; reflexivity).
  assert (H2 : disposed connected_world = false) by (vm_compute; reflexivity).
  assert (H3 : example_parse "hello" = Some hello_json) by (vm_compute; reflexivity).
  assert (H4 : isFrame (Some hello_json) = true) by (vm_compute; reflexivity).
  assert (H5 : Qeq_bool (op (as_frame hello_json)) OP_HELLO = true)
    by (vm_compute; reflexivity).
  assert (H6 : isHelloData (d (as_frame hello_json)) = true)
    by (vm_compute; reflexivity).
  destruct (heartbeat_starts_after_token_fetch example_parse never_throws
              connected_world 0 "hello" hello_json H1 H2 H3 H4 H5 H6)
    as [(Ht & Hh & _ & Hp) Hlater].
  split; [exact Ht|]. split; [rewrite Hh; vm_compute; reflexivity|].
  destruct (Hlater _ None Hp) as [Hlive _].
  destruct Hlive as [Hs _]; [vm_compute; reflexivity|].
  exact Hs.
Defined.

(** The delay is the one of double arithmetic.  With [Math.random()] the
    double nearest to 0.7775, the first default delay is
    [Math.round(1277.5)] = 1278 (the sum 1277.4999999999999... is not a
    double, and the nearest one is 1277.5); with the double nearest to
    0.026875, the rate-limit delay is [Math.round(31612.5)] = 31613. *)
Example backoff_delay_in_doubles :
  let r1 := (7003097420561121 # 9007199254740992)%Q in
  let r2 := (7746191359077253 # 288230376151711744)%Q in
  (backoff_delay None 0 r1 = 1278%Z) /\
  (Qfloor (1000 + (r1 - (1 # 2)) * 1000 + (1 # 2))%Q = 1277%Z) /\
  (backoff_delay (Some RATE_LIMIT_WAIT_MS) 0 r2 = 31613%Z) /\
  (Qfloor (60000 + (r2 - (1 # 2)) * 60000 + (1 # 2))%Q = 31612%Z).
Proof. repeat split; vm_compute; reflexivity. Qed.

(** On the sample inputs the machine computes the double that [to_double]
    gives, and [Math.round] of it is [backoff_delay]. *)
Example backoff_delay_on_machine :
  forallb
    (fun '(base, m, e) =>
       let random := (inject_Z m * pow2 e)%Q in
       match double_value (machine_jittered base (machine_double m e)) with
       | Some x =>
           Qeq_bool x
             (to_double (inject_Z base +
                         to_double (to_double (random - (1 # 2)) * inject_Z base)))
           && Z.eqb (Math_round x) (backoff_delay (Some base) 0 random)
       | None => false
       end)
    machine_samples = true.
Proof. vm_compute. reflexivity. Qed.

(** C4 does not hold as stated: with [Math.random()] = 0 the reconnect
    after a close with code 4008 is scheduled after 30000 ms, not after the
    60000 ms of the rate-limit wait; with 3/4 it is 75000 ms. *)
Lemma rate_limited_wait_not_exact :
  disposed connected_world = false /\
  ws connected_world = Some 0%nat /\
  is_wired 0 connected_world = true /\
  trace (step example_parse never_throws (SockClose 0 4008 "" 0) connected_world) =
    [ESetTimeout 1 30000] /\
  trace (step example_parse never_throws (SockClose 0 4008 "" (3 # 4)) connected_world) =
    [ESetTimeout 1 75000] /\
  30000%Z <> RATE_LIMIT_WAIT_MS.
Proof.
  repeat split; try (vm_compute; reflexivity).
  intros E. discriminate E.
Qed.

(** Instance of the amended C4: [Math.random()] = 1/2 gives 60000 ms. *)
Lemma rate_limited_close_schedules_jittered_wait_witness :
  started (trace (step example_parse never_throws
                    (SockClose 0 CLOSE_RATE_LIMITED "" (1 # 2)) connected_world)) =
  [ESetTimeout 1 60000].
Proof.
  assert (H1 : disposed connected_world = false) by (vm_compute; reflexivity).
  assert (H2 : ws connected_world = Some 0%nat) by (vm_compute; reflexivity).
  assert (H3 : is_wired 0 connected_world = true) by (vm_compute; reflexivity).
  assert (H4 : intentionalClose connected_world = false) by (vm_compute; reflexivity).
  assert (H5 : (0 <= 1 # 2)%Q) by (vm_compute; discriminate).
  assert (H6 : (1 # 2 < 1)%Q) by (vm_compute; reflexivity).
  assert (H7 : completion (step example_parse never_throws
                             (SockClose 0 CLOSE_RATE_LIMITED "" (1 # 2))
                             connected_world) = Normal tt)
    by (vm_compute; reflexivity).
  destruct (rate_limited_close_schedules_jittered_wait example_parse never_throws
              connected_world 0 "" (1 # 2) H1 H2 H3 H4 H5 H6 H7) as [Hs _].
  exact Hs.
Defined.




(** * Instances of the further properties *)

(** Instance of X5: the closure returned for the first of two handlers
    leaves the second. *)
Lemma unsubscribe_removes_only_that_handler_witness :
  let w := fst (run example_parse never_throws two_handlers (construct example_url)) in
  handlers_of "MESSAGE_CREATE"
    (world (step example_parse never_throws (CallUnsubscribe 0) w)) =
  [RawHandler 1].
Proof.
  cbv zeta.
  destruct (unsubscribe_removes_only_that_handler example_parse never_throws
              example_url two_handlers 0 (mkUnsub "MESSAGE_CREATE" 0 (RawHandler 0)))
    as [H _].
  - vm_compute. reflexivity.
  - vm_compute. reflexivity.
  - cbn [u_event u_handler] in H. rewrite H. vm_compute. reflexivity.
Defined.

(** Instance of X6: a first subscription and its closure, on a new client. *)
Lemma subscribe_unsubscribe_round_trip_witness :
  handlers_of "READY" (world (on "READY" (RawHandler 0) (construct example_url))) =
    [RawHandler 0] /\
  forall k,
    handlers_of k
      (world (unsubscribe (mkUnsub "READY" 0 (RawHandler 0))
                (world (on "READY" (RawHandler 0) (construct example_url))))) =
    handlers_of k (construct example_url).
Proof.
  split; [vm_compute; reflexivity|].
  apply (subscribe_unsubscribe_round_trip example_parse never_throws
           example_url [] "READY" (RawHandler 0)).
  - vm_compute. intros [].
  - vm_compute. reflexivity.
Defined.

(** Instance of X8: [disconnect] leaves the subscriptions. *)
Lemma subscriptions_survive_witness :
  handlers_of "MESSAGE_CREATE" subscribed_world = [RawHandler 0; RawHandler 1] /\
  forall k,
    handlers_of k (world (step example_parse first_throws Disconnect subscribed_world)) =
    handlers_of k subscribed_world.
Proof.
  split; [vm_compute; reflexivity|].
  apply (subscriptions_survive example_parse first_throws Disconnect subscribed_world).
  reflexivity.
Defined.

(** Instance of X9: after a second [connect], the close event of the first
    socket does nothing. *)
Lemma stale_socket_events_ignored_witness :
  let w := fst (run example_parse never_throws [Connect; Connect] (construct example_url)) in
  let o := step example_parse never_throws (SockClose 0 1006 "" (1 # 2)) w in
  ws w = Some 1%nat /\
  completion o = Normal tt /\
  trace o = [] /\
  set_sockets (sockets w) (world o) = w.
Proof.
  cbv zeta. split; [vm_compute; reflexivity|].
  apply (stale_socket_events_ignored example_parse never_throws example_url
           [Connect; Connect] 0 (SockClose 0 1006 "" (1 # 2))).
  - vm_compute. intros E. discriminate E.
  - reflexivity.
Defined.

(** Instance of X12: a frame with an opcode the client does not handle. *)
Lemma useless_frame_ignored_witness :
  handleMessage control_parse never_throws "unknown" connected_world =
    mkOut (Normal tt) connected_world [] /\
  forall id,
    world (step control_parse never_throws (SockMessage id "unknown") connected_world) =
      connected_world /\
    trace (step control_parse never_throws (SockMessage id "unknown") connected_world) = [].
Proof.
  apply (useless_frame_ignored control_parse never_throws connected_world
           "unknown" unknown_json).
  - vm_compute. reflexivity.
  - vm_compute. reflexivity.
  - right. repeat split; vm_compute; reflexivity.
Defined.

(** Instance of X13: the heartbeat of a connected client. *)
Lemma heartbeat_ack_cycle_witness :
  (List.filter is_close
     (snd (run control_parse never_throws
             [HeartbeatTick 1; SockMessage 0 "ack"; HeartbeatTick 1]
             heartbeat_world)) = [] /\
   heartbeatAckReceived
     (fst (run control_parse never_throws
             [HeartbeatTick 1; SockMessage 0 "ack"; HeartbeatTick 1]
             heartbeat_world)) = false) /\
  List.filter is_close
    (snd (run control_parse never_throws [HeartbeatTick 1; HeartbeatTick 1]
            heartbeat_world)) =
  [ESockClose 0 4000].
Proof.
  apply (heartbeat_ack_cycle control_parse never_throws heartbeat_world 0 1
           "ack" ack_json); vm_compute; reflexivity.
Defined.

(** Instance of X14: the connection is lost (code 1006) on the first
    attempt, with [Math.random()] = 1/4: reconnect after 750 ms. *)
Lemma unexpected_close_schedules_backoff_witness :
  started (trace (step example_parse never_throws (SockClose 0 1006 "" (1 # 4))
                    session_world)) =
    [ESetTimeout 2 750] /\
  sessionId (world (step example_parse never_throws (SockClose 0 1006 "" (1 # 4))
                      session_world)) = JStr "sess-1".
Proof.
  destruct (unexpected_close_schedules_backoff example_parse never_throws
              session_world 0 1006 "" (1 # 4)) as (Hs & _ & _ & _ & Hsess);
    try (vm_compute; reflexivity).
  - vm_compute. intros E. discriminate E.
  - split.
    + rewrite Hs. vm_compute. reflexivity.
    + change (Z.eqb 1006 CLOSE_INVALID_TOKEN) with false in Hsess.
      destruct Hsess as [-> _]. vm_compute. reflexivity.
Defined.

(** Instance of X15: the accessor returns [null]. *)
Lemma no_token_closes_without_reconnect_witness :
  let o1 := step example_parse never_throws (TokenResolved 0 None) fetching_world in
  let o2 := step example_parse never_throws (SockClose 0 4000 "" (1 # 2)) (world o1) in
  (sent_frames (trace o1) = [] /\
   List.filter is_close (trace o1) = [ESockClose 0 4000] /\
   intentionalClose (world o1) = true) /\
  (started (trace o2) = [] /\
   heartbeatTimer (world o2) = None /\
   reconnectTimer (world o2) = reconnectTimer fetching_world).
Proof.
  apply (no_token_closes_without_reconnect example_parse never_throws
           fetching_world 0 0 (mkHello 1000) None 4000 "" (1 # 2));
    vm_compute; reflexivity.
Defined.

Lemma ready_listeners_guarded : guarded never_throws ready_listeners_world.
Proof. intros r n data _. reflexivity. Qed.

(** Instance of X16: READY with session ["sess-1"] and sequence number 1. *)
Lemma ready_stores_session_witness :
  let o := step example_parse never_throws (SockMessage 0 "ready")
             ready_listeners_world in
  (forall tok, hello_frame tok (world o) = resume_frame tok (JStr "sess-1") (JNum 1)) /\
  invoked (trace o) = [StableHandler 0; RawHandler 1].
Proof.
  cbv zeta.
  destruct (ready_stores_session example_parse never_throws ready_listeners_world
              0 "ready" ready_json (JStr "sess-1") (JNum 1))
    as [(_ & _ & Hf) Hg]; try (vm_compute; reflexivity).
  - intros E. discriminate E.
  - split; [exact Hf|].
    destruct (Hg ready_listeners_guarded) as [_ Hi].
    rewrite Hi. vm_compute. reflexivity.
Defined.

(** Instance of X17: Invalid Session with payload [false] on a client that
    has a session. *)
Lemma server_reconnect_request_witness :
  let o := step control_parse never_throws (SockMessage 0 "invalid-session")
             session_world in
  sessionId session_world = JStr "sess-1" /\
  trace o = [ESockClose 0 4000] /\
  forall tok, hello_frame tok (world o) = identify_frame tok.
Proof.
  cbv zeta. split; [vm_compute; reflexivity|].
  destruct (server_reconnect_request control_parse never_throws session_world
              0 "invalid-session" invalid_session_json)
    as (Ht & _ & Hf); try (vm_compute; reflexivity).
  - right. vm_compute. reflexivity.
  - split; [exact Ht|]. intros tok. apply Hf. vm_compute. reflexivity.
Defined.

(** Instance of X18: the connection of a client with session ["sess-1"]
    and sequence number 1 is lost and made again. *)
Lemma session_resumed_after_reconnect_witness :
  let evs := [SockClose 0 1006 "" (1 # 2); ReconnectFire 2; SockOpen 1;
              SockMessage 1 "hello"] in
  sent_frames (snd (run example_parse never_throws evs session_world)) = [] /\
  sent_frames
    (trace (step example_parse never_throws (TokenResolved 1 (Some "tok"))
              (fst (run example_parse never_throws evs session_world)))) =
  [resume_frame "tok" (JStr "sess-1") (JNum 1)].
Proof.
  cbv zeta.
  destruct (session_resumed_after_reconnect example_parse never_throws
              session_world 0 1006 "" (1 # 2) "hello" hello_json "tok")
    as [H1 H2]; try (vm_compute; reflexivity).
  - intros E. discriminate E.
  - split; [exact H1|]. refine (eq_trans H2 _). vm_compute. reflexivity.
Defined.

(** Instance of X19: a second [connect] on a connected client. *)
Lemma connect_replaces_socket_witness :
  let w := fst (run example_parse never_throws [Connect; SockOpen 0]
                  (construct example_url)) in
  let o := step example_parse never_throws Connect w in
  started (trace o) = [ENewSocket 1 "wss://example.com/api/v1/gateway"] /\
  ws (world o) = Some 1%nat /\
  List.filter is_close (trace o) = [ESockClose 0 1000].
Proof.
  cbv zeta.
  destruct (connect_replaces_socket example_parse never_throws example_url
              [Connect; SockOpen 0]) as (_ & Hs & (Hw & _) & _ & Hc).
  - vm_compute. reflexivity.
  - split; [|split].
    + refine (eq_trans Hs _). vm_compute. reflexivity.
    + refine (eq_trans Hw _). vm_compute. reflexivity.
    + refine (eq_trans Hc _). vm_compute. reflexivity.
Defined.

(** Instance of X20: the second socket of a client opens and is lost. *)
Lemma open_resets_backoff_witness :
  let w := fst (run example_parse never_throws
                  [Connect; SockOpen 0; SockClose 0 1006 "" (1 # 2); ReconnectFire 1]
                  (construct example_url)) in
  let w1 := world (step example_parse never_throws (SockOpen 1) w) in
  reconnectAttempts w = 1 /\
  reconnectAttempts w1 = 0 /\
  started (trace (step example_parse never_throws (SockClose 1 1006 "" (1 # 4)) w1)) =
    [ESetTimeout 2 750].
Proof.
  cbv zeta. split; [vm_compute; reflexivity|].
  destruct (open_resets_backoff example_parse never_throws
              (fst (run example_parse never_throws
                      [Connect; SockOpen 0; SockClose 0 1006 "" (1 # 2); ReconnectFire 1]
                      (construct example_url)))
              1 1006 "" (1 # 4)) as (Ha & Hs & _ & _);
    try (vm_compute; reflexivity).
  - vm_compute. intros E. discriminate E.
  - vm_compute. intros E. discriminate E.
  - split; [exact Ha|]. refine (eq_trans Hs _). vm_compute. reflexivity.
Defined.

(** Instance of X22: an edit of the first of two messages. *)
Lemma message_ids_stay_distinct_witness :
  distinct_ids example_messages /\
  on_message_update (Some "c") (Some (example_message "1" "c" "edited"))
    example_messages =
  [example_message "2" "c" "second"; example_message "1" "c" "edited"] /\
  distinct_ids
    (on_message_update (Some "c") (Some (example_message "1" "c" "edited"))
       example_messages).
Proof.
  assert (H : distinct_ids example_messages).
  { cbn. repeat constructor. }
  split; [exact H|]. split; [vm_compute; reflexivity|].
  exact (proj1 (proj2 (message_ids_stay_distinct (Some "c")
                         (Some (example_message "1" "c" "edited"))
                         example_messages H))).
Defined.

(** Instance of X23: a third message arrives, then arrives again. *)
Lemma message_create_dedupes_witness :
  let d := example_message "3" "c" "third" in
  let next := on_message_create (Some "c") (Some d) example_messages in
  next = d :: example_messages /\
  existsb (same_id (Some d)) next = true /\
  on_message_create (Some "c") (Some d) next = next.
Proof.
  cbv zeta.
  destruct (message_create_dedupes (Some "c") (example_message "3" "c" "third")
              example_messages eq_refl eq_refl) as [H _].
  destruct (H eq_refl) as (_ & _ & H3 & H4).
  split; [vm_compute; reflexivity|]. split; [exact H3|exact H4].
Defined.

(** Instance of X24: the second of two messages is deleted. *)
Lemma message_delete_and_update_witness :
  let d := JObj [("id", JStr "2"); ("channel_id", JStr "c")] in
  let next := on_message_delete (Some "c") (Some d) example_messages in
  next = [example_message "1" "c" "first"] /\
  existsb (same_id (Some d)) next = false /\
  on_message_delete (Some "c") (Some d) next = next.
Proof.
  cbv zeta.
  destruct (message_delete_and_update (Some "c")
              (JObj [("id", JStr "2"); ("channel_id", JStr "c")])
              example_messages eq_refl) as [H _].
  destruct (H eq_refl) as (H1 & _ & H3).
  split; [vm_compute; reflexivity|]. split; [exact H1|exact H3].
Defined.

(** Instance of X26: ann starts typing at 1000, bob at 5000; the tick at
    13000 leaves bob alone. *)
Lemma typing_indicator_expires_witness :
  let s1 := typing_step (TypingStart (typing_start_json "c" "ann") 1000)
              (typing_mount (Some "c") (Some "me")) in
  let after := [TypingStart (typing_start_json "c" "bob") 5000; CleanupTick 6000] in
  typingUsers (typing_run after s1) = ["ann"; "bob"] /\
  typingUsers (typing_step (CleanupTick 13000) (typing_run after s1)) = ["bob"] /\
  ~ In "ann" (typingUsers (typing_step (CleanupTick 13000) (typing_run after s1))).
Proof.
  cbv zeta. split; [vm_compute; reflexivity|]. split; [vm_compute; reflexivity|].
  apply (typing_indicator_expires (Some "c") (Some "me") []
           [TypingStart (typing_start_json "c" "bob") 5000; CleanupTick 6000]
           (typing_start_json "c" "ann") 1000 13000).
  - vm_compute. reflexivity.
  - vm_compute. reflexivity.
  - vm_compute. reflexivity.
  - vm_compute. reflexivity.
  - unfold TYPING_EXPIRY_MS. lia.
Defined.

(** Instance of X27: of two users typing, the one who sends a message
    leaves the list. *)
Lemma typing_events_effect_witness :
  typingUsers two_typing = ["ann"; "bob"] /\
  typingUsers (typing_step (MessageCreate (message_by "c" "ann")) two_typing) =
  ["bob"].
Proof.
  split; [vm_compute; reflexivity|].
  destruct (typing_events_effect (Some "c") (Some "me")
              [TypingStart (typing_start_json "c" "ann") 1000;
               TypingStart (typing_start_json "c" "bob") 5000]
              (message_by "c" "ann") 0) as (_ & _ & H & _).
  refine (eq_trans (H eq_refl eq_refl) _). vm_compute. reflexivity.
Defined.
